(** * markdown_to_word.py: a shallow embedding and its verification

    The development follows [src/markdown_to_word.py]:

    - Python [str] values are lists of characters.  Characters are the code
      points below 256, as [ascii]; the whitespace class is the one of
      [str.isspace] and of the regular expression escape [\s] on that range.
    - The regular expressions of the converter are kept as syntax trees and
      run by a backtracking matcher with the semantics of Python's [re]
      (leftmost start, ordered alternatives, lazy and greedy quantifiers,
      groups, back-references, negative look-ahead).
    - The document under construction is the sequence of units the converter
      adds to it.
    - Dictionaries that are mutated in place live in an explicit store, so
      that the sharing produced by [dict.copy] is visible. *)

From Stdlib Require Import ZArith QArith Lia Ascii String.
From stdpp Require Import base list strings sorting gmap.

Local Open Scope nat_scope.

(** ** Python strings *)

Abbreviation pystr := (list ascii).

Definition py (s : string) : pystr := list_ascii_of_string s.

Definition chr_eqb (a b : ascii) : bool := Ascii.eqb a b.
Arguments chr_eqb : simpl never.

(** [str.isspace] for one character, on code points below 256: TAB, LF, VT,
    FF, CR, the separators 0x1c to 0x1f, SPACE, NEL (0x85) and NBSP (0xa0). *)
Definition is_space (c : ascii) : bool :=
  let n := nat_of_ascii c in
  ((9 <=? n) && (n <=? 13)) || ((28 <=? n) && (n <=? 32)) || (n =? 133) || (n =? 160).

(** Decimal digits ([\d]); below code point 256 these are only 0 to 9. *)
Definition is_digit (c : ascii) : bool :=
  let n := nat_of_ascii c in (48 <=? n) && (n <=? 57).

Definition newline : ascii := ascii_of_nat 10.

(** [s.lstrip(chars)], [s.rstrip(chars)] and [s.strip(chars)] for a class of
    characters. *)
Fixpoint lstrip_by (p : ascii -> bool) (s : pystr) : pystr :=
  match s with
  | c :: s' => if p c then lstrip_by p s' else s
  | [] => []
  end.

Definition rstrip_by (p : ascii -> bool) (s : pystr) : pystr :=
  rev (lstrip_by p (rev s)).

Definition strip_by (p : ascii -> bool) (s : pystr) : pystr :=
  rstrip_by p (lstrip_by p s).

(** [s.strip()] *)
Definition strip (s : pystr) : pystr := strip_by is_space s.

(** [s.strip('|')] *)
Definition strip_chr (c : ascii) (s : pystr) : pystr := strip_by (chr_eqb c) s.

(** [s == t] *)
Definition pystr_eqb (s t : pystr) : bool := bool_decide (s = t).

(** [s.startswith(t)] *)
Fixpoint startswith (s t : pystr) : bool :=
  match t, s with
  | [], _ => true
  | a :: t', b :: s' => chr_eqb a b && startswith s' t'
  | _ :: _, [] => false
  end.

(** [s.endswith(t)] *)
Definition endswith (s t : pystr) : bool := startswith (rev s) (rev t).

(** [s.split(sep)] for a one-character separator: the fields between the
    separators, at least one field. *)
Fixpoint split_on (sep : ascii) (s : pystr) : list pystr :=
  match s with
  | [] => [[]]
  | c :: s' =>
      if chr_eqb sep c then [] :: split_on sep s'
      else match split_on sep s' with
           | f :: fs => (c :: f) :: fs
           | [] => [[c]]
           end
  end.

(** [sep.join(parts)] *)
Fixpoint join (sep : pystr) (parts : list pystr) : pystr :=
  match parts with
  | [] => []
  | [p] => p
  | p :: ps => p ++ sep ++ join sep ps
  end.

(** ** Regular expressions

    The fragment of Python's [re] syntax that the converter uses.  Every
    quantifier of the source applies to a single character class, which is
    what [RRepeat] holds. *)

Inductive regex : Type :=
| RChar (c : ascii)
| RClass (p : ascii -> bool)
| RSeq (r1 r2 : regex)
| RAlt (r1 r2 : regex)
| RRepeat (greedy : bool) (lo : nat) (hi : option nat) (p : ascii -> bool)
| RGroup (n : nat) (r : regex)
| RBackref (n : nat)
| RNotAhead (r : regex)
| RBol
| REol.

Definition groups := list (nat * pystr).

Fixpoint group_lookup (n : nat) (g : groups) : option pystr :=
  match g with
  | [] => None
  | (i, t) :: g' => if i =? n then Some t else group_lookup n g'
  end.

(** [t] as a prefix of [s]: the rest of [s] after it. *)
Fixpoint strip_prefix (t s : pystr) : option pystr :=
  match t, s with
  | [], _ => Some s
  | a :: t', b :: s' => if chr_eqb a b then strip_prefix t' s' else None
  | _ :: _, [] => None
  end.

Section Quantifiers.
Context {R : Type}.

(** A budget of further repetitions: [None] is unbounded. *)
Definition budget_left (hi : option nat) : bool :=
  match hi with Some 0 => false | _ => true end.

Definition budget_pred (hi : option nat) : option nat :=
  match hi with Some n => Some (pred n) | None => None end.

(** Exactly [n] characters of the class. *)
Fixpoint rep_exact (n : nat) (p : ascii -> bool) (s : pystr) (pos : nat)
    (k : pystr -> nat -> option R) : option R :=
  match n with
  | 0 => k s pos
  | S n' =>
      match s with
      | c :: s' => if p c then rep_exact n' p s' (S pos) k else None
      | [] => None
      end
  end.

(** Lazy repetition: the continuation is tried first, one more character
    is taken only when it fails. *)
Fixpoint rep_lazy (p : ascii -> bool) (s : pystr) (hi : option nat) (pos : nat)
    (k : pystr -> nat -> option R) : option R :=
  match k s pos with
  | Some x => Some x
  | None =>
      match s with
      | c :: s' =>
          if budget_left hi && p c
          then rep_lazy p s' (budget_pred hi) (S pos) k
          else None
      | [] => None
      end
  end.

(** Greedy repetition: as many characters as possible are taken first,
    and given back one at a time while the continuation fails. *)
Fixpoint rep_greedy (p : ascii -> bool) (s : pystr) (hi : option nat) (pos : nat)
    (k : pystr -> nat -> option R) : option R :=
  match s with
  | c :: s' =>
      if budget_left hi && p c
      then match rep_greedy p s' (budget_pred hi) (S pos) k with
           | Some x => Some x
           | None => k s pos
           end
      else k s pos
  | [] => k s pos
  end.
End Quantifiers.

(** The backtracking matcher, in continuation-passing style: [rmatch r s pos
    g k] matches [r] at the front of the remaining text [s], which starts at
    offset [pos] of the whole text, with the groups [g] captured so far, and
    hands the rest to [k]; [None] is a failure, which makes the caller try
    its next alternative. *)
Fixpoint rmatch (r : regex) {R : Type} (s : pystr) (pos : nat) (g : groups)
    (k : pystr -> nat -> groups -> option R) : option R :=
  match r with
  | RChar c =>
      match s with
      | c' :: s' => if chr_eqb c c' then k s' (S pos) g else None
      | [] => None
      end
  | RClass p =>
      match s with
      | c' :: s' => if p c' then k s' (S pos) g else None
      | [] => None
      end
  | RSeq r1 r2 =>
      rmatch r1 s pos g (fun s' pos' g' => rmatch r2 s' pos' g' k)
  | RAlt r1 r2 =>
      match rmatch r1 s pos g k with
      | Some x => Some x
      | None => rmatch r2 s pos g k
      end
  | RRepeat greedy lo hi p =>
      rep_exact lo p s pos (fun s1 pos1 =>
        let more := match hi with Some h => Some (h - lo) | None => None end in
        if greedy
        then rep_greedy p s1 more pos1 (fun s' pos' => k s' pos' g)
        else rep_lazy p s1 more pos1 (fun s' pos' => k s' pos' g))
  | RGroup n r1 =>
      rmatch r1 s pos g (fun s' pos' g' => k s' pos' ((n, take (pos' - pos) s) :: g'))
  | RBackref n =>
      match group_lookup n g with
      | Some t =>
          match strip_prefix t s with
          | Some s' => k s' (pos + length t) g
          | None => None
          end
      | None => None
      end
  | RNotAhead r1 =>
      match rmatch r1 s pos g (fun _ _ _ => Some tt) with
      | Some _ => None
      | None => k s pos g
      end
  | RBol => if pos =? 0 then k s pos g else None
  | REol =>
      match s with
      | [] => k s pos g
      | [c] => if chr_eqb c newline then k s pos g else None
      | _ => None
      end
  end.

(** A match object: [m.start()], [m.end()] and the captured groups. *)
Record rematch : Type := MkMatch {
  m_start : nat;
  m_end : nat;
  m_groups : groups
}.

(** [m.group(n)] for a group that took part in the match. *)
Definition m_group (m : rematch) (n : nat) : pystr :=
  default [] (group_lookup n (m_groups m)).

Definition match_at (r : regex) (s : pystr) (pos : nat) : option rematch :=
  rmatch r s pos [] (fun _ pos' g => Some (MkMatch pos pos' g)).

(** [re.match(r, text)] *)
Definition re_match (r : regex) (text : pystr) : option rematch :=
  match_at r text 0.

(** [re.search(r, text)]: the match at the leftmost offset that has one. *)
Fixpoint search_from (r : regex) (s : pystr) (pos : nat) : option rematch :=
  match match_at r s pos with
  | Some m => Some m
  | None =>
      match s with
      | [] => None
      | _ :: s' => search_from r s' (S pos)
      end
  end.

Definition re_search (r : regex) (text : pystr) : option rematch :=
  search_from r text 0.

(** Pattern building blocks. *)
Fixpoint rlit (t : pystr) : regex :=
  match t with
  | [] => RRepeat true 0 (Some 0) (fun _ => false)
  | [c] => RChar c
  | c :: t' => RSeq (RChar c) (rlit t')
  end.

Fixpoint rseq (rs : list regex) : regex :=
  match rs with
  | [] => RRepeat true 0 (Some 0) (fun _ => false)
  | [r] => r
  | r :: rs' => RSeq r (rseq rs')
  end.

(** [.] without DOTALL: any character but a line feed. *)
Definition dot (c : ascii) : bool := negb (chr_eqb c newline).

(** [.*?] *)
Definition lazy_dots : regex := RRepeat false 0 None dot.

Definition one_of (cs : pystr) (c : ascii) : bool := existsb (chr_eqb c) cs.

(** ** The inline patterns of [convert_markdown_to_docx] *)

(** [(\*\*|__)(.*?)(\1)] *)
Definition bold_re : regex :=
  rseq [RGroup 1 (RAlt (rlit (py "**")) (rlit (py "__")));
        RGroup 2 lazy_dots;
        RGroup 3 (RBackref 1)].

(** [([*_])((?!\1).*?)(\1)] *)
Definition italic_re : regex :=
  rseq [RGroup 1 (RClass (one_of (py "*_")));
        RGroup 2 (RSeq (RNotAhead (RBackref 1)) lazy_dots);
        RGroup 3 (RBackref 1)].

(** [`(.*?)`] *)
Definition code_re : regex :=
  rseq [RChar "`"; RGroup 1 lazy_dots; RChar "`"].

(** [\[(.*?)\]\((.*?)\)] *)
Definition link_re : regex :=
  rseq [RChar "["; RGroup 1 lazy_dots; RChar "]"; RChar "(";
        RGroup 2 lazy_dots; RChar ")"].

(** ** Inline formatting: the [while remaining_text:] loop *)

Inductive fmt : Type := normal | bold | italic | code | link.

Definition fmt_eqb (a b : fmt) : bool :=
  match a, b with
  | normal, normal | bold, bold | italic, italic | code, code | link, link => true
  | _, _ => false
  end.

Definition run : Type := fmt * pystr.

(** [matches] and [valid_matches]: the four candidates in the order of the
    source, those that matched kept. *)
Definition candidates (remaining_text : pystr) : list (option rematch * fmt) :=
  [(re_search bold_re remaining_text, bold);
   (re_search italic_re remaining_text, italic);
   (re_search code_re remaining_text, code);
   (re_search link_re remaining_text, link)].

Definition valid_matches (ms : list (option rematch * fmt)) : list (rematch * fmt) :=
  omap (fun '(m, t) => match m with Some m' => Some (m', t) | None => None end) ms.

(** [list.sort(key=...)] is stable.  The elements are inserted from the last
    one to the first one of the list, each before the elements whose key is
    not smaller, which stood after it. *)
Fixpoint insert_by_start (x : rematch * fmt) (l : list (rematch * fmt)) : list (rematch * fmt) :=
  match l with
  | [] => [x]
  | y :: l' =>
      if m_start (fst y) <? m_start (fst x) then y :: insert_by_start x l'
      else x :: l
  end.

Fixpoint sort_by_start (l : list (rematch * fmt)) : list (rematch * fmt) :=
  match l with
  | [] => []
  | x :: l' => insert_by_start x (sort_by_start l')
  end.

(** [valid_matches.sort(...)] followed by [valid_matches[0]]. *)
Definition first_match (remaining_text : pystr) : option (rematch * fmt) :=
  head (sort_by_start (valid_matches (candidates remaining_text))).

(** The text a typed run carries: group 2 of a bold or italic match, group 1
    of a code or link match. *)
Definition run_of_match (m : rematch) (t : fmt) : list run :=
  match t with
  | bold => [(bold, m_group m 2)]
  | italic => [(italic, m_group m 2)]
  | code => [(code, m_group m 1)]
  | link => [(link, m_group m 1)]
  | normal => []
  end.

(** The loop, which the source has twice with the same text: on the content
    of a list item and on a paragraph line.  Each iteration is one unit of
    [fuel]; [None] is a loop that has not ended within the fuel. *)
Fixpoint format_loop (fuel : nat) (remaining_text : pystr) (formatted_runs : list run)
    : option (list run) :=
  match remaining_text with
  | [] => Some formatted_runs
  | _ :: _ =>
      match fuel with
      | 0 => None
      | S fuel' =>
          match first_match remaining_text with
          | Some (m, t) =>
              let before :=
                if 0 <? m_start m
                then [(normal, take (m_start m) remaining_text)] else [] in
              format_loop fuel' (drop (m_end m) remaining_text)
                (formatted_runs ++ before ++ run_of_match m t)
          | None => Some (formatted_runs ++ [(normal, remaining_text)])
          end
      end
  end.

(** The runs of one line of text. *)
Definition format_runs (text : pystr) : option (list run) :=
  format_loop (length text) text [].

Definition runs_text (rs : list run) : pystr := concat (map snd rs).


(** ** Block patterns *)

(** [^(#{1,6})\s+(.+)$] *)
Definition header_re : regex :=
  rseq [RBol;
        RGroup 1 (RRepeat true 1 (Some 6) (chr_eqb "#"));
        RRepeat true 1 None is_space;
        RGroup 2 (RRepeat true 1 None dot);
        REol].

(** The list item pattern: between [^] and [$], group 1 is [\s*], group 2 is
    [[\*\-\+]|\d+\.], then [\s+], and group 3 is [.+]. *)
Definition list_re : regex :=
  rseq [RBol;
        RGroup 1 (RRepeat true 0 None is_space);
        RGroup 2 (RAlt (RClass (one_of (py "*-+")))
                       (RSeq (RRepeat true 1 None is_digit) (RChar ".")));
        RRepeat true 1 None is_space;
        RGroup 3 (RRepeat true 1 None dot);
        REol].

(** [!\[(.*?)\]\((.*?)\)] *)
Definition image_re : regex :=
  rseq [RChar "!"; RChar "["; RGroup 1 lazy_dots; RChar "]"; RChar "(";
        RGroup 2 lazy_dots; RChar ")"].

(** ** The document under construction *)

Definition color : Type := Z * Z * Z.

(** The values of [config] that the block loop reads. *)
Record render_config : Type := MkRenderConfig {
  has_heading_style : nat -> bool;     (* [f'h{level}' in config["styles"]] *)
  table_font_name : pystr;             (* [config["styles"]["table"]["font_name"]] *)
  table_font_size : Q;                 (* [config["styles"]["table"]["font_size"]] *)
  header_bg_color : color              (* [config["styles"]["table"]["header_bg_color"]] *)
}.

(** One table cell: its text and the formatting the converter sets on it. *)
Record cell : Type := MkCell {
  cell_text : pystr;
  cell_bold : bool;
  cell_font_name : option pystr;
  cell_font_size : option Q;
  cell_shade : option color
}.

Definition empty_cell : cell := MkCell [] false None None None.

Abbreviation grid := (list (list cell)).

Inductive list_type : Type := ul | ol.

(** What the converter adds to the document, in order. *)
Inductive doc_unit : Type :=
| Heading (level : nat) (title_text : pystr) (styled : bool)
| ListParagraph (kind : list_type) (indent_level : nat) (runs : list run)
| Table (cells : grid)
| CodeLabel (code_language : pystr)
| CodeParagraph (code_text : pystr)
| EmptyParagraph
| ImageDirective (alt_text img_path : pystr)
| Paragraph (runs : list run).

(** How a computation ends: with a value, with the [IndexError] of
    [table.cell], without an end within the fuel, or with the [ValueError]
    of a text that the document library refuses. *)
Inductive outcome (A : Type) : Type :=
| Ok (a : A)
| IndexError
| NoFuel
| ValueError.
Arguments Ok {A} a.
Arguments IndexError {A}.
Arguments NoFuel {A}.
Arguments ValueError {A}.

Definition obind {A B : Type} (x : outcome A) (f : A -> outcome B) : outcome B :=
  match x with
  | Ok a => f a
  | IndexError => IndexError
  | NoFuel => NoFuel
  | ValueError => ValueError
  end.

Notation "'do' x <- e ; k" := (obind e (fun x => k))
  (at level 10, x pattern, e at level 100, k at level 200).

Definition of_fuel {A : Type} (x : option A) : outcome A :=
  match x with Some a => Ok a | None => NoFuel end.

Definition of_index {A : Type} (x : option A) : outcome A :=
  match x with Some a => Ok a | None => IndexError end.

(** ** Text handed to the document library *)

(** python-docx stores the text of a run, of a heading and of a table cell
    in XML elements.  A tab, a line feed and a carriage return become
    elements of their own; any other character below U+0020 makes the XML
    library raise [ValueError] (strings must be XML compatible: no NULL
    bytes or control characters).  [convert_markdown_to_docx] catches no
    exception around these calls, so the conversion ends there and no file
    is written. *)
Definition xml_char (c : ascii) : bool :=
  let n := nat_of_ascii c in
  (32 <=? n) || (n =? 9) || (n =? 10) || (n =? 13).

Definition xml_text (text : pystr) : bool := forallb xml_char text.

Definition xml_runs (runs : list run) : bool :=
  forallb (fun r => xml_text (snd r)) runs.

Definition xml_grid (table : grid) : bool :=
  forallb (forallb (fun c => xml_text (cell_text c))) table.

(** The texts that a unit hands to the library: the title of
    [doc.add_heading], the texts of [p.add_run], the [cell.text] of the
    cells (a cell that is not written keeps its empty text), the label
    [f"Code ({code_language}):"].  An image is handed to [add_image_to_doc];
    the paragraphs which that function writes (the caption, the note with
    the path of a missing image) are not part of this model. *)
Definition unit_texts (u : doc_unit) : list pystr :=
  match u with
  | Heading _ title_text _ => [title_text]
  | ListParagraph _ _ runs => map snd runs
  | Table cells => map cell_text (concat cells)
  | CodeLabel code_language => [py "Code (" ++ code_language ++ py "):"]
  | CodeParagraph code_text => [code_text]
  | EmptyParagraph => []
  | ImageDirective _ _ => []
  | Paragraph runs => map snd runs
  end.

Definition xml_unit (u : doc_unit) : bool := forallb xml_text (unit_texts u).

(** The calls that add [units] to the document: they return with the units
    added, or one of them raises [ValueError]. *)
Definition add_units (doc units : list doc_unit) : outcome (list doc_unit) :=
  if forallb xml_unit units then Ok (doc ++ units) else ValueError.

(** ** Tables *)

(** [doc.add_table(rows, cols)] *)
Definition add_table (rows cols : nat) : grid := replicate rows (replicate cols empty_cell).

(** [table.cell(r, c)] followed by the update [f] of that cell; out of the
    grid it is an [IndexError]. *)
Definition update_cell (r c : nat) (f : cell -> cell) (t : grid) : option grid :=
  match t !! r with
  | Some row =>
      match row !! c with
      | Some x => Some (<[r := <[c := f x]> row]> t)
      | None => None
      end
  | None => None
  end.

(** A line that looks like a table row: [line.strip().startswith('|') and
    line.strip().endswith('|')]. *)
Definition is_table_line (line : pystr) : bool :=
  startswith (strip line) (py "|") && endswith (strip line) (py "|").

(** The inner [while] of the table branch: the lines collected into
    [table_lines], and the lines from the final [i] on. *)
Fixpoint collect_table_lines (lines : list pystr) : list pystr * list pystr :=
  match lines with
  | line :: rest =>
      if is_table_line line
      then let '(table_lines, rest') := collect_table_lines rest in
           (line :: table_lines, rest')
      else ([], lines)
  | [] => ([], [])
  end.

(** [[cell.strip() for cell in table_line.strip('|').split('|')]] *)
Definition row_cells (table_line : pystr) : list pystr :=
  map strip (split_on "|" (strip_chr "|" table_line)).

Definition header_cell (cfg : render_config) (cell_text : pystr) (_ : cell) : cell :=
  MkCell cell_text true (Some (table_font_name cfg)) None (Some (header_bg_color cfg)).

Definition data_cell (cfg : render_config) (cell_text : pystr) (_ : cell) : cell :=
  MkCell cell_text false (Some (table_font_name cfg)) (Some (table_font_size cfg)) None.

(** [for j, cell_text in enumerate(header_row)] *)
Fixpoint fill_header (cfg : render_config) (j : nat) (header_row : list pystr) (t : grid)
    : option grid :=
  match header_row with
  | [] => Some t
  | cell_text :: more =>
      match update_cell 0 j (header_cell cfg cell_text) t with
      | Some t' => fill_header cfg (S j) more t'
      | None => None
      end
  end.

(** [for col_idx, cell_text in enumerate(row_data)], with its guard
    [if col_idx < num_cols]. *)
Fixpoint fill_row (cfg : render_config) (num_cols row_idx col_idx : nat)
    (row_data : list pystr) (t : grid) : option grid :=
  match row_data with
  | [] => Some t
  | cell_text :: more =>
      if col_idx <? num_cols
      then match update_cell (row_idx + 1) col_idx (data_cell cfg cell_text) t with
           | Some t' => fill_row cfg num_cols row_idx (S col_idx) more t'
           | None => None
           end
      else fill_row cfg num_cols row_idx (S col_idx) more t
  end.

(** [for row_idx, row_data in enumerate(rows_data)] *)
Fixpoint fill_rows (cfg : render_config) (num_cols row_idx : nat)
    (rows_data : list (list pystr)) (t : grid) : option grid :=
  match rows_data with
  | [] => Some t
  | row_data :: more =>
      match fill_row cfg num_cols row_idx 0 row_data t with
      | Some t' => fill_rows cfg num_cols (S row_idx) more t'
      | None => None
      end
  end.

(** The body of [if len(table_lines) >= 3:], up to the filled table. *)
Definition build_table (cfg : render_config) (table_lines : list pystr) : option grid :=
  let header_row := row_cells (nth 0 table_lines []) in
  let rows_data := map row_cells (drop 2 table_lines) in
  let num_cols := length header_row in
  let table := add_table (length rows_data + 1) num_cols in
  match fill_header cfg 0 header_row table with
  | Some table' => fill_rows cfg num_cols 0 rows_data table'
  | None => None
  end.

(** ** The block loop of [convert_markdown_to_docx] *)

Record loop_state : Type := MkLoopState {
  in_code_block : bool;
  code_language : option pystr;
  code_content : list pystr
}.

Definition initial_state : loop_state := MkLoopState false None [].

Definition fence : pystr := py "```".

(** [if code_language:] holds for a string that is not empty. *)
Definition language_label (code_language : option pystr) : list doc_unit :=
  match code_language with
  | Some (c :: l) => [CodeLabel (c :: l)]
  | _ => []
  end.

(** One iteration of the [while i < len(lines):] loop, with [line] the line
    [lines[i]] and [rest] the lines after it; [doc] holds the units added so
    far.  The result is the lines from the new [i] on, the new state and the
    new document, or the [ValueError] of a text that the library refuses. *)
Definition loop_body (cfg : render_config) (line : pystr) (rest : list pystr)
    (st : loop_state) (doc : list doc_unit)
    : outcome (list pystr * loop_state * list doc_unit) :=
  if startswith (strip line) fence then
    if negb (in_code_block st) then
      Ok (rest, MkLoopState true (Some (strip (drop 3 (strip line)))) [], doc)
    else
      do doc' <- add_units doc
                   (language_label (code_language st)
                    ++ [CodeParagraph (join [newline] (code_content st)); EmptyParagraph]);
      Ok (rest, MkLoopState false (code_language st) (code_content st), doc')
  else if in_code_block st then
    Ok (rest, MkLoopState true (code_language st) (code_content st ++ [line]), doc)
  else
    match re_match header_re line with
    | Some header_match =>
        let level := length (m_group header_match 1) in
        let title_text := strip (m_group header_match 2) in
        do doc' <- add_units doc [Heading level title_text (has_heading_style cfg level)];
        Ok (rest, st, doc')
    | None =>
    match re_match list_re line with
    | Some list_match =>
        let indentation := length (m_group list_match 1) in
        let list_marker := m_group list_match 2 in
        let content := m_group list_match 3 in
        let current_list_type :=
          if existsb (pystr_eqb list_marker) [py "*"; py "-"; py "+"]
          then ul else ol in
        let indent_level := indentation / 2 in
        do formatted_runs <- of_fuel (format_runs content);
        do doc' <- add_units doc [ListParagraph current_list_type indent_level formatted_runs];
        Ok (rest, st, doc')
    | None =>
    if is_table_line line then
      let '(table_lines, rest') := collect_table_lines (line :: rest) in
      if 3 <=? length table_lines then
        do table <- of_index (build_table cfg table_lines);
        do doc' <- add_units doc [Table table; EmptyParagraph];
        Ok (rest', st, doc')
      else
        Ok (rest', st, doc)
    else
    match re_match image_re line with
    | Some img_match =>
        Ok (rest, st, doc ++ [ImageDirective (m_group img_match 1) (m_group img_match 2)])
    | None =>
    match strip line with
    | [] => Ok (rest, st, doc ++ [EmptyParagraph])
    | _ :: _ =>
        do formatted_runs <- of_fuel (format_runs line);
        do doc' <- add_units doc [Paragraph formatted_runs];
        Ok (rest, st, doc')
    end
    end
    end
    end.

(** The loop: [lines] is [lines[i:]].  Each iteration is one unit of
    [fuel].  At the end the document is saved as it is; the state is
    returned with it to show what the loop leaves behind. *)
Fixpoint convert_loop (cfg : render_config) (fuel : nat) (lines : list pystr)
    (st : loop_state) (doc : list doc_unit) : outcome (list doc_unit * loop_state) :=
  match lines with
  | [] => Ok (doc, st)
  | line :: rest =>
      match fuel with
      | 0 => NoFuel
      | S fuel' =>
          do (lines', st', doc') <- loop_body cfg line rest st doc;
          convert_loop cfg fuel' lines' st' doc'
      end
  end.

(** The loop from the lines [lines[i:]] on, with the fuel it needs. *)
Definition convert_from (cfg : render_config) (lines : list pystr)
    (st : loop_state) (doc : list doc_unit) : outcome (list doc_unit * loop_state) :=
  convert_loop cfg (length lines) lines st doc.

(** [lines = md_content.split('\n')] and the loop over them, from an empty
    list of units. *)
Definition convert_lines (cfg : render_config) (lines : list pystr)
    : outcome (list doc_unit * loop_state) :=
  convert_from cfg lines initial_state [].

Definition convert_content (cfg : render_config) (md_content : pystr)
    : outcome (list doc_unit * loop_state) :=
  convert_lines cfg (split_on newline md_content).

Definition default_render_config : render_config :=
  MkRenderConfig (fun level => (1 <=? level) && (level <=? 4))
    (py "Times New Roman") (10 # 1) (240, 240, 240)%Z.

(** ** Configuration values *)

(** A number, as a literal of the program or [json.load] gives it: an
    [int] when it is written without a fraction and without an exponent, a
    [float] otherwise ([2] and [2.0] are different objects). *)
Inductive number : Type :=
| Int (z : Z)
| Float (q : Q).

Coercion Int : Z >-> number.

(** A configuration as a value: what a dictionary display or [json.load]
    denotes.  A dictionary is the list of its items in insertion order. *)
Inductive json : Type :=
| JNull
| JBool (b : bool)
| JNum (n : number)
| JStr (s : string)
| JList (l : list json)
| JDict (items : list (string * json)).
Arguments JNum n%_Z.

(** Python objects.  Dictionaries are mutable and are referred to by their
    location in the store; the other values are immutable. *)
Abbreviation loc := nat.

Inductive pyval : Type :=
| VNull
| VBool (b : bool)
| VNum (n : number)
| VStr (s : string)
| VList (l : list json)
| VDict (l : loc).
Arguments VNum n%_Z.

Abbreviation pydict := (list (string * pyval)).

Abbreviation store := (list pydict).

(** [d.get(key)], [key in d] *)
Fixpoint dict_get {V : Type} (key : string) (d : list (string * V)) : option V :=
  match d with
  | [] => None
  | (k, v) :: d' => if String.eqb k key then Some v else dict_get key d'
  end.

(** [d[key] = value]: the value of a present key is replaced where it is, a
    new key goes to the end. *)
Fixpoint dict_set {V : Type} (key : string) (value : V) (d : list (string * V))
    : list (string * V) :=
  match d with
  | [] => [(key, value)]
  | (k, v) :: d' =>
      if String.eqb k key then (k, value) :: d' else (k, v) :: dict_set key value d'
  end.

Definition dict_keys {V : Type} (d : list (string * V)) : list string := map fst d.

(** A value that is not a dictionary, as an object. *)
Definition leaf_val (j : json) : option pyval :=
  match j with
  | JNull => Some VNull
  | JBool b => Some (VBool b)
  | JNum n => Some (VNum n)
  | JStr s => Some (VStr s)
  | JList l => Some (VList l)
  | JDict _ => None
  end.

(** Building the objects of a value: the dictionaries of a display (or of
    the result of [json.load]) are new objects of the store, the inner ones
    built first. *)
Fixpoint alloc (j : json) (h : store) : pyval * store :=
  match j with
  | JNull => (VNull, h)
  | JBool b => (VBool b, h)
  | JNum n => (VNum n, h)
  | JStr s => (VStr s, h)
  | JList l => (VList l, h)
  | JDict items =>
      let fix alloc_items (items : list (string * json)) (d : pydict) (h : store)
          : pydict * store :=
        match items with
        | [] => (d, h)
        | (k, j') :: items' =>
            let '(v, h1) := alloc j' h in
            alloc_items items' (dict_set k v d) h1
        end in
      let '(d, h') := alloc_items items [] h in
      (VDict (length h'), h' ++ [d])
  end.

(** [default_config[key] = value] on the dictionary at [l]. *)
Definition store_set (l : loc) (key : string) (value : pyval) (h : store) : store :=
  match h !! l with
  | Some d => <[l := dict_set key value d]> h
  | None => h
  end.

(** [merge_configs(default_config, user_config)].  [default_config] is the
    location of a dictionary, which is updated in place.  [user_config] is
    only read, so it is kept as a value; a dictionary of it that is stored
    into [default_config] becomes an object of the store at that point.
    [None] is the [AttributeError] of [user_config.items()] when
    [user_config] is not a dictionary, which is raised before any update. *)
Fixpoint merge_configs (user_config : json) (h : store) (default_config : loc)
    : option store :=
  match user_config with
  | JDict items =>
      let fix merge_items (items : list (string * json)) (h : store) : option store :=
        match items with
        | [] => Some h
        | (key, value) :: items' =>
            let assign :=
              let '(v, h1) := alloc value h in
              merge_items items' (store_set default_config key v h1) in
            match h !! default_config with
            | Some d =>
                match dict_get key d, value with
                | Some (VDict l), JDict _ =>
                    match merge_configs value h l with
                    | Some h1 => merge_items items' h1
                    | None => None
                    end
                | _, _ => assign
                end
            | None => assign
            end
        end in
      merge_items items h
  | _ => None
  end.

(** [DEFAULT_CONFIG], the dictionary display of the module. *)

Definition rgb (r g b : Z) : json :=
  JDict [("r", JNum r); ("g", JNum g); ("b", JNum b)].

Definition DEFAULT_CONFIG_display : json :=
  JDict [
    ("styles", JDict [
      ("h1", JDict [
        ("font_name", JStr "Arial"); ("font_size", JNum 18); ("bold", JBool true);
        ("color", rgb 0 51 102); ("space_before", JNum 24); ("space_after", JNum 12);
        ("keep_with_next", JBool true)]);
      ("h2", JDict [
        ("font_name", JStr "Arial"); ("font_size", JNum 16); ("bold", JBool true);
        ("color", rgb 0 102 153); ("space_before", JNum 18); ("space_after", JNum 10);
        ("keep_with_next", JBool true)]);
      ("h3", JDict [
        ("font_name", JStr "Arial"); ("font_size", JNum 14); ("bold", JBool true);
        ("color", rgb 0 153 204); ("space_before", JNum 14); ("space_after", JNum 8);
        ("keep_with_next", JBool true)]);
      ("h4", JDict [
        ("font_name", JStr "Arial"); ("font_size", JNum 12); ("bold", JBool true);
        ("color", rgb 0 153 204); ("space_before", JNum 12); ("space_after", JNum 6);
        ("keep_with_next", JBool true)]);
      ("normal", JDict [
        ("font_name", JStr "Times New Roman"); ("font_size", JNum 11);
        ("color", rgb 0 0 0); ("space_after", JNum 8); ("line_spacing", JNum (Float (115 # 100)))]);
      ("code", JDict [
        ("font_name", JStr "Consolas"); ("font_size", JNum 10);
        ("color", rgb 128 0 128); ("space_after", JNum 8)]);
      ("code_block", JDict [
        ("font_name", JStr "Consolas"); ("font_size", JNum 10);
        ("color", rgb 0 0 0); ("background", rgb 245 245 245);
        ("space_before", JNum 8); ("space_after", JNum 8)]);
      ("list_item", JDict [
        ("font_name", JStr "Times New Roman"); ("font_size", JNum 11);
        ("color", rgb 0 0 0); ("space_after", JNum 0); ("left_indent", JNum (Float (5 # 10)))]);
      ("table", JDict [
        ("font_name", JStr "Times New Roman"); ("font_size", JNum 10);
        ("header_bg_color", rgb 240 240 240); ("border_color", rgb 0 0 0);
        ("space_before", JNum 12); ("space_after", JNum 12)]);
      ("caption", JDict [
        ("font_name", JStr "Times New Roman"); ("font_size", JNum 10);
        ("italic", JBool true); ("color", rgb 80 80 80);
        ("space_before", JNum 6); ("space_after", JNum 12); ("alignment", JStr "center")]);
      ("toc_heading", JDict [
        ("font_name", JStr "Arial"); ("font_size", JNum 16); ("bold", JBool true);
        ("color", rgb 0 0 0); ("space_before", JNum 24); ("space_after", JNum 12)]);
      ("toc_item", JDict [
        ("font_name", JStr "Times New Roman"); ("font_size", JNum 11);
        ("color", rgb 0 0 0); ("space_after", JNum 3)])]);
    ("document", JDict [
      ("add_file_headers", JBool true);
      ("page_break_between_files", JBool true);
      ("margins", JDict [
        ("top", JNum (Float (25 # 10))); ("bottom", JNum (Float (25 # 10)));
        ("left", JNum (Float (25 # 10))); ("right", JNum (Float (25 # 10)))]);
      ("page_size", JDict [("width", JNum (Float 21)); ("height", JNum (Float (297 # 10)))]);
      ("orientation", JStr "portrait");
      ("generate_toc", JBool true);
      ("toc_title", JStr "Table des matières");
      ("header", JDict [
        ("enabled", JBool true); ("content", JStr "{chapter}");
        ("first_page_different", JBool true)]);
      ("footer", JDict [
        ("enabled", JBool true); ("content", JStr "Page {page}");
        ("first_page_different", JBool true)]);
      ("image_max_width", JNum 15)])].

(** The store once the module is loaded, and the object that the global
    [DEFAULT_CONFIG] names. *)
Definition module_store : store := snd (alloc DEFAULT_CONFIG_display []).

Definition DEFAULT_CONFIG : loc :=
  match fst (alloc DEFAULT_CONFIG_display []) with
  | VDict l => l
  | _ => 0
  end.

(** [d.copy()]: a new dictionary with the items of [d]; the values are
    shared, not copied. *)
Definition dict_copy (l : loc) (h : store) : loc * store :=
  (length h, h ++ [default [] (h !! l)]).

(** What [os.path.exists], [open] and [json.load] find at a path. *)
Inductive file_status : Type :=
| Absent
| Unloadable (e : string)
| Loads (user_config : json).

(** The name of the Python type of a loaded value. *)
Definition type_name (j : json) : string :=
  match j with
  | JNull => "NoneType"
  | JBool _ => "bool"
  | JNum (Int _) => "int"
  | JNum (Float _) => "float"
  | JStr _ => "str"
  | JList _ => "list"
  | JDict _ => "dict"
  end.

Definition load_warning (e : string) : list string :=
  ["Erreur lors du chargement de la configuration: " +:+ e;
   "Utilisation de la configuration par défaut."].

(** [load_config(config_file)] in the store [h], where [defaults] is the
    object named by [DEFAULT_CONFIG]: the location of the returned
    dictionary, the store afterwards and the lines printed. *)
Definition load_config (files : string -> file_status) (defaults : loc)
    (config_file : option string) (h : store) : loc * store * list string :=
  let '(config, h1) := dict_copy defaults h in
  match config_file with
  | None | Some "" => (config, h1, [])
  | Some path =>
      match files path with
      | Absent => (config, h1, [])
      | Unloadable e => (config, h1, load_warning e)
      | Loads user_config =>
          match merge_configs user_config h1 config with
          | Some h2 => (config, h2, [])
          | None =>
              (config, h1,
               load_warning ("'" +:+ type_name user_config +:+ "' object has no attribute 'items'"))
          end
      end
  end.

(** Reading a configuration back as a value, to the depth [fuel]. *)
Fixpoint reify (fuel : nat) (h : store) (v : pyval) : option json :=
  match v with
  | VNull => Some JNull
  | VBool b => Some (JBool b)
  | VNum n => Some (JNum n)
  | VStr s => Some (JStr s)
  | VList l => Some (JList l)
  | VDict l =>
      match fuel with
      | 0 => None
      | S fuel' =>
          match h !! l with
          | Some d =>
              option_map JDict
                (mapM (fun '(k, v') => option_map (pair k) (reify fuel' h v')) d)
          | None => None
          end
      end
  end.

(** [config[k1][k2]...] *)
Fixpoint get_path (h : store) (v : pyval) (path : list string) : option pyval :=
  match path with
  | [] => Some v
  | k :: path' =>
      match v with
      | VDict l =>
          match h !! l with
          | Some d =>
              match dict_get k d with
              | Some v' => get_path h v' path'
              | None => None
              end
          | None => None
          end
      | _ => None
      end
  end.

Fixpoint json_depth (j : json) : nat :=
  match j with
  | JDict items => S (list_max (map (fun kv => json_depth (snd kv)) items))
  | _ => 0
  end.

(** ** Definitions used by the statements *)

(** The least number of characters a match of the pattern takes. *)
Fixpoint min_len (r : regex) : nat :=
  match r with
  | RChar _ | RClass _ => 1
  | RSeq r1 r2 => min_len r1 + min_len r2
  | RAlt r1 r2 => Nat.min (min_len r1) (min_len r2)
  | RRepeat _ lo _ _ => lo
  | RGroup _ r1 => min_len r1
  | RBackref _ | RNotAhead _ | RBol | REol => 0
  end.

(** The pattern behind each kind of typed run, and the rank of the kind in
    the list [matches]. *)
Definition pattern (t : fmt) : option regex :=
  match t with
  | bold => Some bold_re
  | italic => Some italic_re
  | code => Some code_re
  | link => Some link_re
  | normal => None
  end.

Definition priority (t : fmt) : nat :=
  match t with
  | bold => 0
  | italic => 1
  | code => 2
  | link => 3
  | normal => 4
  end.

(** The characters of the inline markup, and text without any of them (and
    without a line feed, which no line of [md_content.split] holds). *)
Definition is_markup (c : ascii) : bool :=
  one_of (py "*_`[]()") c || chr_eqb c newline.

Definition plain_text (t : pystr) : Prop := Forall (fun c => is_markup c = false) t.

(** What a character of plain text is not. *)
Record plain_char (c : ascii) : Prop := MkPlainChar {
  pc_star : c <> "*"%char;
  pc_underscore : c <> "_"%char;
  pc_backtick : c <> "`"%char;
  pc_lbracket : c <> "["%char;
  pc_rbracket : c <> "]"%char;
  pc_lparen : c <> "("%char;
  pc_rparen : c <> ")"%char;
  pc_newline : c <> newline
}.

(** The characters at which an inline span can start, and text without any
    of them: the text around the spans of a line. *)
Definition is_opener (c : ascii) : bool := one_of (py "*_`[") c.

Definition no_opener (t : pystr) : Prop := Forall (fun c => is_opener c = false) t.

(** A well-formed inline span, as it is written in the line. *)
Inductive inline : Type :=
| IBold (d : ascii) (t : pystr)
| IItalic (d : ascii) (t : pystr)
| ICode (t : pystr)
| ILink (t url : pystr).

Definition is_delim (d : ascii) : Prop := d = "*"%char \/ d = "_"%char.

Definition well_formed (x : inline) : Prop :=
  match x with
  | IBold d t => is_delim d /\ plain_text t
  | IItalic d t => is_delim d /\ plain_text t /\ t <> []
  | ICode t => plain_text t
  | ILink t url => plain_text t /\ plain_text url
  end.

(** The markdown source of a span, the kind of run it stands for and its
    visible text. *)
Definition source (x : inline) : pystr :=
  match x with
  | IBold d t => [d; d] ++ t ++ [d; d]
  | IItalic d t => [d] ++ t ++ [d]
  | ICode t => py "`" ++ t ++ py "`"
  | ILink t url => py "[" ++ t ++ py "](" ++ url ++ py ")"
  end.

Definition kind (x : inline) : fmt :=
  match x with
  | IBold _ _ => bold
  | IItalic _ _ => italic
  | ICode _ => code
  | ILink _ _ => link
  end.

Definition visible (x : inline) : pystr :=
  match x with
  | IBold _ t | IItalic _ t | ICode t | ILink t _ => t
  end.

(** A line written as plain text around spans: each span with the plain
    text before it, and the plain text after the last one. *)
Definition line_source (chunks : list (pystr * inline)) (tail : pystr) : pystr :=
  concat (map (fun '(p, x) => p ++ source x) chunks) ++ tail.

Definition line_visible (chunks : list (pystr * inline)) (tail : pystr) : pystr :=
  concat (map (fun '(p, x) => p ++ visible x) chunks) ++ tail.

Definition plain_run (p : pystr) : list run :=
  match p with [] => [] | _ :: _ => [(normal, p)] end.

Definition line_runs (chunks : list (pystr * inline)) (tail : pystr) : list run :=
  concat (map (fun '(p, x) => plain_run p ++ [(kind x, visible x)]) chunks) ++ plain_run tail.

Definition typed_runs (rs : list run) : list run :=
  List.filter (fun r => negb (fmt_eqb (fst r) normal)) rs.

(** The match object of a span that starts at offset [pos]. *)
Definition span_match (x : inline) (pos : nat) : rematch :=
  MkMatch pos (pos + length (source x))
    match x with
    | IBold d t => [(3, [d; d]); (2, t); (1, [d; d])]
    | IItalic d t => [(3, [d]); (2, t); (1, [d])]
    | ICode t => [(1, t)]
    | ILink t url => [(2, url); (1, t)]
    end.

Definition well_formed_chunk (c : pystr * inline) : Prop :=
  no_opener (fst c) /\ well_formed (snd c).

(** The characters at which a match of each pattern can start. *)
Definition first_chars (t : fmt) : pystr :=
  match t with
  | bold | italic => py "*_"
  | code => py "`"
  | link => py "["
  | normal => []
  end.

(** A run that is not empty when it is plain text or italic text. *)
Definition never_empty (r : run) : Prop :=
  (fst r = normal \/ fst r = italic) -> snd r <> [].

Definition sample_chunks : list (pystr * inline) :=
  [(py "See (here) ", ILink (py "the docs") (py "http://x.org/a"));
   (py ": ", IItalic "_" (py "very"));
   (py " ", IBold "*" (py "bold"));
   (py " and ", ICode (py "x = 1"))].

(** A line with one well-formed span of each kind and an asterisk of its own
    in the text before them. *)
Definition stray_chunks : list (pystr * inline) :=
  [(py "2 * 3 = ", IBold "*" (py "six"));
   (py " or ", IItalic "*" (py "so"));
   (py ", see ", ICode (py "x"));
   (py " ", ILink (py "l") (py "u"))].

(** ** Tables, as the statements read them *)

Definition header_row_cells (cfg : render_config) (header_row : list pystr) : list cell :=
  map (fun cell_text => header_cell cfg cell_text empty_cell) header_row.

(** A data row of the grid: the first [num_cols] cells of the line, and
    empty cells where the line has fewer. *)
Definition data_row_cells (cfg : render_config) (num_cols : nat) (row_data : list pystr)
    : list cell :=
  map (fun cell_text => data_cell cfg cell_text empty_cell) (take num_cols row_data)
    ++ replicate (num_cols - length row_data) empty_cell.

(** The cells of a table line in the words of the specification.  A table
    line starts and ends with a bar, the white space around it set aside as
    in the test of the loop; it is split at the bars, and the empty fields
    that the leading and the trailing bars produce at both ends are left
    out.  The specification says nothing of white space inside a cell. *)
Fixpoint drop_empty (fields : list pystr) : list pystr :=
  match fields with
  | [] :: fields' => drop_empty fields'
  | _ => fields
  end.

Definition trim_empty_fields (fields : list pystr) : list pystr :=
  rev (drop_empty (rev (drop_empty fields))).

Definition split_trimmed (table_line : pystr) : list pystr :=
  trim_empty_fields (split_on "|" (strip table_line)).


(** A run of table lines with a line that has white space around its bars. *)
Definition padded_run : list pystr :=
  map py [" |A|B| "; "|---|---|"; "|1|2|"].

(** The grid of a run of table lines: the header row, no row for the second
    line, one row for each line after it. *)
Definition table_of (cfg : render_config) (table_lines : list pystr) : grid :=
  let header_row := row_cells (nth 0 table_lines []) in
  header_row_cells cfg header_row
    :: map (fun l => data_row_cells cfg (length header_row) (row_cells l))
         (drop 2 table_lines).

(** What a character that starts a table line is not: a number sign, a
    backtick, a list marker or a digit. *)
Definition row_start (c : ascii) : Prop :=
  chr_eqb "#" c = false /\ chr_eqb "`" c = false /\
  one_of (py "*-+") c = false /\ is_digit c = false.

(** The lines [rest] do not continue a run of table lines. *)
Definition ends_run (rest : list pystr) : Prop :=
  match rest with
  | [] => True
  | line :: _ => is_table_line line = false
  end.

Definition is_fence_line (line : pystr) : bool := startswith (strip line) fence.

(** ** Configurations, as the statements read them *)

(** The keys of every dictionary of a value are distinct, as they are in a
    Python dictionary. *)
Fixpoint no_dup_keys (keys : list string) : bool :=
  match keys with
  | [] => true
  | k :: keys' => negb (existsb (String.eqb k) keys') && no_dup_keys keys'
  end.

Fixpoint unique_keys (j : json) : bool :=
  match j with
  | JDict items =>
      no_dup_keys (map fst items) &&
      (fix all (items : list (string * json)) : bool :=
         match items with
         | [] => true
         | (_, j') :: items' => unique_keys j' && all items'
         end) items
  | _ => true
  end.

(** The merge in the words of the specification: a key-wise union of two
    dictionaries, where a key of both keeps its place and gets the merge of
    its two values, and the keys of the override alone follow; the merge of
    two values that are not both dictionaries is the override. *)
Fixpoint merge_tree (default override : json) {struct default} : json :=
  match default, override with
  | JDict ditems, JDict uitems =>
      JDict
        ((fix merged (ditems : list (string * json)) : list (string * json) :=
            match ditems with
            | [] => []
            | (k, dv) :: ditems' =>
                (k, match dict_get k uitems with
                    | Some uv => merge_tree dv uv
                    | None => dv
                    end) :: merged ditems'
            end) ditems
         ++ List.filter
              (fun kv => match dict_get (fst kv) ditems with Some _ => false | None => true end)
              uitems)
  | _, _ => override
  end.

(** The two parts of a merged dictionary. *)
Definition kept_items (d u : list (string * json)) : list (string * json) :=
  map (fun kv =>
         (fst kv, match dict_get (fst kv) u with
                  | Some uv => merge_tree (snd kv) uv
                  | None => snd kv
                  end)) d.

Definition added_items (d u : list (string * json)) : list (string * json) :=
  List.filter
    (fun kv => match dict_get (fst kv) d with Some _ => false | None => true end) u.

(** [j[k1][k2]...] on a value. *)
Fixpoint json_get (j : json) (path : list string) : option json :=
  match path with
  | [] => Some j
  | k :: path' =>
      match j with
      | JDict items =>
          match dict_get k items with
          | Some j' => json_get j' path'
          | None => None
          end
      | _ => None
      end
  end.

(** The override that sets the one field at [path]. *)
Fixpoint single_override (path : list string) (value : json) : json :=
  match path with
  | [] => value
  | k :: path' => JDict [(k, single_override path' value)]
  end.

Definition is_dict (j : json) : bool :=
  match j with JDict _ => true | _ => false end.

(** ** Definitions used by the proofs about the store *)

(** The two inner loops of [alloc] and [merge_configs], by name. *)
Fixpoint alloc_items (items : list (string * json)) (d : pydict) (h : store)
    : pydict * store :=
  match items with
  | [] => (d, h)
  | (k, j') :: items' =>
      let '(v, h1) := alloc j' h in
      alloc_items items' (dict_set k v d) h1
  end.

Section MergeItems.
Variable default_config : loc.

Fixpoint merge_items (items : list (string * json)) (h : store) : option store :=
  match items with
  | [] => Some h
  | (key, value) :: items' =>
      let assign :=
        let '(v, h1) := alloc value h in
        merge_items items' (store_set default_config key v h1) in
      match h !! default_config with
      | Some d =>
          match dict_get key d, value with
          | Some (VDict l), JDict _ =>
              match merge_configs value h l with
              | Some h1 => merge_items items' h1
              | None => None
              end
          | _, _ => assign
          end
      | None => assign
      end
  end.
End MergeItems.

(** The merge of two lists of items, one item of the override after the
    other, as [merge_configs] goes through them. *)
Definition merge_item (d : list (string * json)) (kv : string * json)
    : list (string * json) :=
  dict_set (fst kv)
    match dict_get (fst kv) d with
    | Some dv => merge_tree dv (snd kv)
    | None => snd kv
    end d.

Definition merge_seq (d u : list (string * json)) : list (string * json) :=
  fold_left merge_item u d.

(** The objects of a value in the store: [tree_at h v j F] holds when the
    object [v] of the store [h] reads as the value [j] and its dictionaries
    are the locations [F], each of them referred to once. *)
Inductive tree_at (h : store) : pyval -> json -> gset loc -> Prop :=
| tree_leaf j v :
    leaf_val j = Some v -> tree_at h v j ∅
| tree_dict l d items F :
    h !! l = Some d -> items_at h d items F -> l ∉ F ->
    tree_at h (VDict l) (JDict items) ({[l]} ∪ F)
with items_at (h : store) : pydict -> list (string * json) -> gset loc -> Prop :=
| items_nil : items_at h [] [] ∅
| items_cons k v j d items F1 F2 :
    tree_at h v j F1 -> items_at h d items F2 -> F1 ## F2 ->
    items_at h ((k, v) :: d) ((k, j) :: items) (F1 ∪ F2).

Scheme tree_at_mut := Induction for tree_at Sort Prop
  with items_at_mut := Induction for items_at Sort Prop.

(** Two stores that hold the same dictionaries at the locations [F]. *)
Definition same_on (F : gset loc) (h h' : store) : Prop :=
  forall l, l ∈ F -> h' !! l = h !! l.

(** What a step of the merge leaves: the dictionary at [l] reads as [D'],
    the store has only grown, the locations of the value are old ones or
    new ones, and the dictionaries that are not part of the value are as
    before. *)
Definition merged_into (h : store) (l : loc) (F : gset loc)
    (h' : store) (D' : list (string * json)) (F' : gset loc) : Prop :=
  tree_at h' (VDict l) (JDict D') F' /\
  length h <= length h' /\
  (forall x, x ∈ F' -> x ∈ F \/ length h <= x) /\
  (forall x, x < length h -> x ∉ F -> h' !! x = h !! x).

(** Sample inputs. *)
Definition sample_defaults : list (string * json) :=
  [("styles", JDict [("h1", JDict [("font_name", JStr "Arial"); ("font_size", JNum 18)]);
                     ("normal", JDict [("font_size", JNum 11)])]);
   ("document", JDict [("orientation", JStr "portrait")])].

Definition sample_override : list (string * json) :=
  [("styles", JDict [("h1", JDict [("font_size", JNum 20)])]);
   ("author", JStr "me")].

Definition h1_font_size_99 : json :=
  single_override ["styles"; "h1"; "font_size"] (JNum 99).

Definition sample_files (path : string) : file_status :=
  if String.eqb path "config.json" then Loads h1_font_size_99
  else if String.eqb path "broken.json" then Unloadable "Expecting value: line 1 column 1 (char 0)"
  else Absent.

(** ** Lines of each kind, as the block loop reads them *)

(** A run of number signs. *)
Definition hashes (n : nat) : pystr := replicate n "#"%char.

(** White space only. *)
Definition blank (ws : pystr) : Prop := Forall (fun c => is_space c = true) ws.

(** Text without a line feed, as a line of [md_content.split] is. *)
Definition one_line (t : pystr) : Prop := Forall (fun c => dot c = true) t.

(** Text whose first character is not white space. *)
Definition starts_text (t : pystr) : Prop :=
  match t with
  | c :: _ => is_space c = false
  | [] => False
  end.

(** The two kinds of list markers: one of the characters [*], [-] and [+],
    or decimal digits and a full stop. *)
Inductive marker : Type :=
| Bullet (c : ascii)
| Number (digits : pystr).

Definition marker_text (m : marker) : pystr :=
  match m with
  | Bullet c => [c]
  | Number digits => digits ++ py "."
  end.

Definition marker_ok (m : marker) : Prop :=
  match m with
  | Bullet c => one_of (py "*-+") c = true
  | Number digits => digits <> [] /\ Forall (fun c => is_digit c = true) digits
  end.

Definition marker_type (m : marker) : list_type :=
  match m with
  | Bullet _ => ul
  | Number _ => ol
  end.

(** A character at which no block construct starts: it is not white space,
    not a digit, and none of the characters of the string below. *)
Definition text_start (c : ascii) : bool :=
  negb (is_space c || is_digit c || one_of (py "#`|!*-+") c).

(** What a character is not when it is white space, a digit, a bullet or the
    start of text: a number sign, a backtick, a vertical bar or an
    exclamation mark. *)
Record other_start (c : ascii) : Prop := MkOtherStart {
  os_hash : chr_eqb "#" c = false;
  os_backtick : chr_eqb "`" c = false;
  os_bar : chr_eqb "|" c = false;
  os_bang : chr_eqb "!" c = false
}.

(** Text of one line that does not hold the character [x]. *)
Definition without (x : ascii) (t : pystr) : Prop :=
  Forall (fun c => chr_eqb x c = false /\ dot c = true) t.

(** Text that closes no span: it holds none of the characters at which a
    span starts and no closing square bracket. *)
Definition no_partner (q : pystr) : Prop :=
  Forall (fun c => is_opener c = false /\ chr_eqb "]" c = false) q.

(** A cell text as [row_cells] leaves it: stripped, and without a vertical
    bar. *)
Definition clean_cell (t : pystr) : Prop := strip t = t /\ "|"%char ∉ t.

(** An override that merges into no dictionary of the defaults: no key holds
    a dictionary on both sides. *)
Definition flat_override (defaults override : list (string * json)) : bool :=
  forallb
    (fun kv =>
       negb (is_dict (snd kv) &&
             match dict_get (fst kv) defaults with
             | Some dv => is_dict dv
             | None => false
             end))
    override.

Definition sample_flat_override : list (string * json) :=
  [("document", JStr "none"); ("author", JDict [("name", JStr "me")])].

(** ** [shade_cell]: the fill attribute *)

Definition hex_digit (n : nat) : ascii := nth n (py "0123456789abcdef") "0"%char.

(** The hexadecimal digits of a number, the most significant one first;
    [fuel] bounds the number of digits. *)
Fixpoint hex_loop (fuel n : nat) (acc : pystr) : pystr :=
  match fuel with
  | 0 => acc
  | S fuel' =>
      let acc' := hex_digit (n mod 16) :: acc in
      if n / 16 =? 0 then acc' else hex_loop fuel' (n / 16) acc'
  end.

Definition hex (n : nat) : pystr := hex_loop (S n) n [].

(** [f"{z:02x}"] for an integer: lower-case hexadecimal digits, filled with
    zeros to a width of two characters, the sign of a negative number
    included in the width and written first. *)
Definition format_02x (z : Z) : pystr :=
  let digits := hex (Z.abs_nat z) in
  if (z <? 0)%Z
  then "-"%char :: replicate (1 - length digits) "0"%char ++ digits
  else replicate (2 - length digits) "0"%char ++ digits.

(** The value that [shade_cell(cell, r, g, b)] gives to the attribute
    [w:fill] of the shading element. *)
Definition shade_fill (r g b : Z) : pystr :=
  format_02x r ++ format_02x g ++ format_02x b.

(** Reading a fill of six lower-case hexadecimal digits. *)
Definition hex_value (c : ascii) : option Z :=
  let n := nat_of_ascii c in
  if (48 <=? n) && (n <=? 57) then Some (Z.of_nat (n - 48))
  else if (97 <=? n) && (n <=? 102) then Some (Z.of_nat (n - 87))
  else None.

Definition parse_hex2 (a b : ascii) : option Z :=
  match hex_value a, hex_value b with
  | Some x, Some y => Some (16 * x + y)%Z
  | _, _ => None
  end.

Definition parse_fill (s : pystr) : option color :=
  match s with
  | [r1; r2; g1; g2; b1; b2] =>
      match parse_hex2 r1 r2, parse_hex2 g1 g2, parse_hex2 b1 b2 with
      | Some r, Some g, Some b => Some (r, g, b)
      | _, _, _ => None
      end
  | _ => None
  end.

(** A colour component that fits into two hexadecimal digits. *)
Definition in_byte (z : Z) : Prop := (0 <= z <= 255)%Z.

(** ** Styles: [apply_style], [apply_para_style] and [apply_heading_style]

    A style is a dictionary of the configuration.  A run and a paragraph are
    the attributes that the three functions set, each with the value it was
    given last; a size or a spacing [Pt(v)] is kept as [v]. *)

Inductive attr : Type :=
| FontName | FontSize | Bold | Italic
| SpaceBefore | SpaceAfter | LineSpacing | KeepWithNext.

(** What the document library accepts: whether a value can be given to an
    attribute (through [Pt] for the sizes and the spacings), and whether
    [RGBColor(r, g, b)] can be built.  What is not accepted raises an
    exception. *)
Record docx_lib : Type := MkDocxLib {
  accepts : attr -> json -> bool;
  accepts_rgb : json -> json -> json -> bool
}.

Record docx_run : Type := MkRun {
  run_text : pystr;
  run_font_name : option json;
  run_font_size : option json;
  run_bold : option json;
  run_italic : option json;
  run_color : option (json * json * json)
}.

Inductive alignment : Type := AlignLeft | AlignCenter | AlignRight | AlignJustify.

Record docx_par : Type := MkPar {
  par_runs : list docx_run;
  par_space_before : option json;
  par_space_after : option json;
  par_line_spacing : option json;
  par_keep_with_next : option json;
  par_alignment : option alignment
}.

(** [if key in style: target.attribute = style[key]]; [None] is an
    exception. *)
Definition assign {T : Type} (lib : docx_lib) (a : attr) (style : list (string * json))
    (key : string) (set : json -> T -> T) (target : T) : option T :=
  match dict_get key style with
  | Some v => if accepts lib a v then Some (set v target) else None
  | None => Some target
  end.

Definition set_font_name (v : json) (r : docx_run) : docx_run :=
  MkRun (run_text r) (Some v) (run_font_size r) (run_bold r) (run_italic r) (run_color r).

Definition set_font_size (v : json) (r : docx_run) : docx_run :=
  MkRun (run_text r) (run_font_name r) (Some v) (run_bold r) (run_italic r) (run_color r).

Definition set_bold (v : json) (r : docx_run) : docx_run :=
  MkRun (run_text r) (run_font_name r) (run_font_size r) (Some v) (run_italic r) (run_color r).

Definition set_italic (v : json) (r : docx_run) : docx_run :=
  MkRun (run_text r) (run_font_name r) (run_font_size r) (run_bold r) (Some v) (run_color r).

Definition set_color (c : json * json * json) (r : docx_run) : docx_run :=
  MkRun (run_text r) (run_font_name r) (run_font_size r) (run_bold r) (run_italic r) (Some c).

(** [apply_style(run, style)].  A colour that is no dictionary has no
    method [get]; a component that the colour does not have is 0. *)
Definition apply_style (lib : docx_lib) (style : list (string * json)) (r : docx_run)
    : option docx_run :=
  r1 ← assign lib FontName style "font_name" set_font_name r;
  r2 ← assign lib FontSize style "font_size" set_font_size r1;
  r3 ← assign lib Bold style "bold" set_bold r2;
  r4 ← assign lib Italic style "italic" set_italic r3;
  match dict_get "color" style with
  | Some (JDict c) =>
      let r := default (JNum 0) (dict_get "r" c) in
      let g := default (JNum 0) (dict_get "g" c) in
      let b := default (JNum 0) (dict_get "b" c) in
      if accepts_rgb lib r g b then Some (set_color (r, g, b) r4) else None
  | Some _ => None
  | None => Some r4
  end.

Definition set_runs (runs : list docx_run) (p : docx_par) : docx_par :=
  MkPar runs (par_space_before p) (par_space_after p) (par_line_spacing p)
    (par_keep_with_next p) (par_alignment p).

Definition set_space_before (v : json) (p : docx_par) : docx_par :=
  MkPar (par_runs p) (Some v) (par_space_after p) (par_line_spacing p)
    (par_keep_with_next p) (par_alignment p).

Definition set_space_after (v : json) (p : docx_par) : docx_par :=
  MkPar (par_runs p) (par_space_before p) (Some v) (par_line_spacing p)
    (par_keep_with_next p) (par_alignment p).

Definition set_line_spacing (v : json) (p : docx_par) : docx_par :=
  MkPar (par_runs p) (par_space_before p) (par_space_after p) (Some v)
    (par_keep_with_next p) (par_alignment p).

Definition set_keep_with_next (v : json) (p : docx_par) : docx_par :=
  MkPar (par_runs p) (par_space_before p) (par_space_after p) (par_line_spacing p)
    (Some v) (par_alignment p).

Definition set_alignment (a : alignment) (p : docx_par) : docx_par :=
  MkPar (par_runs p) (par_space_before p) (par_space_after p) (par_line_spacing p)
    (par_keep_with_next p) (Some a).

Definition alignment_map (s : string) : option alignment :=
  if String.eqb s "left" then Some AlignLeft
  else if String.eqb s "center" then Some AlignCenter
  else if String.eqb s "right" then Some AlignRight
  else if String.eqb s "justify" then Some AlignJustify
  else None.

(** [apply_para_style(paragraph, style)].  The test
    [style["alignment"] in alignment_map] raises a [TypeError] for a list
    or a dictionary, which cannot be hashed; any other value that is no key
    of the map leaves the alignment as it is. *)
Definition apply_para_style (lib : docx_lib) (style : list (string * json)) (p : docx_par)
    : option docx_par :=
  runs ← mapM (apply_style lib style) (par_runs p);
  p1 ← assign lib SpaceBefore style "space_before" set_space_before (set_runs runs p);
  p2 ← assign lib SpaceAfter style "space_after" set_space_after p1;
  p3 ← assign lib LineSpacing style "line_spacing" set_line_spacing p2;
  p4 ← assign lib KeepWithNext style "keep_with_next" set_keep_with_next p3;
  match dict_get "alignment" style with
  | Some (JStr s) =>
      Some match alignment_map s with
           | Some a => set_alignment a p4
           | None => p4
           end
  | Some (JList _) | Some (JDict _) => None
  | _ => Some p4
  end.

(** [apply_heading_style(heading, style)] *)
Definition apply_heading_style (lib : docx_lib) (style : list (string * json))
    (heading : docx_par) : option docx_par :=
  p ← apply_para_style lib style heading;
  runs ← mapM (apply_style lib style) (par_runs p);
  Some (set_runs runs p).

(** Sample inputs: a library that takes numbers for the sizes and the
    spacings and numbers from 0 to 255 for the colours, the style of the
    first heading level, and a heading of two runs. *)
Definition is_num (j : json) : bool :=
  match j with JNum _ => true | _ => false end.

Definition sample_lib : docx_lib :=
  MkDocxLib
    (fun a v =>
       match a with
       | FontSize | SpaceBefore | SpaceAfter => is_num v
       | _ => true
       end)
    (fun r g b => is_num r && is_num g && is_num b).

Definition sample_style : list (string * json) :=
  [("font_name", JStr "Arial"); ("font_size", JNum 18); ("bold", JBool true);
   ("color", JDict [("g", JNum 51); ("b", JNum 102)]); ("space_before", JNum 24);
   ("keep_with_next", JBool true); ("alignment", JStr "centre")].

Definition sample_heading : docx_par :=
  MkPar [MkRun (py "Scope") None None None (Some (JBool true)) None;
         MkRun (py " and limits") None None None None None]
    None None None None (Some AlignLeft).

(** ** [add_header_footer] *)








(** ** [extract_chapter_title] *)

(** [re.search] with the flag [re.MULTILINE] for a pattern that starts with
    [^]: a match is tried at the start of the text and after every line
    feed, and nowhere else.  [bol] tells whether [s] starts a line. *)
Fixpoint search_line_start (r : regex) (s : pystr) (pos : nat) (bol : bool)
    : option rematch :=
  match (if bol then match_at r s pos else None) with
  | Some m => Some m
  | None =>
      match s with
      | [] => None
      | c :: s' => search_line_start r s' (S pos) (chr_eqb c newline)
      end
  end.

(** [$] with the flag [re.MULTILINE]: a line feed or the end of the text
    comes next, and nothing is taken. *)
Definition eol_multiline : regex :=
  RNotAhead (RNotAhead (RAlt (RChar newline) REol)).

(** [#\s+(.+)$], what follows the [^] of the pattern of the chapter
    title. *)
Definition chapter_re : regex :=
  rseq [RChar "#"; RRepeat true 1 None is_space; RGroup 1 (RRepeat true 1 None dot);
        eol_multiline].

Definition extract_chapter_title (md_content : pystr) : pystr :=
  match search_line_start chapter_re md_content 0 true with
  | Some h1_match => strip (m_group h1_match 1)
  | None => py "Chapitre"
  end.

(** A line that starts with a number sign followed by white space or by the
    end of the line. *)
Definition h1_start (l : pystr) : bool :=
  match l with
  | c :: tl =>
      chr_eqb "#" c && match tl with d :: _ => is_space d | [] => true end
  | [] => false
  end.

(** Lines as a text, each followed by a line feed. *)
Definition unlines (lines : list pystr) : pystr :=
  concat (map (fun l => l ++ [newline]) lines).

(** Text that can stand between two double delimiters [d]: it has no line
    feed, no two [d] in a row, and no [d] at its end. *)
Fixpoint unclosed (d : ascii) (t : pystr) : bool :=
  match t with
  | [] => true
  | a :: tl =>
      dot a &&
      match tl with
      | [] => negb (chr_eqb d a)
      | b :: _ => negb (chr_eqb d a && chr_eqb d b) && unclosed d tl
      end
  end.

(** ** [add_table_to_doc]

    The rows of the HTML table are what [table_html.find_all('tr')] and
    [row.find_all(['th', 'td'])] give: for every cell whether its tag is
    [th], and its text [cell.get_text(strip=True)]. *)








(** ** [add_list_to_doc]

    An HTML list as the function reads it: the name of its tag and, for
    every item that is a child of the list, the text of the item outside
    its sub-lists (what the loop over [item.contents] puts together) and
    the lists that are children of the item. *)
Inductive html_list : Type :=
| HtmlList (name : string) (items : list (pystr * list html_list)).

Definition html_name (l : html_list) : string :=
  match l with HtmlList name _ => name end.

(** The paragraph of an item: its list style, its level (the left indent is
    the level plus one, times the configured indent) and the text of its
    run. *)
Record list_par : Type := MkListPar {
  lp_kind : list_type;
  lp_level : nat;
  lp_text : pystr
}.

(** [add_list_to_doc(doc, list_html, config, list_type, level)]: the
    paragraphs added.  Without a [list_type], or with an empty one, the list
    is of the type of its tag; a sub-list is always of the type of its own
    tag. *)
Fixpoint add_list_to_doc (list_html : html_list) (list_type : option string) (level : nat)
    : list list_par :=
  match list_html with
  | HtmlList name items =>
      let list_type :=
        match list_type with
        | Some (String c t) => String c t
        | _ => name
        end in
      (fix each (items : list (pystr * list html_list)) : list list_par :=
         match items with
         | [] => []
         | (item_text, sub_lists) :: more =>
             MkListPar (if String.eqb list_type "ul" then ul else ol) level (strip item_text)
             :: (fix subs (sub_lists : list html_list) : list list_par :=
                   match sub_lists with
                   | [] => []
                   | sub_list :: rest =>
                       add_list_to_doc sub_list (Some (html_name sub_list)) (S level)
                         ++ subs rest
                   end) sub_lists
             ++ each more
         end) items
  end.




Definition sample_list : html_list :=
  HtmlList "ul"
    [(py " first ", [HtmlList "ol" [(py "inner", []); (py "deep", [HtmlList "ul" [(py "x", [])]])]]);
     (py "second", [])].


(** * Properties of the matcher *)

Section QuantifierFacts.
Context {R : Type}.
Implicit Types (k : pystr -> nat -> option R) (p : ascii -> bool).

Lemma rep_exact_inv n p : forall s pos k x,
  rep_exact n p s pos k = Some x ->
  n <= length s /\ k (drop n s) (pos + n) = Some x.
Proof.
  induction n as [|n IH]; intros s pos k x H; simpl in H.
  - rewrite drop_0, Nat.add_0_r. split; [lia | done].
  - destruct s as [|c s]; [done|]. destruct (p c); [|done].
    apply IH in H as [Hn Hk]. simpl. split; [lia|].
    by replace (pos + S n) with (S pos + n) by lia.
Qed.

Lemma rep_lazy_inv p : forall s hi pos k x,
  rep_lazy p s hi pos k = Some x ->
  exists n, n <= length s /\ k (drop n s) (pos + n) = Some x.
Proof.
  induction s as [|c s IH]; intros hi pos k x H; simpl in H.
  - destruct (k [] pos) eqn:E; [|done]. exists 0. rewrite Nat.add_0_r. by simplify_eq.
  - destruct (k (c :: s) pos) eqn:E.
    + exists 0. rewrite Nat.add_0_r. simplify_eq. split; [lia | done].
    + destruct (budget_left hi && p c); [|done].
      apply IH in H as (n & Hn & Hk). exists (S n). simpl. split; [lia|].
      by replace (pos + S n) with (S pos + n) by lia.
Qed.

Lemma rep_greedy_inv p : forall s hi pos k x,
  rep_greedy p s hi pos k = Some x ->
  exists n, n <= length s /\ k (drop n s) (pos + n) = Some x.
Proof.
  induction s as [|c s IH]; intros hi pos k x H; simpl in H.
  - exists 0. rewrite Nat.add_0_r. done.
  - assert (Hz : k (c :: s) pos = Some x ->
      exists n, n <= length (c :: s) /\ k (drop n (c :: s)) (pos + n) = Some x).
    { intros Hk. exists 0. rewrite Nat.add_0_r. split; [simpl; lia | done]. }
    destruct (budget_left hi && p c); [|by apply Hz].
    destruct (rep_greedy p s (budget_pred hi) (S pos) k) eqn:E; [|by apply Hz].
    simplify_eq. apply IH in E as (n & Hn & Hk). exists (S n). simpl. split; [lia|].
    by replace (pos + S n) with (S pos + n) by lia.
Qed.

(** A lazy repetition passes over a prefix at which the continuation
    fails everywhere. *)
Lemma rep_lazy_skip p a : forall s pos k,
  Forall (fun c => p c = true) a ->
  (forall i, i < length a -> k (drop i (a ++ s)) (pos + i) = None) ->
  rep_lazy p (a ++ s) None pos k = rep_lazy p s None (pos + length a) k.
Proof.
  induction a as [|c a IH]; intros s pos k Hp Hk; simpl.
  - by rewrite Nat.add_0_r.
  - specialize (Hk 0 ltac:(simpl; lia)) as Hk0. simpl in Hk0.
    rewrite Nat.add_0_r in Hk0. rewrite Hk0.
    inversion Hp as [|? ? Hc Hp']; subst. rewrite Hc. simpl.
    rewrite IH; [f_equal; lia | done |].
    intros i Hi. specialize (Hk (S i) ltac:(simpl; lia)). simpl in Hk.
    by replace (S pos + i) with (pos + S i) by lia.
Qed.

Lemma rep_lazy_hit p s hi pos k x :
  k s pos = Some x -> rep_lazy p s hi pos k = Some x.
Proof. intros H. destruct s; simpl; by rewrite H. Qed.

(** The continuation fails at every split: so does the repetition. *)
Lemma rep_lazy_none p : forall s hi pos k,
  (forall i, i <= length s -> k (drop i s) (pos + i) = None) ->
  rep_lazy p s hi pos k = None.
Proof.
  induction s as [|c s IH]; intros hi pos k Hk; simpl.
  - specialize (Hk 0 ltac:(simpl; lia)). simpl in Hk. rewrite Nat.add_0_r in Hk.
    by rewrite Hk.
  - specialize (Hk 0 ltac:(simpl; lia)) as Hk0. simpl in Hk0.
    rewrite Nat.add_0_r in Hk0. rewrite Hk0.
    destruct (budget_left hi && p c); [|done]. apply IH.
    intros i Hi. specialize (Hk (S i) ltac:(simpl; lia)). simpl in Hk.
    by replace (S pos + i) with (pos + S i) by lia.
Qed.
End QuantifierFacts.

Lemma strip_prefix_Some t : forall s s', strip_prefix t s = Some s' -> s = t ++ s'.
Proof.
  induction t as [|a t IH]; intros s s' H; simpl in H.
  - by simplify_eq.
  - destruct s as [|b s]; [done|]. unfold chr_eqb in H.
    destruct (Ascii.eqb a b) eqn:E; [|done].
    apply Ascii.eqb_eq in E as ->. simpl. f_equal. by apply IH.
Qed.

Lemma strip_prefix_app t s : strip_prefix t (t ++ s) = Some s.
Proof.
  induction t as [|a t IH]; simpl; [done|].
  unfold chr_eqb. by rewrite Ascii.eqb_refl.
Qed.


(** Whatever the matcher answers was answered by its continuation, on a
    suffix of the text and at the matching offset. *)
Lemma rmatch_inv r : forall R s pos g (k : pystr -> nat -> groups -> option R) x,
  rmatch r s pos g k = Some x ->
  exists n g', min_len r <= n /\ n <= length s /\ k (drop n s) (pos + n) g' = Some x.
Proof.
  induction r as [c|p|r1 IH1 r2 IH2|r1 IH1 r2 IH2|greedy lo hi p|n r1 IH1|n|r1 IH1| |];
    intros R s pos g k x H; simpl in H.
  - destruct s as [|c' s]; [done|]. destruct (chr_eqb c c'); [|done].
    exists 1, g. simpl. rewrite drop_0. replace (pos + 1) with (S pos) by lia.
    repeat split; [lia | lia | done].
  - destruct s as [|c' s]; [done|]. destruct (p c'); [|done].
    exists 1, g. simpl. rewrite drop_0. replace (pos + 1) with (S pos) by lia.
    repeat split; [lia | lia | done].
  - apply IH1 in H as (n1 & g1 & Hm1 & Hn1 & H).
    apply IH2 in H as (n2 & g2 & Hm2 & Hn2 & H).
    rewrite length_drop in Hn2. exists (n1 + n2), g2. simpl.
    rewrite drop_drop in H. replace (pos + (n1 + n2)) with (pos + n1 + n2) by lia.
    repeat split; [lia | lia | done].
  - destruct (rmatch r1 s pos g k) eqn:E.
    + simplify_eq. apply IH1 in E as (n & g' & ? & ? & ?). exists n, g'. simpl.
      repeat split; [lia | lia | done].
    + apply IH2 in H as (n & g' & ? & ? & ?). exists n, g'. simpl.
      repeat split; [lia | lia | done].
  - apply rep_exact_inv in H as [Hlo H].
    assert (exists n, n <= length (drop lo s) /\
              k (drop n (drop lo s)) (pos + lo + n) g = Some x) as (n & Hn & Hk).
    { destruct greedy; [by apply rep_greedy_inv in H | by apply rep_lazy_inv in H]. }
    rewrite length_drop in Hn. rewrite drop_drop in Hk.
    exists (lo + n), g. simpl. replace (pos + (lo + n)) with (pos + lo + n) by lia.
    repeat split; [lia | lia | done].
  - apply IH1 in H as (n' & g' & ? & ? & ?). eauto.
  - destruct (group_lookup n g) as [t|]; [|done].
    destruct (strip_prefix t s) as [s'|] eqn:E; [|done].
    apply strip_prefix_Some in E as ->.
    exists (length t), g. simpl. rewrite drop_app_length, length_app.
    repeat split; [lia | lia | done].
  - destruct (rmatch r1 s pos g _); [done|]. exists 0, g. simpl.
    rewrite Nat.add_0_r. repeat split; [lia | lia | done].
  - destruct (pos =? 0); [|done]. exists 0, g. simpl.
    rewrite Nat.add_0_r. repeat split; [lia | lia | done].
  - assert (k s pos g = Some x) as Hk.
    { destruct s as [|c [|c2 s]]; [done | | done]. by destruct (chr_eqb c newline). }
    exists 0, g. simpl. rewrite Nat.add_0_r. repeat split; [lia | lia | done].
Qed.

Lemma match_at_inv r s pos m :
  match_at r s pos = Some m ->
  m_start m = pos /\ pos + min_len r <= m_end m /\ m_end m <= pos + length s.
Proof.
  unfold match_at. intros H. apply rmatch_inv in H as (n & g' & ? & ? & H).
  simplify_eq. simpl. lia.
Qed.

Lemma search_from_inv r : forall s pos m,
  search_from r s pos = Some m ->
  exists i, i <= length s /\ m_start m = pos + i /\ match_at r (drop i s) (pos + i) = Some m.
Proof.
  induction s as [|c s IH]; intros pos m H; simpl in H.
  - destruct (match_at r [] pos) eqn:E; [|done]. simplify_eq.
    exists 0. rewrite Nat.add_0_r. simpl. apply match_at_inv in E as Hi. naive_solver lia.
  - destruct (match_at r (c :: s) pos) eqn:E.
    + simplify_eq. exists 0. rewrite Nat.add_0_r. simpl.
      apply match_at_inv in E as Hi. naive_solver lia.
    + apply IH in H as (i & Hi & Hs & Hm). exists (S i). simpl.
      replace (pos + S i) with (S pos + i) by lia. naive_solver lia.
Qed.

Lemma search_from_bounds r s pos m :
  search_from r s pos = Some m ->
  pos <= m_start m /\ m_start m + min_len r <= m_end m /\ m_end m <= pos + length s.
Proof.
  intros H. apply search_from_inv in H as (i & Hi & Hs & Hm).
  apply match_at_inv in Hm. rewrite length_drop in Hm. lia.
Qed.

(** The search passes over a prefix at which the pattern matches nowhere. *)
Lemma search_from_skip r a : forall s pos,
  (forall i, i < length a -> match_at r (drop i (a ++ s)) (pos + i) = None) ->
  search_from r (a ++ s) pos = search_from r s (pos + length a).
Proof.
  induction a as [|c a IH]; intros s pos H; simpl.
  - by rewrite Nat.add_0_r.
  - specialize (H 0 ltac:(simpl; lia)) as H0. simpl in H0.
    rewrite Nat.add_0_r in H0. rewrite H0.
    rewrite IH; [f_equal; lia|].
    intros i Hi. specialize (H (S i) ltac:(simpl; lia)). simpl in H.
    by replace (S pos + i) with (pos + S i) by lia.
Qed.

Lemma search_from_hit r s pos m :
  match_at r s pos = Some m -> search_from r s pos = Some m.
Proof. intros H. destruct s; simpl; by rewrite H. Qed.

(** * The inline patterns *)

Lemma chr_eqb_eq a b : chr_eqb a b = true <-> a = b.
Proof. apply Ascii.eqb_eq. Qed.

Lemma chr_eqb_refl a : chr_eqb a a = true.
Proof. apply Ascii.eqb_refl. Qed.

Lemma chr_eqb_sym a b : chr_eqb a b = chr_eqb b a.
Proof. apply Ascii.eqb_sym. Qed.

Lemma chr_eqb_neq a b : chr_eqb a b = false <-> a <> b.
Proof. apply Ascii.eqb_neq. Qed.

(** Comparisons of two given characters are computed. *)
Ltac chr_compute :=
  repeat match goal with
  | |- context [chr_eqb (Ascii ?a0 ?a1 ?a2 ?a3 ?a4 ?a5 ?a6 ?a7)
                        (Ascii ?b0 ?b1 ?b2 ?b3 ?b4 ?b5 ?b6 ?b7)] =>
      let x := constr:(chr_eqb (Ascii a0 a1 a2 a3 a4 a5 a6 a7)
                               (Ascii b0 b1 b2 b3 b4 b5 b6 b7)) in
      let v := eval vm_compute in x in
      change x with v
  end.

Lemma is_markup_false c : is_markup c = false -> plain_char c.
Proof.
  unfold is_markup, one_of. cbn [py list_ascii_of_string existsb].
  rewrite !orb_false_iff. intros [(H1 & H2 & H3 & H4 & H5 & H6 & H7 & _) H8].
  split; intros ->; by vm_compute in H1, H2, H3, H4, H5, H6, H7, H8.
Qed.

Lemma plain_text_lookup t i c : plain_text t -> t !! i = Some c -> plain_char c.
Proof.
  intros Ht Hi. apply is_markup_false.
  eapply (Forall_lookup_1 _ t i c) in Ht; done.
Qed.

Lemma plain_text_dot t : plain_text t -> Forall (fun c => dot c = true) t.
Proof.
  intros Ht. eapply Forall_impl; [exact Ht|]. intros c Hc. simpl in Hc.
  apply is_markup_false in Hc. unfold dot. apply negb_true_iff, chr_eqb_neq, Hc.
Qed.

Lemma plain_text_app a b : plain_text (a ++ b) <-> plain_text a /\ plain_text b.
Proof. apply Forall_app. Qed.

(** The text from offset [i] of plain text on starts with a plain character. *)
Lemma drop_plain t s i :
  plain_text t -> i < length t ->
  exists c tl, drop i (t ++ s) = c :: tl ++ s /\ plain_char c.
Proof.
  intros Ht Hi. destruct (lookup_lt_is_Some_2 t i Hi) as [c Hc].
  exists c, (drop (S i) t). split; [|by eapply plain_text_lookup].
  rewrite drop_app_le by lia. by rewrite (drop_S t c i Hc).
Qed.

Lemma match_at_nil t r pos : pattern t = Some r -> match_at r [] pos = None.
Proof. destruct t; intros H; cbn in H; simplify_eq; reflexivity. Qed.

Lemma match_at_first t r c s pos :
  pattern t = Some r -> one_of (first_chars t) c = false -> match_at r (c :: s) pos = None.
Proof.
  unfold one_of, match_at.
  destruct t; intros H Hc; cbn in H; simplify_eq; cbn in Hc; rewrite ?orb_false_iff in Hc.
  - destruct Hc as (H1 & H2 & _).
    rewrite chr_eqb_sym in H1. rewrite chr_eqb_sym in H2.
    cbn. by rewrite H1, H2.
  - cbn. unfold one_of. cbn. destruct Hc as (H1 & H2 & _). by rewrite H1, H2.
  - destruct Hc as (H1 & _). rewrite chr_eqb_sym in H1. cbn. by rewrite H1.
  - destruct Hc as (H1 & _). rewrite chr_eqb_sym in H1. cbn. by rewrite H1.
Qed.

Lemma opener_first t c : is_opener c = false -> one_of (first_chars t) c = false.
Proof.
  unfold is_opener, one_of. cbn [py list_ascii_of_string existsb].
  rewrite !orb_false_iff. intros (H1 & H2 & H3 & H4 & _).
  destruct t; cbn [first_chars py list_ascii_of_string existsb];
    rewrite ?orb_false_iff; auto.
Qed.

Lemma plain_text_no_opener t : plain_text t -> no_opener t.
Proof.
  intros Ht. eapply Forall_impl; [exact Ht|]. intros c Hc. simpl in Hc.
  apply is_markup_false in Hc as [H1 H2 H3 H4 _ _ _ _].
  unfold is_opener, one_of. cbn [py list_ascii_of_string existsb].
  rewrite !orb_false_iff. repeat split; try done; by apply chr_eqb_neq.
Qed.

(** The text from offset [i] of text without openers on starts with a
    character that opens nothing. *)
Lemma drop_no_opener t s i :
  no_opener t -> i < length t ->
  exists c tl, drop i (t ++ s) = c :: tl ++ s /\ is_opener c = false.
Proof.
  intros Ht Hi. destruct (lookup_lt_is_Some_2 t i Hi) as [c Hc].
  exists c, (drop (S i) t). split.
  - rewrite drop_app_le by lia. by rewrite (drop_S t c i Hc).
  - by eapply (Forall_lookup_1 _ t i c) in Ht.
Qed.

(** No pattern matches inside text without openers. *)
Lemma search_plain t r p s pos :
  pattern t = Some r -> no_opener p ->
  search_from r (p ++ s) pos = search_from r s (pos + length p).
Proof.
  intros Hr Hp. apply search_from_skip. intros i Hi.
  destruct (drop_no_opener p s i Hp Hi) as (c & tl & -> & Hc).
  eapply match_at_first; [done|]. by apply opener_first.
Qed.

Lemma search_plain_none t r p :
  pattern t = Some r -> no_opener p -> re_search r p = None.
Proof.
  intros Hr Hp. unfold re_search. rewrite <- (app_nil_r p).
  rewrite (search_plain t r p [] 0 Hr Hp). simpl.
  by rewrite (match_at_nil t r _ Hr).
Qed.

(** * Matching a well-formed span *)

Ltac arith_norm :=
  repeat match goal with
  | |- context [?a + ?b - ?a] => replace (a + b - a) with b by lia
  | |- context [S ?a - ?a] => replace (S a - a) with 1 by lia
  | |- context [S (S ?a) - ?a] => replace (S (S a) - a) with 2 by lia
  end.

(** A continuation that first looks for a given character fails on plain
    text. *)
Ltac fail_on_plain Ht :=
  let i := fresh "i" in let Hi := fresh "Hi" in
  let c := fresh "c" in let tl := fresh "tl" in let Hc := fresh "Hc" in
  let E := fresh "E" in
  intros i Hi;
  match goal with
  | |- context [drop i (?t ++ ?s)] =>
      destruct (drop_plain t s i Ht Hi) as (c & tl & E & Hc)
  end;
  rewrite E; clear E;
  destruct Hc as [? ? ? ? ? ? ? ?];
  cbn [strip_prefix];
  repeat match goal with
  | |- context [chr_eqb ?a c] =>
      let F := fresh in
      assert (chr_eqb a c = false) as F by (apply chr_eqb_neq; congruence);
      rewrite F; clear F
  end;
  reflexivity.

Lemma match_bold d t rest pos :
  is_delim d -> plain_text t ->
  match_at bold_re (source (IBold d t) ++ rest) pos =
    Some (MkMatch pos (pos + length (source (IBold d t))) [(3, [d; d]); (2, t); (1, [d; d])]).
Proof.
  intros Hd Ht. unfold match_at, bold_re, source.
  destruct Hd as [-> | ->];
    cbn [rseq rlit py list_ascii_of_string rmatch rep_exact lazy_dots app];
    chr_compute; cbn iota; arith_norm;
    cbn [group_lookup Nat.eqb take];
    rewrite <- app_assoc;
    (rewrite rep_lazy_skip; [| by apply plain_text_dot | fail_on_plain Ht]);
    (erewrite rep_lazy_hit;
     [| cbn [app strip_prefix]; chr_compute; cbn iota; reflexivity]);
    arith_norm; rewrite ?take_0; cbn [length firstn app];
    rewrite ?take_app_length; do 2 f_equal;
    rewrite ?length_app; simpl; lia.
Qed.

Lemma match_italic d t rest pos :
  is_delim d -> plain_text t -> t <> [] ->
  match_at italic_re (source (IItalic d t) ++ rest) pos =
    Some (MkMatch pos (pos + length (source (IItalic d t))) [(3, [d]); (2, t); (1, [d])]).
Proof.
  intros Hd Ht Hne. unfold match_at, italic_re, source.
  destruct t as [|c t']; [done|]. clear Hne.
  assert (plain_char c) as [Hc1 Hc2 _ _ _ _ _ _].
  { eapply (plain_text_lookup _ 0); [exact Ht | done]. }
  apply chr_eqb_neq in Hc1, Hc2.
  rewrite chr_eqb_sym in Hc1. rewrite chr_eqb_sym in Hc2.
  remember (c :: t') as t eqn:Et.
  destruct Hd as [-> | ->];
    cbn [rseq rlit py list_ascii_of_string rmatch rep_exact lazy_dots app one_of existsb];
    chr_compute; cbn [orb]; cbn iota; arith_norm;
    cbn [group_lookup Nat.eqb firstn]; rewrite ?take_0, <- ?app_assoc;
    (match goal with
     | |- context [strip_prefix ?p (t ++ ?X)] =>
         replace (strip_prefix p (t ++ X)) with (@None pystr)
           by (subst t; cbn; by rewrite ?Hc1, ?Hc2)
     end);
    (rewrite rep_lazy_skip; [| by apply plain_text_dot | fail_on_plain Ht]);
    (erewrite rep_lazy_hit;
     [| cbn [app strip_prefix]; chr_compute; cbn iota; reflexivity]);
    arith_norm; rewrite ?take_0; cbn [length firstn app];
    replace (S pos + length t - S pos) with (length t) by lia;
    rewrite ?take_app_length; do 2 f_equal;
    rewrite ?length_app; simpl; lia.
Qed.

Lemma match_code t rest pos :
  plain_text t ->
  match_at code_re (source (ICode t) ++ rest) pos =
    Some (MkMatch pos (pos + length (source (ICode t))) [(1, t)]).
Proof.
  intros Ht. unfold match_at, code_re, source.
  cbn [rseq rlit py list_ascii_of_string rmatch rep_exact lazy_dots app];
    chr_compute; cbn iota; rewrite <- ?app_assoc;
    (rewrite rep_lazy_skip; [| by apply plain_text_dot | fail_on_plain Ht]);
    (erewrite rep_lazy_hit;
     [| cbn [app strip_prefix]; chr_compute; cbn iota; reflexivity]);
    arith_norm; rewrite ?take_0; cbn [length firstn app];
    replace (S pos + length t - S pos) with (length t) by lia;
    rewrite ?take_app_length; do 2 f_equal;
    rewrite ?length_app; simpl; lia.
Qed.


Lemma match_link t url rest pos :
  plain_text t -> plain_text url ->
  match_at link_re (source (ILink t url) ++ rest) pos =
    Some (MkMatch pos (pos + length (source (ILink t url))) [(2, url); (1, t)]).
Proof.
  intros Ht Hu. unfold match_at, link_re, source.
  cbn [rseq rlit py list_ascii_of_string rmatch rep_exact lazy_dots app];
    chr_compute; cbn iota; rewrite <- ?app_assoc.
  rewrite rep_lazy_skip; [| by apply plain_text_dot | fail_on_plain Ht].
  erewrite rep_lazy_hit; cycle 1.
  { cbn [app strip_prefix]; chr_compute; cbn iota.
    rewrite <- ?app_assoc.
    rewrite rep_lazy_skip; [| by apply plain_text_dot | fail_on_plain Hu].
    erewrite rep_lazy_hit; [reflexivity|].
    cbn [app]; chr_compute; cbn iota; reflexivity. }
  arith_norm; rewrite ?take_0; cbn [length firstn app].
  replace (S pos + length t - S pos) with (length t) by lia.
  replace (S (S (S pos + length t)) + length url - S (S (S pos + length t)))
    with (length url) by lia.
  rewrite (take_app_length t), (take_app_length url). do 2 f_equal.
  rewrite ?length_app; simpl. rewrite ?length_app; simpl. lia.
Qed.

(** At the start of a span only the pattern of its kind matches. *)
Lemma match_other x t r rest pos :
  well_formed x -> pattern t = Some r -> t <> kind x ->
  match_at r (source x ++ rest) pos = None.
Proof.
  intros Hx Hr Ht.
  destruct x as [d b|d b|b|b u]; destruct t; cbn in Hr; simplify_eq; cbn [source app];
    try (eapply match_at_first; [done|]);
    try (destruct Hx as [[-> | ->] _]; reflexivity);
    try reflexivity.
  - destruct Hx as [[-> | ->] _]; unfold match_at;
      cbn [rmatch one_of existsb]; chr_compute; cbn [orb]; cbn iota; arith_norm;
      cbn [group_lookup Nat.eqb firstn strip_prefix]; chr_compute; reflexivity.
  - destruct Hx as (Hd & Hb & Hne). destruct b as [|c b']; [done|].
    assert (plain_char c) as [Hc1 Hc2 _ _ _ _ _ _].
    { eapply (plain_text_lookup _ 0); [exact Hb | done]. }
    apply chr_eqb_neq in Hc1, Hc2.
    rewrite chr_eqb_sym in Hc1. rewrite chr_eqb_sym in Hc2.
    destruct Hd as [-> | ->]; unfold match_at;
      cbn [rmatch app]; chr_compute; cbn iota; by rewrite ?Hc1, ?Hc2.
Qed.


(** * The choice of the first match *)

Lemma elem_of_valid_matches text m t :
  (m, t) ∈ valid_matches (candidates text) <->
  exists r, pattern t = Some r /\ re_search r text = Some m.
Proof.
  unfold valid_matches, candidates. rewrite list_elem_of_omap. split.
  - intros ([o t'] & Hin & Hf). destruct o as [m'|]; [|done]. simplify_eq.
    rewrite !elem_of_cons, elem_of_nil in Hin.
    destruct Hin as [H|[H|[H|[H|[]]]]]; simplify_eq; eauto.
  - intros (r & Hr & Hs). exists (Some m, t). split; [|done].
    rewrite !elem_of_cons. destruct t; cbn in Hr; simplify_eq; rewrite <- Hs; auto.
Qed.

(** The valid matches stand in the order of their rank. *)
Lemma valid_matches_ranked text :
  StronglySorted (fun x y => priority (snd x) < priority (snd y))
    (valid_matches (candidates text)).
Proof.
  unfold valid_matches, candidates. simpl.
  destruct (re_search bold_re text), (re_search italic_re text),
    (re_search code_re text), (re_search link_re text); simpl;
    repeat (constructor; simpl; try lia).
Qed.

Lemma head_insert_by_start x l :
  head (insert_by_start x l) =
    Some match l with
         | [] => x
         | y :: _ => if m_start (fst y) <? m_start (fst x) then y else x
         end.
Proof. destruct l as [|y l]; simpl; [done|]. by destruct (_ <? _). Qed.

Lemma sort_by_start_nil l : sort_by_start l = [] -> l = [].
Proof.
  destruct l as [|x l]; [done|]. simpl. intros H.
  pose proof (head_insert_by_start x (sort_by_start l)) as Hh.
  by rewrite H in Hh.
Qed.

(** The head of the sorted list: a leftmost match and, among the leftmost
    ones, the one of the least rank. *)
Lemma head_sort_by_start (rank : rematch * fmt -> nat) l x :
  StronglySorted (fun a b => rank a < rank b) l ->
  head (sort_by_start l) = Some x ->
  x ∈ l /\
  forall y, y ∈ l ->
    m_start (fst x) < m_start (fst y) \/
    (m_start (fst x) = m_start (fst y) /\ rank x <= rank y).
Proof.
  intros Hl. revert x. induction Hl as [|a l Hl IH Ha]; intros x Hx; [done|].
  simpl in Hx. rewrite head_insert_by_start in Hx.
  destruct (sort_by_start l) as [|h tl] eqn:Hs.
  - apply sort_by_start_nil in Hs as ->. simplify_eq. split; [by left|].
    intros y Hy. apply list_elem_of_singleton in Hy as ->. right. split; lia.
  - specialize (IH h eq_refl) as [Hh Hmin].
    destruct (m_start (fst h) <? m_start (fst a)) eqn:E; simplify_eq.
    + apply Nat.ltb_lt in E. split; [by right|].
      intros y Hy. apply elem_of_cons in Hy as [-> | Hy]; [left; lia | auto].
    + apply Nat.ltb_ge in E. split; [by left|].
      intros y Hy. apply elem_of_cons in Hy as [-> | Hy]; [right; split; lia|].
      rewrite Forall_forall in Ha. specialize (Ha y Hy).
      destruct (Hmin y Hy) as [? | [? ?]]; [left; lia|].
      destruct (decide (m_start (fst x) = m_start (fst y))); [right | left]; lia.
Qed.

Lemma first_match_spec text m t :
  first_match text = Some (m, t) ->
  (exists r, pattern t = Some r /\ re_search r text = Some m) /\
  forall t' r' m', pattern t' = Some r' -> re_search r' text = Some m' ->
    m_start m < m_start m' \/ (m_start m = m_start m' /\ priority t <= priority t').
Proof.
  unfold first_match. intros H.
  eapply (head_sort_by_start (fun x => priority (snd x))) in H as [Hin Hmin];
    [|apply valid_matches_ranked].
  split; [by apply elem_of_valid_matches|].
  intros t' r' m' Hr Hs.
  apply (Hmin (m', t')), elem_of_valid_matches. eauto.
Qed.

Lemma first_match_None text :
  first_match text = None <->
  forall t r, pattern t = Some r -> re_search r text = None.
Proof.
  unfold first_match. split.
  - intros H t r Hr. destruct (re_search r text) as [m|] eqn:Hs; [|done].
    assert ((m, t) ∈ valid_matches (candidates text)) as Hin
      by (apply elem_of_valid_matches; eauto).
    destruct (sort_by_start _) as [|h tl] eqn:E; [|done].
    apply sort_by_start_nil in E. rewrite E in Hin. by apply elem_of_nil in Hin.
  - intros H. destruct (head _) as [[m t]|] eqn:E; [|done].
    apply first_match_spec in E as [(r & Hr & Hs) _]. by rewrite (H t r Hr) in Hs.
Qed.

(** A match that starts before every match of another kind is the first. *)
Lemma first_match_unique text m t r :
  pattern t = Some r -> re_search r text = Some m ->
  (forall t' r' m', pattern t' = Some r' -> t' <> t ->
     re_search r' text = Some m' -> m_start m < m_start m') ->
  first_match text = Some (m, t).
Proof.
  intros Hr Hs Hlt. destruct (first_match text) as [[m0 t0]|] eqn:E.
  - apply first_match_spec in E as [(r0 & Hr0 & Hs0) Hmin].
    destruct (decide (priority t0 = priority t)) as [Ht|Ht].
    + assert (t0 = t) as -> by (destruct t0, t; simpl in *; congruence || lia).
      congruence.
    + assert (t0 <> t) as Hne by congruence.
      specialize (Hlt t0 r0 m0 Hr0 Hne Hs0).
      specialize (Hmin t r m Hr Hs). lia.
  - rewrite first_match_None in E. by rewrite (E t r Hr) in Hs.
Qed.

(** * The inline formatting loop *)

Lemma pattern_min_len t r : pattern t = Some r -> 1 <= min_len r.
Proof. destruct t; intros H; cbn in H; simplify_eq; simpl; lia. Qed.

Lemma first_match_bounds text m t :
  first_match text = Some (m, t) ->
  m_start m < m_end m /\ m_end m <= length text.
Proof.
  intros H. apply first_match_spec in H as [(r & Hr & Hs) _].
  apply search_from_bounds in Hs. apply pattern_min_len in Hr. lia.
Qed.

Lemma first_match_typed text m t : first_match text = Some (m, t) -> t <> normal.
Proof.
  intros H. apply first_match_spec in H as [(r & Hr & _) _]. by intros ->.
Qed.

(** The loop ends within as many iterations as the text has characters. *)
Lemma format_loop_total fuel : forall text acc,
  length text <= fuel -> exists runs, format_loop fuel text acc = Some runs.
Proof.
  induction fuel as [|fuel IH]; intros text acc Hlen.
  - destruct text; [by eexists | simpl in Hlen; lia].
  - destruct text as [|c text]; [by eexists|].
    cbn [format_loop]. destruct (first_match (c :: text)) as [[m t]|] eqn:E; [|by eexists].
    apply IH. apply first_match_bounds in E. rewrite length_drop. simpl in *. lia.
Qed.

Lemma format_loop_fuel fuel1 : forall fuel2 text acc,
  length text <= fuel1 -> length text <= fuel2 ->
  format_loop fuel1 text acc = format_loop fuel2 text acc.
Proof.
  induction fuel1 as [|fuel1 IH]; intros fuel2 text acc H1 H2.
  - destruct text; [by destruct fuel2 | simpl in H1; lia].
  - destruct text as [|c text]; [by destruct fuel2|].
    destruct fuel2 as [|fuel2]; [simpl in H2; lia|].
    cbn [format_loop]. destruct (first_match (c :: text)) as [[m t]|] eqn:E; [|done].
    apply first_match_bounds in E.
    apply IH; rewrite length_drop; simpl in *; lia.
Qed.

(** The match object of a well-formed span at its own start. *)
Lemma match_span x rest pos :
  well_formed x ->
  exists r, pattern (kind x) = Some r /\
    match_at r (source x ++ rest) pos = Some (span_match x pos).
Proof.
  intros Hx. destruct x as [d t|d t|t|t u]; simpl in Hx.
  - exists bold_re. split; [done|]. destruct Hx. by apply match_bold.
  - exists italic_re. split; [done|]. destruct Hx as (? & ? & ?). by apply match_italic.
  - exists code_re. split; [done|]. by apply match_code.
  - exists link_re. split; [done|]. destruct Hx. by apply match_link.
Qed.

Lemma run_of_span x pos :
  run_of_match (span_match x pos) (kind x) = [(kind x, visible x)].
Proof. by destruct x. Qed.

Lemma source_cons x : exists c s, source x = c :: s.
Proof. destruct x; simpl; eauto. Qed.

(** In text without openers followed by a well-formed span, the first match is that
    span. *)
Lemma first_match_span p x rest :
  no_opener p -> well_formed x ->
  first_match (p ++ source x ++ rest) = Some (span_match x (length p), kind x).
Proof.
  intros Hp Hx. destruct (match_span x rest (length p) Hx) as (r & Hr & Hm).
  apply (first_match_unique _ _ _ r); [done | |].
  - unfold re_search. rewrite (search_plain _ _ _ _ _ Hr Hp). simpl.
    by apply search_from_hit.
  - intros t' r' m' Hr' Hne Hs. unfold re_search in Hs.
    rewrite (search_plain _ _ _ _ _ Hr' Hp) in Hs. simpl in Hs.
    pose proof (match_other x t' r' rest (length p) Hx Hr' Hne) as Hnone.
    destruct (source_cons x) as (c & s & Hsrc). rewrite Hsrc in Hs, Hnone.
    simpl in Hs. simpl in Hnone. rewrite Hnone in Hs.
    apply search_from_bounds in Hs. simpl. lia.
Qed.

Lemma format_loop_span fuel p x rest acc :
  no_opener p -> well_formed x ->
  format_loop (S fuel) (p ++ source x ++ rest) acc =
    format_loop fuel rest (acc ++ plain_run p ++ [(kind x, visible x)]).
Proof.
  intros Hp Hx. pose proof (first_match_span p x rest Hp Hx) as Hf.
  destruct (p ++ source x ++ rest) as [|c text] eqn:Et.
  { destruct (source_cons x) as (c & s & Hs). rewrite Hs in Et. by destruct p. }
  cbn [format_loop]. rewrite Hf, <- Et. cbn [span_match m_start m_end].
  rewrite run_of_span. f_equal.
  - rewrite app_assoc, drop_app_length'; [done|]. by rewrite length_app.
  - f_equal. f_equal. destruct p as [|a p]; [done|]. cbn [plain_run].
    replace (0 <? length (a :: p)) with true by (symmetry; apply Nat.ltb_lt; simpl; lia).
    by rewrite take_app_length.
Qed.

Lemma format_loop_plain fuel p acc :
  no_opener p -> length p <= fuel ->
  format_loop fuel p acc = Some (acc ++ plain_run p).
Proof.
  intros Hp Hlen. destruct p as [|c p].
  - destruct fuel; simpl; by rewrite app_nil_r.
  - destruct fuel as [|fuel]; [simpl in Hlen; lia|]. cbn [format_loop plain_run].
    replace (first_match (c :: p)) with (@None (rematch * fmt)); [done|].
    symmetry. apply first_match_None. intros t r Hr. by eapply search_plain_none.
Qed.

Lemma line_source_cons p x chunks tail :
  line_source ((p, x) :: chunks) tail = p ++ source x ++ line_source chunks tail.
Proof. unfold line_source. simpl. by rewrite <- !app_assoc. Qed.

(** The runs of a line of well-formed spans and text without openers. *)
Lemma format_loop_chunks chunks tail : forall fuel acc,
  Forall well_formed_chunk chunks -> no_opener tail ->
  length (line_source chunks tail) <= fuel ->
  format_loop fuel (line_source chunks tail) acc = Some (acc ++ line_runs chunks tail).
Proof.
  induction chunks as [|[p x] chunks IH]; intros fuel acc Hc Ht Hlen.
  - unfold line_source, line_runs in *. simpl in *. by apply format_loop_plain.
  - apply Forall_cons in Hc as [[Hp Hx] Hc]. simpl in Hp, Hx.
    rewrite line_source_cons in *.
    destruct (source_cons x) as (c & s & Hs).
    destruct fuel as [|fuel].
    { rewrite !length_app, Hs in Hlen. simpl in Hlen. lia. }
    rewrite format_loop_span by done. rewrite IH; [|done|done|].
    + unfold line_runs. simpl. by rewrite <- !app_assoc.
    + rewrite !length_app, Hs in Hlen. simpl in Hlen. lia.
Qed.

Lemma format_runs_chunks chunks tail :
  Forall well_formed_chunk chunks -> no_opener tail ->
  format_runs (line_source chunks tail) = Some (line_runs chunks tail).
Proof.
  intros Hc Ht. unfold format_runs. by rewrite format_loop_chunks.
Qed.

Lemma runs_text_app a b : runs_text (a ++ b) = runs_text a ++ runs_text b.
Proof. unfold runs_text. by rewrite map_app, concat_app. Qed.

Lemma runs_text_plain_run p : runs_text (plain_run p) = p.
Proof. destruct p; [done|]. unfold runs_text. simpl. by rewrite app_nil_r. Qed.

Lemma line_runs_text chunks tail :
  runs_text (line_runs chunks tail) = line_visible chunks tail.
Proof.
  unfold line_runs, line_visible. rewrite runs_text_app, runs_text_plain_run. f_equal.
  induction chunks as [|[p x] chunks IH]; [done|]. simpl.
  rewrite !runs_text_app, runs_text_plain_run, IH.
  unfold runs_text at 1. simpl. by rewrite app_nil_r, <- app_assoc.
Qed.

Lemma typed_runs_app a b : typed_runs (a ++ b) = typed_runs a ++ typed_runs b.
Proof. apply List.filter_app. Qed.

Lemma typed_runs_plain_run p : typed_runs (plain_run p) = [].
Proof. by destruct p. Qed.

Lemma line_runs_typed chunks tail :
  typed_runs (line_runs chunks tail) = map (fun c => (kind (snd c), visible (snd c))) chunks.
Proof.
  unfold line_runs. rewrite typed_runs_app, typed_runs_plain_run, app_nil_r.
  induction chunks as [|[p x] chunks IH]; [done|]. simpl.
  rewrite !typed_runs_app, typed_runs_plain_run, IH. by destruct x.
Qed.

(** * Runs that are never empty *)

(** The inner text of an italic match is not empty: the look-ahead rules
    out a closing delimiter right after the opening one. *)
Lemma italic_group_nonempty text m :
  re_search italic_re text = Some m -> m_group m 2 <> [].
Proof.
  unfold re_search. intros H.
  apply search_from_inv in H as (i & _ & _ & H).
  revert H. generalize (drop i text) (0 + i). clear. intros s pos H.
  unfold match_at, italic_re in H.
  cbn [rseq rmatch rep_exact lazy_dots] in H.
  destruct s as [|c s]; [done|]. destruct (one_of _ c); [|done].
  replace (S pos - pos) with 1 in H by lia.
  cbn [group_lookup Nat.eqb firstn] in H. rewrite take_0 in H.
  destruct (strip_prefix [c] s) as [s0|] eqn:Ela; [done|].
  apply rep_lazy_inv in H as (n & Hn & H).
  destruct (strip_prefix [c] (drop n s)) eqn:Ecl; [|done].
  simplify_eq. unfold m_group. cbn.
  destruct n as [|n]; [rewrite drop_0 in Ecl; congruence|].
  arith_norm. destruct s; [simpl in Hn; lia | done].
Qed.

Lemma format_loop_never_empty fuel : forall text acc runs,
  Forall never_empty acc ->
  format_loop fuel text acc = Some runs -> Forall never_empty runs.
Proof.
  induction fuel as [|fuel IH]; intros text acc runs Hacc H.
  - destruct text; simpl in H; by simplify_eq.
  - destruct text as [|c text]; [simpl in H; by simplify_eq|].
    cbn [format_loop] in H.
    destruct (first_match (c :: text)) as [[m t]|] eqn:E.
    + eapply IH; [|exact H]. pose proof (first_match_bounds _ _ _ E) as Hb.
      apply first_match_spec in E as [(r & Hr & Hs) _].
      rewrite !Forall_app. split; [done|]. split.
      * destruct (0 <? m_start m) eqn:E0; [|done].
        apply Nat.ltb_lt in E0. repeat constructor. intros _. simpl.
        destruct (m_start m); [lia | done].
      * destruct t; cbn in Hr; simplify_eq; repeat constructor;
          intros [? | ?]; try done.
        simpl. by eapply italic_group_nonempty.
    + simplify_eq. rewrite Forall_app. split; [done|].
      repeat constructor. by intros _.
Qed.

(** * The inline formatting claims *)

(** C4.  Whenever one of the four patterns matches the remaining text, the
    loop takes a match of one of them that no other match precedes: it
    starts at the earliest offset, and among the matches that start there it
    is the one of the first kind in the order bold, italic, code, link. *)
Theorem first_match_leftmost text t' r' m' :
  pattern t' = Some r' -> re_search r' text = Some m' ->
  exists m t r,
    first_match text = Some (m, t) /\
    pattern t = Some r /\ re_search r text = Some m /\
    (m_start m < m_start m' \/
     (m_start m = m_start m' /\ priority t <= priority t')).
Proof.
  intros Hr Hs. destruct (first_match text) as [[m t]|] eqn:E.
  - apply first_match_spec in E as [(r & Hr0 & Hs0) Hmin].
    exists m, t, r. repeat split; try done. by eapply Hmin.
  - rewrite first_match_None in E. by rewrite (E t' r' Hr) in Hs.
Qed.

Lemma first_match_leftmost_witness :
  exists m t r,
    first_match (py "a `b` *c*") = Some (m, t) /\
    pattern t = Some r /\ re_search r (py "a `b` *c*") = Some m /\
    (m_start m < 6 \/ (m_start m = 6 /\ priority t <= priority italic)).
Proof.
  apply (first_match_leftmost (py "a `b` *c*") italic italic_re
           (MkMatch 6 9 [(3, py "*"); (2, py "c"); (1, py "*")])).
  - reflexivity.
  - vm_compute. reflexivity.
Defined.

(** C5, as the code has it.  The loop ends for every text, and no run of
    plain text and no italic run is empty. *)
Theorem format_runs_never_empty text :
  exists runs, format_runs text = Some runs /\ Forall never_empty runs.
Proof.
  destruct (format_loop_total (length text) text [] (le_n _)) as [runs H].
  exists runs. split; [done|]. by eapply format_loop_never_empty.
Qed.

(** C5 as stated fails: the line [****] is one bold run with no text. *)
Lemma format_runs_empty_bold :
  ~ (forall text runs, format_runs text = Some runs ->
       Forall (fun r : run => snd r <> []) runs).
Proof.
  intros H. specialize (H (py "****") [(bold, [])] eq_refl).
  by inversion H.
Qed.

(** C3, as the code has it.  A line made of one well-formed span of each
    kind, in any order, and of text around them that holds none of the four
    characters at which a span can start: the loop ends, the texts of its
    runs put together are the line without the markup, and its typed runs
    are the spans in the order of the line.  A span is well formed when its
    texts hold no markup character and no line feed, and italic text is not
    empty. *)
Theorem inline_round_trip chunks tail :
  Forall well_formed_chunk chunks -> no_opener tail ->
  map (fun c => kind (snd c)) chunks ≡ₚ [bold; italic; code; link] ->
  exists runs,
    format_runs (line_source chunks tail) = Some runs /\
    runs_text runs = line_visible chunks tail /\
    typed_runs runs = map (fun c => (kind (snd c), visible (snd c))) chunks.
Proof.
  intros Hc Ht _. exists (line_runs chunks tail).
  split; [by apply format_runs_chunks|].
  split; [apply line_runs_text | apply line_runs_typed].
Qed.

Lemma inline_round_trip_witness :
  exists runs,
    format_runs (py "See (here) [the docs](http://x.org/a): _very_ **bold** and `x = 1`.")
      = Some runs /\
    runs_text runs = py "See (here) the docs: very bold and x = 1." /\
    typed_runs runs =
      [(link, py "the docs"); (italic, py "very"); (bold, py "bold"); (code, py "x = 1")].
Proof.
  apply (inline_round_trip sample_chunks (py ".")).
  - unfold sample_chunks.
    repeat first [apply Forall_nil_2 | apply Forall_cons_2];
      unfold well_formed_chunk, is_delim, plain_text, no_opener; simpl;
      repeat split; try done;
      try (left; reflexivity); try (right; reflexivity);
      by repeat apply Forall_cons_2.
  - unfold no_opener. repeat constructor.
  - simpl. unfold sample_chunks; simpl.
    change [bold; italic; code; link] with ([bold; italic; code] ++ [link]).
    apply Permutation_cons_app. rewrite app_nil_r. apply perm_swap.
Defined.

(** C3 as stated fails: with an asterisk of its own in the text before the
    spans, the runs put together are not the line without the markup of the
    spans. *)
Lemma inline_round_trip_stray_asterisk :
  ~ (forall chunks tail runs,
       Forall (fun c => well_formed (snd c)) chunks ->
       map (fun c => kind (snd c)) chunks ≡ₚ [bold; italic; code; link] ->
       format_runs (line_source chunks tail) = Some runs ->
       runs_text runs = line_visible chunks tail).
Proof.
  intros H.
  specialize (H stray_chunks [] _ ltac:(
    unfold stray_chunks;
    repeat first [apply Forall_nil_2 | apply Forall_cons_2];
      unfold is_delim, plain_text; simpl; repeat split; try done;
      try (left; reflexivity); by repeat apply Forall_cons_2)
    ltac:(reflexivity) eq_refl).
  vm_compute in H. discriminate H.
Qed.

(** The runs of that line. *)
Example stray_asterisk_runs :
  format_runs (py "2 * 3 = **six** or *so*, see `x` [l](u)") =
    Some [(normal, py "2 "); (italic, py " 3 = "); (italic, py "six");
          (italic, py " or "); (normal, py "so*, see "); (code, py "x");
          (normal, py " "); (link, py "l")].
Proof. vm_compute. reflexivity. Qed.

(** * Tables *)

Lemma update_cell_Some r c f (t : grid) row x :
  t !! r = Some row -> row !! c = Some x ->
  update_cell r c f t = Some (<[r := <[c := f x]> row]> t).
Proof. intros Hr Hc. unfold update_cell. by rewrite Hr, Hc. Qed.

Lemma insert_middle {A} (pre : list A) x y post :
  <[length pre := y]> (pre ++ x :: post) = pre ++ y :: post.
Proof.
  rewrite insert_app_r_alt by lia. by rewrite Nat.sub_diag.
Qed.

(** Filling the header row: the cells from column [j] on, all of them
    inside the row. *)
Lemma fill_header_spec cfg header_row : forall j pre (rest : grid),
  length pre = j ->
  fill_header cfg j header_row
      ((pre ++ replicate (length header_row) empty_cell) :: rest) =
    Some ((pre ++ header_row_cells cfg header_row) :: rest).
Proof.
  induction header_row as [|cell_text more IH]; intros j pre rest Hj.
  - done.
  - cbn [fill_header length replicate].
    erewrite update_cell_Some; [|done|]; cycle 1.
    { rewrite <- Hj. by rewrite list_lookup_middle. }
    cbn [list_insert insert]. subst j. rewrite insert_middle.
    specialize (IH (S (length pre)) (pre ++ [header_cell cfg cell_text empty_cell]) rest).
    rewrite <- !app_assoc in IH. cbn [app] in IH. rewrite IH; [done|].
    rewrite length_app. simpl. lia.
Qed.

(** Filling one data row: the cells from column [col_idx] on; those at or
    after [num_cols] are left out. *)
Lemma fill_row_spec cfg num_cols row_idx row_data : forall col_idx pre k (t : grid),
  t !! (row_idx + 1) = Some (pre ++ replicate k empty_cell) ->
  length pre <= col_idx -> (0 < k -> length pre = col_idx) ->
  num_cols = length pre + k ->
  fill_row cfg num_cols row_idx col_idx row_data t =
    Some (<[row_idx + 1 :=
             pre ++ map (fun x => data_cell cfg x empty_cell) (take k row_data)
                 ++ replicate (k - length row_data) empty_cell]> t).
Proof.
  induction row_data as [|cell_text more IH]; intros col_idx pre k t Ht Hle Hpre Hn.
  - cbn [fill_row]. rewrite take_nil. cbn [map app length].
    rewrite Nat.sub_0_r. by rewrite list_insert_id.
  - cbn [fill_row]. destruct (col_idx <? num_cols) eqn:E.
    + apply Nat.ltb_lt in E. destruct k as [|k]; [lia|].
      specialize (Hpre ltac:(lia)). cbn [replicate] in Ht.
      erewrite update_cell_Some; [|exact Ht|]; cycle 1.
      { rewrite <- Hpre. by rewrite list_lookup_middle. }
      subst col_idx. rewrite insert_middle.
      rewrite (IH (S (length pre)) (pre ++ [data_cell cfg cell_text empty_cell]) k);
        [| |rewrite length_app; simpl; lia |rewrite length_app; simpl; lia
         |rewrite length_app; simpl; lia].
      * rewrite list_insert_insert_eq. cbn [take map length]. f_equal. f_equal.
        by rewrite <- !app_assoc.
      * rewrite list_lookup_insert_eq; [by rewrite <- app_assoc|].
        by eapply lookup_lt_Some.
    + apply Nat.ltb_ge in E. assert (k = 0) as -> by lia.
      rewrite (IH (S col_idx) pre 0); [done | done | lia | lia | lia].
Qed.

(** Filling the data rows below the rows [top]. *)
Lemma fill_rows_spec cfg num_cols rows_data : forall row_idx (top : grid),
  length top = row_idx + 1 ->
  fill_rows cfg num_cols row_idx rows_data
      (top ++ replicate (length rows_data) (replicate num_cols empty_cell)) =
    Some (top ++ map (data_row_cells cfg num_cols) rows_data).
Proof.
  induction rows_data as [|row_data more IH]; intros row_idx top Htop.
  - done.
  - cbn [fill_rows length replicate].
    rewrite (fill_row_spec cfg num_cols row_idx row_data 0 [] num_cols);
      [| |simpl; lia|simpl; lia|simpl; lia]; cycle 1.
    { rewrite <- Htop. by rewrite list_lookup_middle. }
    rewrite <- Htop, insert_middle. cbn [app].
    fold (data_row_cells cfg num_cols row_data).
    specialize (IH (S row_idx) (top ++ [data_row_cells cfg num_cols row_data])).
    rewrite <- !app_assoc in IH. cbn [app] in IH.
    rewrite IH; [done|]. rewrite length_app. simpl. lia.
Qed.

(** The table is always built, and it is [table_of]. *)
Lemma build_table_spec cfg table_lines :
  build_table cfg table_lines = Some (table_of cfg table_lines).
Proof.
  unfold build_table, table_of, add_table.
  set (header_row := row_cells (nth 0 table_lines [])).
  set (rows_data := map row_cells (drop 2 table_lines)).
  rewrite Nat.add_1_r. cbn [replicate].
  pose proof (fill_header_spec cfg header_row 0 []
    (replicate (length rows_data) (replicate (length header_row) empty_cell)) eq_refl) as Hh.
  cbn [app] in Hh. rewrite Hh.
  pose proof (fill_rows_spec cfg (length header_row) rows_data 0
    [header_row_cells cfg header_row] eq_refl) as Hr.
  cbn [app] in Hr. rewrite Hr. subst rows_data. by rewrite map_map.
Qed.

(** * Lines that look like table rows *)

Lemma lstrip_by_split p s :
  exists ws, s = ws ++ lstrip_by p s /\ Forall (fun c => p c = true) ws.
Proof.
  induction s as [|c s (ws & Hs & Hws)]; simpl.
  - by exists [].
  - destruct (p c) eqn:E.
    + exists (c :: ws). split; [simpl; congruence | by constructor].
    + by exists [].
Qed.

Lemma rstrip_by_prefix p s : exists ws, s = rstrip_by p s ++ ws.
Proof.
  unfold rstrip_by. destruct (lstrip_by_split p (rev s)) as (ws & Hs & _).
  exists (rev ws). apply (f_equal (@rev ascii)) in Hs.
  by rewrite rev_involutive, rev_app_distr in Hs.
Qed.

Lemma strip_by_cons p s x y :
  strip_by p s = x :: y ->
  exists ws tl, s = ws ++ x :: tl /\ Forall (fun c => p c = true) ws.
Proof.
  unfold strip_by. intros H.
  destruct (lstrip_by_split p s) as (ws & Hs & Hws).
  destruct (rstrip_by_prefix p (lstrip_by p s)) as (ws' & Hs').
  rewrite H in Hs'. exists ws, (y ++ ws'). split; [|done].
  rewrite Hs at 1. by rewrite Hs'.
Qed.

Lemma startswith_cons s c : startswith s [c] = true -> exists tl, s = c :: tl.
Proof.
  destruct s as [|b s]; [done|]. simpl.
  intros H. apply andb_true_iff in H as [H _]. apply chr_eqb_eq in H as ->. eauto.
Qed.

(** A table line is white space followed by a vertical bar. *)
Lemma table_line_shape line :
  is_table_line line = true ->
  exists ws tl, line = ws ++ "|"%char :: tl /\ Forall (fun c => is_space c = true) ws.
Proof.
  unfold is_table_line. intros H. apply andb_true_iff in H as [H _].
  apply startswith_cons in H as [tl H]. by apply strip_by_cons in H.
Qed.

Lemma space_row_start c : is_space c = true -> row_start c.
Proof.
  destruct c as [[] [] [] [] [] [] [] []]; intros H; vm_compute in H;
    try discriminate H; by vm_compute.
Qed.

Lemma bar_row_start : row_start "|".
Proof. by vm_compute. Qed.

Lemma table_line_start line :
  is_table_line line = true ->
  exists c tl, line = c :: tl /\ row_start c.
Proof.
  intros H. apply table_line_shape in H as (ws & tl & -> & Hws).
  destruct ws as [|c ws]; simpl.
  - eexists _, _. split; [done | apply bar_row_start].
  - eexists _, _. split; [done|]. apply space_row_start. by inversion Hws.
Qed.

Lemma table_line_not_fence line :
  is_table_line line = true -> startswith (strip line) fence = false.
Proof.
  unfold is_table_line. intros H. apply andb_true_iff in H as [H _].
  apply startswith_cons in H as [tl ->]. done.
Qed.

Lemma table_line_not_header line :
  is_table_line line = true -> re_match header_re line = None.
Proof.
  intros H. apply table_line_start in H as (c & tl & -> & Hc & _).
  unfold re_match, match_at, header_re. cbn [rseq rmatch rep_exact Nat.eqb].
  by rewrite Hc.
Qed.

Section GreedyFacts.
Context {R : Type}.

(** A greedy repetition fails when its continuation fails at every point
    it can give back to. *)
Lemma rep_greedy_none p a s : forall pos (k : pystr -> nat -> option R),
  Forall (fun c => p c = true) a ->
  match s with [] => True | c :: _ => p c = false end ->
  (forall i, i <= length a -> k (drop i (a ++ s)) (pos + i) = None) ->
  rep_greedy p (a ++ s) None pos k = None.
Proof.
  induction a as [|c a IH]; intros pos k Ha Hs Hk.
  - specialize (Hk 0 ltac:(simpl; lia)). simpl in Hk. rewrite Nat.add_0_r in Hk.
    simpl. destruct s as [|c s]; [done|]. simpl. by rewrite Hs.
  - inversion Ha as [|? ? Hc Ha']; subst. cbn [app rep_greedy budget_left andb].
    rewrite Hc. rewrite IH; [| done | done |].
    + specialize (Hk 0 ltac:(simpl; lia)). simpl in Hk. by rewrite Nat.add_0_r in Hk.
    + intros i Hi. specialize (Hk (S i) ltac:(simpl; lia)). simpl in Hk.
      by replace (S pos + i) with (pos + S i) by lia.
Qed.
End GreedyFacts.

Lemma table_line_not_list line :
  is_table_line line = true -> re_match list_re line = None.
Proof.
  intros H. apply table_line_shape in H as (ws & tl & -> & Hws).
  unfold re_match, match_at, list_re. cbn [rseq rmatch rep_exact Nat.eqb].
  apply rep_greedy_none; [done | by vm_compute |].
  intros i Hi.
  assert (exists c tl', drop i (ws ++ "|"%char :: tl) = c :: tl' /\ row_start c)
    as (c & tl' & -> & _ & _ & Hm & Hd).
  { destruct (decide (i = length ws)) as [-> | Hne].
    - rewrite drop_app_length. eexists _, _. split; [done | apply bar_row_start].
    - destruct (lookup_lt_is_Some_2 ws i ltac:(lia)) as [c Hc].
      rewrite drop_app_le by lia. rewrite (drop_S ws c i Hc).
      eexists _, _. split; [done|]. apply space_row_start.
      by eapply (Forall_lookup_1 _ ws i c) in Hws. }
  cbn [rmatch rep_exact]. by rewrite Hm, Hd.
Qed.

(** The inner loop collects a run of table lines that ends before [rest]. *)
Lemma collect_table_lines_run run rest :
  Forall (fun l => is_table_line l = true) run -> ends_run rest ->
  collect_table_lines (run ++ rest) = (run, rest).
Proof.
  intros Hrun Hrest. induction Hrun as [|l run Hl _ IH]; simpl.
  - destruct rest as [|l rest]; [done|]. simpl in *. by rewrite Hrest.
  - by rewrite Hl, IH.
Qed.

Lemma collect_table_lines_length lines :
  length (fst (collect_table_lines lines)) + length (snd (collect_table_lines lines))
    = length lines.
Proof.
  induction lines as [|l lines IH]; [done|]. simpl.
  destruct (is_table_line l); [|simpl; lia].
  destruct (collect_table_lines lines). simpl in *. lia.
Qed.

(** * The block loop *)

Lemma loop_body_shrinks cfg line rest st doc lines' st' doc' :
  loop_body cfg line rest st doc = Ok (lines', st', doc') ->
  length lines' <= length rest.
Proof.
  unfold loop_body. intros H.
  repeat match type of H with
  | (if ?b then _ else _) = _ => destruct b eqn:?
  | match ?o with Some _ => _ | None => _ end = _ => destruct o eqn:?
  | (let '(_, _) := ?p in _) = _ => destruct p eqn:?
  | match ?l with [] => _ | _ :: _ => _ end = _ => destruct l eqn:?
  | obind ?x _ = _ => destruct x eqn:?; simpl in H
  end; simplify_eq; try lia.
  all: match goal with
       | E : collect_table_lines (?l :: ?r) = (?a, ?b) |- _ =>
           pose proof (collect_table_lines_length (l :: r)) as Hlen;
           rewrite E in Hlen; simpl in Hlen, E
       end.
  all: match goal with
       | E : is_table_line ?l = true, E' : context [is_table_line ?l] |- _ =>
           rewrite E in E'
       end.
  all: destruct (collect_table_lines rest); simplify_eq; simpl in *; lia.
Qed.

Lemma convert_loop_fuel cfg fuel1 : forall fuel2 lines st doc,
  length lines <= fuel1 -> length lines <= fuel2 ->
  convert_loop cfg fuel1 lines st doc = convert_loop cfg fuel2 lines st doc.
Proof.
  induction fuel1 as [|fuel1 IH]; intros fuel2 lines st doc H1 H2.
  - destruct lines; [by destruct fuel2 | simpl in H1; lia].
  - destruct lines as [|line rest]; [by destruct fuel2|].
    destruct fuel2 as [|fuel2]; [simpl in H2; lia|].
    cbn [convert_loop].
    destruct (loop_body cfg line rest st doc) as [[[lines' st'] doc']| | |] eqn:E; try done.
    apply loop_body_shrinks in E. simpl in *. apply IH; lia.
Qed.

Lemma convert_from_nil cfg st doc : convert_from cfg [] st doc = Ok (doc, st).
Proof. done. Qed.

(** One iteration, then the loop from the new [i] on. *)
Lemma convert_from_cons cfg line rest st doc :
  convert_from cfg (line :: rest) st doc =
    obind (loop_body cfg line rest st doc)
      (fun '(lines', st', doc') => convert_from cfg lines' st' doc').
Proof.
  unfold convert_from. cbn [length convert_loop].
  destruct (loop_body cfg line rest st doc) as [[[lines' st'] doc']| | |] eqn:E; try done.
  apply loop_body_shrinks in E. simpl. apply convert_loop_fuel; lia.
Qed.

(** * The cells of a table line *)

Lemma split_on_cons sep s : exists f fs, split_on sep s = f :: fs.
Proof.
  destruct s as [|c s]; simpl; [eauto|].
  destruct (chr_eqb sep c); [eauto|]. destruct (split_on sep s); eauto.
Qed.






Lemma lstrip_by_head p s c tl : lstrip_by p s = c :: tl -> p c = false.
Proof.
  induction s as [|a s IH]; simpl; [done|].
  destruct (p a) eqn:E; [done|]. intros H. by simplify_eq.
Qed.




(** * Texts that the document library refuses *)

Lemma forallb_map_snd (runs : list run) :
  forallb xml_text (map snd runs) = xml_runs runs.
Proof. unfold xml_runs. induction runs as [|r runs IH]; simpl; [done | by rewrite IH]. Qed.

Lemma xml_unit_table table : xml_unit (Table table) = xml_grid table.
Proof.
  unfold xml_unit, xml_grid, unit_texts.
  induction table as [|row table IH]; [done|].
  cbn [concat forallb]. rewrite map_app, forallb_app, IH. f_equal.
  induction row as [|c row IHrow]; simpl; [done | by rewrite IHrow].
Qed.

Lemma xml_text_app s t : xml_text (s ++ t) = xml_text s && xml_text t.
Proof. apply forallb_app. Qed.

Lemma add_units_heading doc level title_text styled :
  add_units doc [Heading level title_text styled] =
    if xml_text title_text then Ok (doc ++ [Heading level title_text styled])
    else ValueError.
Proof.
  unfold add_units, xml_unit. simpl. rewrite !andb_true_r. done.
Qed.

Lemma add_units_paragraph doc runs :
  add_units doc [Paragraph runs] =
    if xml_runs runs then Ok (doc ++ [Paragraph runs]) else ValueError.
Proof.
  unfold add_units, xml_unit. cbn [forallb unit_texts].
  by rewrite forallb_map_snd, andb_true_r.
Qed.

Lemma add_units_list doc kind indent_level runs :
  add_units doc [ListParagraph kind indent_level runs] =
    if xml_runs runs then Ok (doc ++ [ListParagraph kind indent_level runs])
    else ValueError.
Proof.
  unfold add_units, xml_unit. cbn [forallb unit_texts].
  by rewrite forallb_map_snd, andb_true_r.
Qed.

Lemma add_units_table doc table :
  add_units doc [Table table; EmptyParagraph] =
    if xml_grid table then Ok (doc ++ [Table table; EmptyParagraph]) else ValueError.
Proof.
  unfold add_units. cbn [forallb]. rewrite xml_unit_table.
  change (xml_unit EmptyParagraph) with true. by rewrite !andb_true_r.
Qed.

(** The label of a code block is refused when its language is. *)
Lemma add_units_code doc code_language code_text :
  add_units doc (language_label (Some code_language)
                 ++ [CodeParagraph code_text; EmptyParagraph]) =
    if xml_text code_language && xml_text code_text
    then Ok (doc ++ language_label (Some code_language)
                 ++ [CodeParagraph code_text; EmptyParagraph])
    else ValueError.
Proof.
  unfold add_units. destruct code_language as [|c l]; cbn [language_label app forallb].
  - unfold xml_unit. simpl. by rewrite !andb_true_r.
  - unfold xml_unit at 1 2. cbn [unit_texts forallb].
    rewrite !xml_text_app.
    change (xml_text (py "Code (")) with true. change (xml_text (py "):")) with true.
    change (xml_unit EmptyParagraph) with true.
    by rewrite !andb_true_r.
Qed.

(** * Table runs and code fences in the block loop *)

Lemma loop_body_table cfg line rest st doc :
  in_code_block st = false -> is_table_line line = true ->
  loop_body cfg line rest st doc =
    let '(table_lines, rest') := collect_table_lines (line :: rest) in
    if 3 <=? length table_lines
    then if xml_grid (table_of cfg table_lines)
         then Ok (rest', st, doc ++ [Table (table_of cfg table_lines); EmptyParagraph])
         else ValueError
    else Ok (rest', st, doc).
Proof.
  intros Hst Hl. unfold loop_body.
  rewrite (table_line_not_fence _ Hl), Hst, (table_line_not_header _ Hl),
    (table_line_not_list _ Hl), Hl.
  destruct (collect_table_lines (line :: rest)) as [table_lines rest'].
  rewrite build_table_spec. cbn [of_index obind]. rewrite add_units_table.
  destruct (3 <=? length table_lines); [|done].
  by destruct (xml_grid _).
Qed.

Lemma convert_from_table_run cfg run rest st doc :
  in_code_block st = false ->
  Forall (fun l => is_table_line l = true) run -> run <> [] -> ends_run rest ->
  convert_from cfg (run ++ rest) st doc =
    if 3 <=? length run
    then if xml_grid (table_of cfg run)
         then convert_from cfg rest st (doc ++ [Table (table_of cfg run); EmptyParagraph])
         else ValueError
    else convert_from cfg rest st doc.
Proof.
  intros Hst Hrun Hne Hrest. destruct run as [|line run]; [done|].
  pose proof (collect_table_lines_run _ _ Hrun Hrest) as Hc.
  cbn [app] in *. rewrite convert_from_cons, loop_body_table; [|done|by inversion Hrun].
  rewrite Hc. destruct (3 <=? _); [|done]. by destruct (xml_grid _).
Qed.

(** The table of the second scenario of the specification: two columns,
    two rows, a bold and shaded header. *)
Example two_by_two_table :
  convert_lines default_render_config (map py ["|A|B|"; "|---|---|"; "|1|2|"]) =
    Ok ([Table
           [[MkCell (py "A") true (Some (py "Times New Roman")) None (Some (240, 240, 240)%Z);
             MkCell (py "B") true (Some (py "Times New Roman")) None (Some (240, 240, 240)%Z)];
            [MkCell (py "1") false (Some (py "Times New Roman")) (Some (10 # 1)) None;
             MkCell (py "2") false (Some (py "Times New Roman")) (Some (10 # 1)) None]];
         EmptyParagraph], initial_state).
Proof. vm_compute. reflexivity. Qed.

(** A run of one or two table lines adds nothing to the document. *)
Lemma short_table_run_dropped cfg run rest st doc :
  in_code_block st = false ->
  Forall (fun l => is_table_line l = true) run -> run <> [] -> length run < 3 ->
  ends_run rest ->
  convert_from cfg (run ++ rest) st doc = convert_from cfg rest st doc.
Proof.
  intros Hst Hrun Hne Hlen Hrest. rewrite convert_from_table_run by done.
  by replace (3 <=? length run) with false by (symmetry; apply Nat.leb_gt; lia).
Qed.

(** C2 at a failing input: the two table lines are gone from the document,
    only the line after them is in it. *)
Lemma short_table_run_lost :
  convert_lines default_render_config (map py ["| a | b |"; "| c | d |"; "text"]) =
    Ok ([Paragraph [(normal, py "text")]], initial_state).
Proof. vm_compute. reflexivity. Qed.

(** C10.  The table of any lines is built without an [IndexError]; it has
    one row for the header and one for each line after the second, every
    row has as many cells as the header line, and the row of a line holds
    its first cells up to that number, the others being left out. *)
Theorem table_grid_in_bounds cfg table_lines :
  let num_cols := length (row_cells (nth 0 table_lines [])) in
  exists table,
    build_table cfg table_lines = Some table /\
    length table = length (drop 2 table_lines) + 1 /\
    Forall (fun row => length row = num_cols) table /\
    forall i line, drop 2 table_lines !! i = Some line ->
      table !! (S i) = Some (data_row_cells cfg num_cols (row_cells line)) /\
      map cell_text (data_row_cells cfg num_cols (row_cells line)) =
        take num_cols (row_cells line)
          ++ replicate (num_cols - length (row_cells line)) [].
Proof.
  intros num_cols. exists (table_of cfg table_lines).
  split; [apply build_table_spec|]. unfold table_of. fold num_cols.
  assert (length (header_row_cells cfg (row_cells (nth 0 table_lines []))) = num_cols)
    as Hh by (unfold header_row_cells; by rewrite length_map).
  revert Hh. generalize (header_row_cells cfg (row_cells (nth 0 table_lines []))).
  clearbody num_cols. intros hdr Hh.
  split. { cbn [length]. rewrite length_map. by rewrite Nat.add_1_r. } split.
  - constructor; [done|].
    apply Forall_map, Forall_forall. intros l _. unfold data_row_cells.
    rewrite length_app, length_map, length_take, length_replicate. lia.
  - intros i line Hi. split.
    + simpl. by rewrite list_lookup_fmap, Hi.
    + unfold data_row_cells. rewrite map_app, map_map. simpl.
      rewrite map_id. f_equal. induction (num_cols - _); simpl; congruence.
Qed.

(** An opening fence followed by lines without a fence: no unit is added,
    the lines are left in [code_content] when the loop ends. *)
Lemma open_fence_content_kept cfg body : forall st doc,
  in_code_block st = true ->
  Forall (fun l => is_fence_line l = false) body ->
  convert_from cfg body st doc =
    Ok (doc, MkLoopState true (code_language st) (code_content st ++ body)).
Proof.
  induction body as [|line body IH]; intros st doc Hst Hbody.
  - rewrite convert_from_nil, app_nil_r. by destruct st; simpl in *; subst.
  - apply Forall_cons in Hbody as [Hl Hbody]. unfold is_fence_line in Hl.
    rewrite convert_from_cons. unfold loop_body. rewrite Hl, Hst. simpl.
    rewrite IH by done. simpl. by rewrite <- app_assoc.
Qed.

Lemma unterminated_fence_dropped cfg line body st doc :
  in_code_block st = false -> is_fence_line line = true ->
  Forall (fun l => is_fence_line l = false) body ->
  convert_from cfg (line :: body) st doc =
    Ok (doc, MkLoopState true (Some (strip (drop 3 (strip line)))) body).
Proof.
  intros Hst Hl Hbody. unfold is_fence_line in Hl.
  rewrite convert_from_cons. unfold loop_body. rewrite Hl, Hst. simpl.
  by rewrite open_fence_content_kept.
Qed.

(** C1 at a failing input: the loop ends inside the code block, the document
    has no unit for the two lines of code. *)
Lemma unterminated_fence_lost :
  convert_lines default_render_config (map py ["intro"; "```python"; "print(1)"; "x = 2"]) =
    Ok ([Paragraph [(normal, py "intro")]],
        MkLoopState true (Some (py "python")) (map py ["print(1)"; "x = 2"])).
Proof. vm_compute. reflexivity. Qed.

(** The loop on the inline markup always ends. *)
Lemma format_runs_total text : exists runs, format_runs text = Some runs.
Proof. apply (format_loop_total (length text) text [] (le_n _)). Qed.

Lemma add_units_total doc units :
  (exists doc', add_units doc units = Ok doc') \/ add_units doc units = ValueError.
Proof. unfold add_units. destruct (forallb _ _); eauto. Qed.

(** An iteration ends, with its result or with the [ValueError] of the
    library; the loop too. *)
Lemma loop_body_total cfg line rest st doc :
  (exists lines' st' doc', loop_body cfg line rest st doc = Ok (lines', st', doc'))
  \/ loop_body cfg line rest st doc = ValueError.
Proof.
  unfold loop_body.
  repeat match goal with
  | |- context [format_runs ?t] =>
      let E := fresh in destruct (format_runs_total t) as [? E]; rewrite E; clear E
  | |- context [add_units ?d ?u] =>
      let E := fresh in destruct (add_units_total d u) as [[? E]|E]; rewrite E; clear E
  | |- context [if ?b then _ else _] => destruct b
  | |- context [match re_match ?r ?l with Some _ => _ | None => _ end] =>
      destruct (re_match r l)
  | |- context [let '(_, _) := ?p in _] => destruct p
  | |- context [match strip ?l with [] => _ | _ :: _ => _ end] => destruct (strip l)
  | |- context [build_table ?c ?l] => rewrite (build_table_spec c l)
  | _ => progress cbn [obind of_fuel of_index]
  end; eauto 6.
Qed.

Lemma convert_from_total cfg n : forall lines st doc,
  length lines <= n ->
  (exists doc' st', convert_from cfg lines st doc = Ok (doc', st'))
  \/ convert_from cfg lines st doc = ValueError.
Proof.
  induction n as [|n IH]; intros lines st doc Hn.
  - destruct lines; [rewrite convert_from_nil; eauto | simpl in Hn; lia].
  - destruct lines as [|line rest]; [rewrite convert_from_nil; eauto|].
    rewrite convert_from_cons.
    destruct (loop_body_total cfg line rest st doc) as [(lines' & st' & doc' & E)|E];
      rewrite E; [|by right].
    simpl. apply IH. apply loop_body_shrinks in E. simpl in Hn. lia.
Qed.

Lemma convert_lines_total cfg lines :
  (exists doc st, convert_lines cfg lines = Ok (doc, st))
  \/ convert_lines cfg lines = ValueError.
Proof. by apply (convert_from_total cfg (length lines)). Qed.

(** The first scenario of the specification, and the paragraph of the line
    [****], whose only run is bold and empty. *)
Example heading_and_paragraph :
  convert_lines default_render_config (map py ["# Title"; ""; "Some **bold** text."]) =
    Ok ([Heading 1 (py "Title") true; EmptyParagraph;
         Paragraph [(normal, py "Some "); (bold, py "bold"); (normal, py " text.")]],
        initial_state).
Proof. vm_compute. reflexivity. Qed.

Example empty_bold_paragraph :
  convert_lines default_render_config [py "****"] =
    Ok ([Paragraph [(bold, [])]], initial_state).
Proof. vm_compute. reflexivity. Qed.

(** * Dictionaries and the merge of two values *)

Section DictFacts.
Context {V : Type}.
Implicit Types (d : list (string * V)) (k : string) (v : V).

Lemma dict_get_set_eq k v d : dict_get k (dict_set k v d) = Some v.
Proof.
  induction d as [|[k0 v0] d IH]; simpl.
  - by rewrite String.eqb_refl.
  - destruct (String.eqb k0 k) eqn:E; simpl; by rewrite E.
Qed.

Lemma dict_get_set_ne k k' v d :
  k <> k' -> dict_get k' (dict_set k v d) = dict_get k' d.
Proof.
  intros Hne. induction d as [|[k0 v0] d IH]; simpl.
  - by apply String.eqb_neq in Hne as ->.
  - destruct (String.eqb k0 k) eqn:E; simpl; [|by rewrite IH].
    apply String.eqb_eq in E as ->. by apply String.eqb_neq in Hne as ->.
Qed.

Lemma dict_set_same k v d : dict_get k d = Some v -> dict_set k v d = d.
Proof.
  induction d as [|[k0 v0] d IH]; simpl; [done|].
  destruct (String.eqb k0 k) eqn:E; intros H; [by simplify_eq|].
  by rewrite IH.
Qed.

Lemma dict_set_absent k v d : dict_get k d = None -> dict_set k v d = d ++ [(k, v)].
Proof.
  induction d as [|[k0 v0] d IH]; simpl; [done|].
  destruct (String.eqb k0 k) eqn:E; intros H; [done|]. by rewrite IH.
Qed.

Lemma dict_get_app k d1 d2 :
  dict_get k (d1 ++ d2) =
    match dict_get k d1 with Some v => Some v | None => dict_get k d2 end.
Proof.
  induction d1 as [|[k0 v0] d1 IH]; simpl; [done|]. by destruct (String.eqb k0 k).
Qed.

Lemma dict_get_None_keys k d :
  dict_get k d = None <-> existsb (String.eqb k) (map fst d) = false.
Proof.
  induction d as [|[k0 v0] d IH]; simpl; [done|].
  rewrite (String.eqb_sym k k0). destruct (String.eqb k0 k); simpl; [done | apply IH].
Qed.

Lemma dict_set_keys_present k v v' d :
  dict_get k d = Some v' -> map fst (dict_set k v d) = map fst d.
Proof.
  induction d as [|[k0 v0] d IH]; simpl; [done|].
  destruct (String.eqb k0 k) eqn:E; intros H; simpl; [done|]. by rewrite IH.
Qed.
End DictFacts.

Lemma merge_tree_dict d u :
  merge_tree (JDict d) (JDict u) = JDict (kept_items d u ++ added_items d u).
Proof.
  simpl. f_equal. f_equal. induction d as [|[k dv] d IH]; simpl; [done|]. by rewrite IH.
Qed.

Lemma merge_tree_override dv uv :
  is_dict dv && is_dict uv = false -> merge_tree dv uv = uv.
Proof. destruct dv, uv; simpl; done. Qed.

Lemma dict_get_kept k d u :
  dict_get k (kept_items d u) =
    match dict_get k d with
    | Some dv => Some match dict_get k u with
                      | Some uv => merge_tree dv uv
                      | None => dv
                      end
    | None => None
    end.
Proof.
  induction d as [|[k0 dv] d IH]; simpl; [done|].
  destruct (String.eqb k0 k) eqn:E; [|done]. by apply String.eqb_eq in E as ->.
Qed.

Lemma dict_get_added k d u :
  dict_get k (added_items d u) =
    match dict_get k d with Some _ => None | None => dict_get k u end.
Proof.
  induction u as [|[k0 uv] u IH]; simpl; [by destruct (dict_get k d)|].
  destruct (dict_get k0 d) eqn:E0; simpl.
  - destruct (String.eqb k0 k) eqn:E; [|done].
    apply String.eqb_eq in E as ->. by rewrite E0 in *.
  - destruct (String.eqb k0 k) eqn:E; [|done].
    apply String.eqb_eq in E as ->. by rewrite E0.
Qed.

(** The merge, key by key. *)
Lemma dict_get_merge k d u :
  dict_get k (kept_items d u ++ added_items d u) =
    match dict_get k u with
    | None => dict_get k d
    | Some uv => Some match dict_get k d with
                      | Some dv => merge_tree dv uv
                      | None => uv
                      end
    end.
Proof.
  rewrite dict_get_app, dict_get_kept, dict_get_added.
  destruct (dict_get k d), (dict_get k u); done.
Qed.

Lemma merge_tree_empty d : merge_tree (JDict d) (JDict []) = JDict d.
Proof.
  rewrite merge_tree_dict. unfold added_items. simpl. rewrite app_nil_r. f_equal.
  unfold kept_items. induction d as [|[k dv] d IH]; simpl; [done|]. f_equal. exact IH.
Qed.

Lemma json_get_leaf j path :
  is_dict j = false -> path <> [] -> json_get j path = None.
Proof. destruct path; [done|]. by destruct j. Qed.

(** An override of one field: that field has the new value, and what is
    not on the way to it reads as before. *)
Lemma merge_tree_single path : forall default value old q,
  is_dict value = false -> is_dict old = false -> path <> [] ->
  json_get default path = Some old ->
  json_get (merge_tree default (single_override path value)) path = Some value /\
  (~ q `prefix_of` path ->
   json_get (merge_tree default (single_override path value)) q = json_get default q).
Proof.
  induction path as [|k path IH]; intros default value old q Hv Ho Hne Hget; [done|].
  simpl in Hget. destruct default as [| | | | |d]; try done.
  destruct (dict_get k d) as [dv|] eqn:Ek; [|done].
  cbn [single_override]. rewrite merge_tree_dict. split.
  - cbn [json_get]. rewrite dict_get_merge. simpl. rewrite String.eqb_refl, Ek.
    destruct path as [|k' path].
    + simpl in *. simplify_eq. by rewrite merge_tree_override by (by rewrite Ho).
    + by eapply (IH dv value old []).
  - intros Hq. destruct q as [|k0 q]; [by destruct Hq; apply prefix_nil|].
    cbn [json_get]. rewrite dict_get_merge. simpl.
    destruct (String.eqb k k0) eqn:E; [|done].
    apply String.eqb_eq in E as <-. rewrite Ek.
    destruct path as [|k' path].
    + simpl in *. simplify_eq. rewrite merge_tree_override by (by rewrite Ho).
      destruct q as [|k1 q]; [by destruct Hq|].
      rewrite !json_get_leaf; done.
    + eapply (IH dv value old q); try done.
      intros Hp. apply Hq. by apply prefix_cons.
Qed.

(** * The merge, item by item *)

Lemma existsb_eqb_elem_of k (ks : list string) :
  existsb (String.eqb k) ks = true <-> k ∈ ks.
Proof.
  rewrite existsb_exists. split.
  - intros (x & Hx & E). apply String.eqb_eq in E as ->. by apply list_elem_of_In.
  - intros H. exists k. split; [by apply list_elem_of_In | apply String.eqb_refl].
Qed.

Lemma no_dup_keys_NoDup ks : no_dup_keys ks = true <-> NoDup ks.
Proof.
  induction ks as [|k ks IH]; simpl.
  - split; [constructor | done].
  - rewrite andb_true_iff, negb_true_iff, NoDup_cons, IH.
    rewrite <- not_true_iff_false, existsb_eqb_elem_of. done.
Qed.

Lemma dict_get_None_elem_of {V} k (d : list (string * V)) :
  dict_get k d = None <-> k ∉ map fst d.
Proof.
  rewrite dict_get_None_keys, <- not_true_iff_false, existsb_eqb_elem_of. done.
Qed.

Lemma dict_get_Some_elem_of {V} k v (d : list (string * V)) :
  dict_get k d = Some v -> k ∈ map fst d.
Proof.
  intros H. destruct (decide (k ∈ map fst d)) as [|Hn]; [done|].
  apply dict_get_None_elem_of in Hn. congruence.
Qed.

Lemma kept_items_nil d : kept_items d [] = d.
Proof.
  unfold kept_items. induction d as [|[k dv] d IH]; simpl; [done|]. f_equal. exact IH.
Qed.

Lemma kept_items_app d1 d2 u : kept_items (d1 ++ d2) u = kept_items d1 u ++ kept_items d2 u.
Proof. unfold kept_items. apply map_app. Qed.

(** An item of the override whose key the defaults do not have changes
    nothing in the part that is kept. *)
Lemma kept_items_cons_absent d k uv u :
  k ∉ map fst d -> kept_items d ((k, uv) :: u) = kept_items d u.
Proof.
  unfold kept_items. intros Hk. apply map_ext_in. intros [k0 dv] Hin. simpl.
  destruct (String.eqb k k0) eqn:E; [|done].
  apply String.eqb_eq in E as <-. destruct Hk.
  apply list_elem_of_In in Hin. by apply (list_elem_of_fmap_2 fst) in Hin.
Qed.

(** An item of the override whose key the defaults have: its place in the
    part that is kept gets the merged value. *)
Lemma kept_items_cons k0 v0 d u :
  kept_items ((k0, v0) :: d) u =
    (k0, match dict_get k0 u with Some uv => merge_tree v0 uv | None => v0 end)
      :: kept_items d u.
Proof. done. Qed.

Lemma kept_items_cons_present d k dv uv u :
  NoDup (map fst d) -> dict_get k d = Some dv -> k ∉ map fst u ->
  kept_items (dict_set k (merge_tree dv uv) d) u = kept_items d ((k, uv) :: u).
Proof.
  intros Hd Hk Hu. apply dict_get_None_elem_of in Hu.
  induction d as [|[k0 v0] d IH]; [done|].
  simpl in Hk, Hd. apply NoDup_cons in Hd as [Hk0 Hd].
  cbn [dict_set]. destruct (String.eqb k0 k) eqn:E.
  - apply String.eqb_eq in E as ->. simplify_eq.
    rewrite !kept_items_cons, kept_items_cons_absent by done.
    cbn [dict_get]. by rewrite String.eqb_refl, Hu.
  - rewrite !kept_items_cons, IH by done.
    cbn [dict_get]. by rewrite (String.eqb_sym k k0), E.
Qed.

Lemma added_items_ext d d' u :
  (forall k, k ∈ map fst u -> is_Some (dict_get k d) <-> is_Some (dict_get k d')) ->
  added_items d u = added_items d' u.
Proof.
  intros H. unfold added_items. apply List.filter_ext_in. intros [k uv] Hin. simpl.
  apply list_elem_of_In in Hin. apply (list_elem_of_fmap_2 fst) in Hin. simpl in Hin.
  specialize (H k Hin). destruct (dict_get k d), (dict_get k d'); try done.
  - destruct H as [H _]. by destruct (H ltac:(eauto)).
  - destruct H as [_ H]. by destruct (H ltac:(eauto)).
Qed.

Lemma merge_seq_union u : forall d,
  NoDup (map fst d) -> NoDup (map fst u) ->
  merge_seq d u = kept_items d u ++ added_items d u /\
  NoDup (map fst (merge_seq d u)).
Proof.
  unfold merge_seq. induction u as [|[k uv] u IH]; intros d Hd Hu.
  - simpl. by rewrite kept_items_nil, app_nil_r.
  - simpl in Hu. apply NoDup_cons in Hu as [Hk Hu].
    cbn [fold_left]. unfold merge_item at 2 4. cbn [fst snd].
    destruct (dict_get k d) as [dv|] eqn:Ek.
    + destruct (IH (dict_set k (merge_tree dv uv) d)) as [-> Hnd]; [|done|].
      { by erewrite dict_set_keys_present. }
      split; [|done]. rewrite kept_items_cons_present by done. f_equal.
      unfold added_items at 2. cbn [List.filter fst]. rewrite Ek.
      apply added_items_ext. intros k0 Hk0.
      destruct (decide (k = k0)) as [<- | Hne]; [done|].
      by rewrite dict_get_set_ne.
    + rewrite dict_set_absent by done.
      apply dict_get_None_elem_of in Ek as Hkd.
      destruct (IH (d ++ [(k, uv)])) as [-> Hnd]; [|done|].
      { rewrite map_app. apply NoDup_app. split; [done|]. split.
        - intros x Hx Hx'. apply list_elem_of_singleton in Hx'. by subst.
        - apply NoDup_singleton. }
      split; [|done]. rewrite kept_items_app, kept_items_cons_absent by done.
      rewrite <- app_assoc. f_equal.
      unfold kept_items at 1, added_items at 2. cbn [map List.filter fst snd app].
      rewrite Ek. apply dict_get_None_elem_of in Hk as Hk'. rewrite Hk'. f_equal.
      apply added_items_ext. intros k0 Hk0. rewrite dict_get_app. simpl.
      destruct (dict_get k0 d); [done|].
      destruct (String.eqb k k0) eqn:E; [|done].
      apply String.eqb_eq in E as <-. by destruct (Hk Hk0).
Qed.

(** [unique_keys], unfolded one level. *)
Lemma unique_keys_dict items :
  unique_keys (JDict items) = true <->
  NoDup (map fst items) /\ Forall (fun kv => unique_keys (snd kv) = true) items.
Proof.
  cbn [unique_keys]. rewrite andb_true_iff, no_dup_keys_NoDup.
  apply and_iff_compat_l.
  induction items as [|[k j] items IH]; simpl.
  - split; [constructor | done].
  - rewrite andb_true_iff, Forall_cons, IH. done.
Qed.

(** * Values in the store *)

Lemma alloc_dict items h :
  alloc (JDict items) h =
    let '(d, h') := alloc_items items [] h in (VDict (length h'), h' ++ [d]).
Proof. reflexivity. Qed.

Lemma merge_configs_dict items h l :
  merge_configs (JDict items) h l = merge_items l items h.
Proof. reflexivity. Qed.

(** Induction on a value, with the hypothesis for the values of a
    dictionary. *)
Lemma json_ind' (P : json -> Prop) :
  (forall j, is_dict j = false -> P j) ->
  (forall items, Forall (fun kv => P (snd kv)) items -> P (JDict items)) ->
  forall j, P j.
Proof.
  intros Hleaf Hdict. fix IH 1. intros [| | | | |items]; try by apply Hleaf.
  apply Hdict. induction items as [|[k j] items IHitems]; constructor; [apply IH | done].
Qed.

Lemma leaf_val_is_dict j : is_dict j = false -> exists v, leaf_val j = Some v.
Proof. destruct j; simpl; eauto; done. Qed.

Lemma leaf_val_not_dict j v : leaf_val j = Some v -> is_dict j = false /\ forall l, v <> VDict l.
Proof. by destruct j; simpl; intros; simplify_eq. Qed.

Lemma alloc_leaf j v h : leaf_val j = Some v -> alloc j h = (v, h).
Proof. by destruct j; simpl; intros; simplify_eq. Qed.

Lemma tree_at_frame h v j F :
  tree_at h v j F -> forall h', same_on F h h' -> tree_at h' v j F.
Proof.
  revert v j F.
  apply (tree_at_mut h
    (fun v j F _ => forall h', same_on F h h' -> tree_at h' v j F)
    (fun d items F _ => forall h', same_on F h h' -> items_at h' d items F)).
  - intros j v Hv h' _. by constructor.
  - intros l d items F Hl _ IH Hnot h' Hsame. apply (tree_dict h' l d); [|apply IH|done].
    + rewrite Hsame; [done | set_solver].
    + intros x Hx. apply Hsame. set_solver.
  - intros h' _. constructor.
  - intros k v j d items F1 F2 _ IH1 _ IH2 Hdisj h' Hsame. constructor; [| |done].
    + apply IH1. intros x Hx. apply Hsame. set_solver.
    + apply IH2. intros x Hx. apply Hsame. set_solver.
Qed.

Lemma items_at_frame h d items F :
  items_at h d items F -> forall h', same_on F h h' -> items_at h' d items F.
Proof.
  induction 1 as [|k v j d items F1 F2 Hv Hd IH Hdisj]; intros h' Hsame; constructor.
  - eapply tree_at_frame; [done|]. intros x Hx. apply Hsame. set_solver.
  - apply IH. intros x Hx. apply Hsame. set_solver.
  - done.
Qed.

(** The locations of a value are locations of the store. *)
Lemma tree_at_bound h v j F :
  tree_at h v j F -> forall l, l ∈ F -> l < length h.
Proof.
  revert v j F.
  apply (tree_at_mut h
    (fun v j F _ => forall l, l ∈ F -> l < length h)
    (fun d items F _ => forall l, l ∈ F -> l < length h)).
  - intros j v _ l Hl. set_solver.
  - intros l d items F Hl _ IH _ x Hx.
    apply elem_of_union in Hx as [Hx | Hx]; [|by apply IH].
    apply elem_of_singleton in Hx as ->. by eapply lookup_lt_Some.
  - intros l Hl. set_solver.
  - intros k v j d items F1 F2 _ IH1 _ IH2 _ l Hl.
    apply elem_of_union in Hl as [Hl | Hl]; [by apply IH1 | by apply IH2].
Qed.

Lemma items_at_bound h d items F :
  items_at h d items F -> forall l, l ∈ F -> l < length h.
Proof.
  induction 1 as [|k v j d items F1 F2 Hv Hd IH Hdisj]; intros l Hl; [set_solver|].
  apply elem_of_union in Hl as [Hl | Hl]; [by eapply tree_at_bound | by apply IH].
Qed.

(** Reading a value back. *)
Lemma tree_at_reify h v j F :
  tree_at h v j F -> forall fuel, json_depth j <= fuel -> reify (S fuel) h v = Some j.
Proof.
  revert v j F.
  apply (tree_at_mut h
    (fun v j F _ => forall fuel, json_depth j <= fuel -> reify (S fuel) h v = Some j)
    (fun d items F _ => forall fuel,
       list_max (map (fun kv => json_depth (snd kv)) items) < fuel ->
       Forall2 (fun x y =>
                  (let '(k, v') := x in option_map (pair k) (reify fuel h v')) = Some y)
         d items)).
  - intros j v Hv fuel _. by destruct j; simpl in *; simplify_eq.
  - intros l d items F Hl _ IH _ fuel Hfuel. cbn [json_depth] in Hfuel.
    cbn [reify]. rewrite Hl. erewrite mapM_Some_2; [done|]. apply IH. lia.
  - constructor.
  - intros k v j d items F1 F2 _ IH1 _ IH2 _ fuel Hfuel. simpl in Hfuel.
    destruct fuel as [|fuel]; [lia|].
    constructor; [|apply IH2; lia]. by rewrite IH1 by lia.
Qed.

(** * Items of a dictionary in the store *)

Lemma items_at_keys h d items F :
  items_at h d items F -> map fst d = map fst items.
Proof. induction 1; simpl; congruence. Qed.

Lemma items_at_get_None h d items F k :
  items_at h d items F -> dict_get k d = None -> dict_get k items = None.
Proof.
  intros H. rewrite !dict_get_None_keys. by rewrite (items_at_keys _ _ _ _ H).
Qed.

Lemma items_at_snoc h d items F k v j F1 :
  items_at h d items F -> tree_at h v j F1 -> F1 ## F ->
  items_at h (d ++ [(k, v)]) (items ++ [(k, j)]) (F ∪ F1).
Proof.
  induction 1 as [|k0 v0 j0 d items F0 F2 Hv Hd IH Hdisj]; intros Hnew Hfresh; simpl.
  - replace (∅ ∪ F1) with (F1 ∪ ∅) by set_solver.
    constructor; [done | constructor | set_solver].
  - replace (F0 ∪ F2 ∪ F1) with (F0 ∪ (F2 ∪ F1)) by set_solver.
    constructor; [done | apply IH; [done | set_solver] | set_solver].
Qed.

(** The item of a key, and the dictionary with another value for it. *)
Lemma items_at_get h d items F k v :
  items_at h d items F -> dict_get k d = Some v ->
  exists j Fk Frest,
    dict_get k items = Some j /\ tree_at h v j Fk /\
    F = Fk ∪ Frest /\ Fk ## Frest /\
    forall h' v' j' Fk',
      tree_at h' v' j' Fk' -> Fk' ## Frest -> same_on Frest h h' ->
      items_at h' (dict_set k v' d) (dict_set k j' items) (Fk' ∪ Frest).
Proof.
  induction 1 as [|k0 v0 j0 d items F1 F2 Hv Hd IH Hdisj]; intros Hget; [done|].
  simpl in Hget. destruct (String.eqb k0 k) eqn:E.
  - simplify_eq. exists j0, F1, F2. simpl. rewrite E.
    repeat split; try done.
    intros h' v' j' Fk' Hnew Hfresh Hsame.
    constructor; [done | by eapply items_at_frame | done].
  - destruct (IH Hget) as (j & Fk & Frest & Hj & Hk & -> & Hd2 & Hset).
    exists j, Fk, (F1 ∪ Frest). simpl. rewrite E.
    split; [done|]. split; [done|]. split; [set_solver|]. split; [set_solver|].
    intros h' v' j' Fk' Hnew Hfresh Hsame.
    replace (Fk' ∪ (F1 ∪ Frest)) with (F1 ∪ (Fk' ∪ Frest)) by set_solver.
    constructor.
    + eapply tree_at_frame; [done|]. intros x Hx. apply Hsame. set_solver.
    + apply Hset; [done | set_solver |]. intros x Hx. apply Hsame. set_solver.
    + set_solver.
Qed.

Lemma tree_at_dict_inv h l j F :
  tree_at h (VDict l) j F ->
  exists d items F0,
    j = JDict items /\ h !! l = Some d /\ items_at h d items F0 /\
    l ∉ F0 /\ F = {[l]} ∪ F0.
Proof.
  inversion 1 as [j' v' Hleaf|l' d items F0 Hl Hitems Hnot]; subst.
  - by destruct j.
  - eauto 10.
Qed.

Lemma tree_at_leaf_inv h v j F :
  tree_at h v j F -> (forall l, v <> VDict l) -> is_dict j = false.
Proof.
  inversion 1 as [j' v' Hleaf|l' d items F0 Hl Hitems Hnot]; subst; intros Hv.
  - by destruct j.
  - by destruct (Hv l').
Qed.

(** * Building a value in the store *)

Lemma same_on_app F (h ext : store) :
  (forall l, l ∈ F -> l < length h) -> same_on F h (h ++ ext).
Proof. intros Hb l Hl. apply lookup_app_l. by apply Hb. Qed.

Lemma alloc_items_tree items :
  Forall (fun kv => forall h, unique_keys (snd kv) = true ->
            exists v ext F, alloc (snd kv) h = (v, h ++ ext) /\
              tree_at (h ++ ext) v (snd kv) F /\ forall l, l ∈ F -> length h <= l) items ->
  Forall (fun kv => unique_keys (snd kv) = true) items ->
  NoDup (map fst items) ->
  forall d ditems Fd h,
    items_at h d ditems Fd ->
    (forall k, k ∈ map fst items -> k ∉ map fst d) ->
    exists d' ext F,
      alloc_items items d h = (d', h ++ ext) /\
      items_at (h ++ ext) d' (ditems ++ items) F /\
      forall l, l ∈ F -> l ∈ Fd \/ length h <= l.
Proof.
  induction items as [|[k j] items IH]; intros HIH Hu Hnd d ditems Fd h Hd Hfresh.
  - exists d, [], Fd. rewrite !app_nil_r. simpl. eauto.
  - apply Forall_cons in HIH as [Hj HIH]. apply Forall_cons in Hu as [Huj Hu].
    simpl in Hnd. apply NoDup_cons in Hnd as [Hk Hnd]. simpl in Hj, Huj.
    destruct (Hj h Huj) as (v & e1 & F1 & Ha & Hv & HF1).
    cbn [alloc_items]. rewrite Ha.
    pose proof (items_at_bound _ _ _ _ Hd) as Hb.
    assert (dict_get k d = None) as Hkd.
    { apply dict_get_None_elem_of, Hfresh. simpl. by left. }
    rewrite dict_set_absent by done.
    destruct (IH HIH Hu Hnd (d ++ [(k, v)]) (ditems ++ [(k, j)]) (Fd ∪ F1) (h ++ e1))
      as (d' & e2 & F & Hal & Hit & HF).
    + apply items_at_snoc; [|done|].
      * eapply items_at_frame; [done|]. by apply same_on_app.
      * intros x Hx1 Hx2. specialize (HF1 x Hx1). specialize (Hb x Hx2). lia.
    + intros k0 Hk0. rewrite map_app. simpl. intros Hin.
      apply elem_of_app in Hin as [Hin | Hin].
      * eapply Hfresh; [|done]. simpl. by right.
      * apply list_elem_of_singleton in Hin as ->. by destruct Hk.
    + exists d', (e1 ++ e2), F. rewrite app_assoc. split; [done|].
      rewrite <- (app_assoc ditems) in Hit. simpl in Hit. split; [done|].
      intros l Hl. destruct (HF l Hl) as [Hl' | Hl'].
      * apply elem_of_union in Hl' as [? | Hl']; [by left|]. right. by apply HF1.
      * right. rewrite length_app in Hl'. lia.
Qed.

Lemma alloc_tree j : forall h,
  unique_keys j = true ->
  exists v ext F,
    alloc j h = (v, h ++ ext) /\ tree_at (h ++ ext) v j F /\
    forall l, l ∈ F -> length h <= l.
Proof.
  induction j as [j Hleaf|items IH] using json_ind'; intros h Hu.
  - destruct (leaf_val_is_dict j Hleaf) as [v Hv].
    exists v, [], ∅. rewrite app_nil_r, (alloc_leaf _ _ _ Hv).
    split; [done|]. split; [by constructor | set_solver].
  - apply unique_keys_dict in Hu as [Hnd Hu].
    destruct (alloc_items_tree items IH Hu Hnd [] [] ∅ h) as (d & ext & F & Ha & Hit & HF).
    { constructor. } { intros k _ Hk. by apply elem_of_nil in Hk. }
    rewrite alloc_dict, Ha. simpl in Hit.
    exists (VDict (length (h ++ ext))), (ext ++ [d]), ({[length (h ++ ext)]} ∪ F).
    rewrite app_assoc. split; [done|].
    pose proof (items_at_bound _ _ _ _ Hit) as Hb. split.
    + apply (tree_dict _ _ d).
      * by rewrite list_lookup_middle.
      * eapply items_at_frame; [done|]. by apply same_on_app.
      * intros Hin. specialize (Hb _ Hin). lia.
    + intros l Hl. apply elem_of_union in Hl as [Hl | Hl].
      * apply elem_of_singleton in Hl as ->. rewrite length_app. lia.
      * destruct (HF l Hl) as [Hl' | Hl']; [set_solver | done].
Qed.

(** * Distinct keys are kept by the merge *)

Lemma dict_get_Some_In {V} k v (d : list (string * V)) :
  dict_get k d = Some v -> (k, v) ∈ d.
Proof.
  induction d as [|[k0 v0] d IH]; simpl; [done|].
  destruct (String.eqb k0 k) eqn:E; intros H.
  - apply String.eqb_eq in E as ->. simplify_eq. by left.
  - right. by apply IH.
Qed.

Lemma kept_items_keys d u : map fst (kept_items d u) = map fst d.
Proof. unfold kept_items. rewrite map_map. done. Qed.

Lemma added_items_keys d u k :
  k ∈ map fst (added_items d u) -> k ∈ map fst u /\ dict_get k d = None.
Proof.
  unfold added_items. intros H. apply list_elem_of_fmap in H as ([k0 uv] & -> & H).
  apply list_elem_of_In, List.filter_In in H as [H Hf]. simpl in *.
  split; [|by destruct (dict_get k0 d)].
  apply list_elem_of_In in H. by apply (list_elem_of_fmap_2 fst) in H.
Qed.

Lemma added_items_NoDup d u : NoDup (map fst u) -> NoDup (map fst (added_items d u)).
Proof.
  unfold added_items. induction u as [|[k uv] u IH]; simpl; [done|].
  intros Hnd. apply NoDup_cons in Hnd as [Hk Hnd].
  destruct (dict_get k d); [by apply IH|]. simpl. apply NoDup_cons. split; [|by apply IH].
  intros Hin. apply Hk. by apply (added_items_keys d u k).
Qed.

Lemma unique_keys_merge_tree dv : forall uv,
  unique_keys dv = true -> unique_keys uv = true -> unique_keys (merge_tree dv uv) = true.
Proof.
  induction dv as [dv Hleaf|d IH] using json_ind'; intros uv Hd Hu.
  - by rewrite merge_tree_override by (by rewrite Hleaf).
  - destruct (is_dict uv) eqn:Eu; [|by rewrite merge_tree_override].
    destruct uv as [| | | | |u]; try done.
    rewrite merge_tree_dict. apply unique_keys_dict in Hd as [Hnd Hdv].
    apply unique_keys_dict in Hu as [Hnu Huv]. apply unique_keys_dict. split.
    + rewrite map_app, kept_items_keys. apply NoDup_app. split; [done|]. split.
      * intros k Hk Hk'. apply added_items_keys in Hk' as [_ Hk'].
        by apply dict_get_None_elem_of in Hk'.
      * by apply added_items_NoDup.
    + apply Forall_app. split.
      * unfold kept_items. apply Forall_map. rewrite Forall_forall in IH, Hdv, Huv.
        apply Forall_forall. intros [k v] Hin. simpl.
        destruct (dict_get k u) as [uv|] eqn:Ek; [|by apply (Hdv (k, v))].
        apply (IH (k, v)); [done | by apply (Hdv (k, v)) |].
        apply dict_get_Some_In in Ek. by apply (Huv (k, uv)).
      * unfold added_items. rewrite Forall_forall in Huv. apply Forall_forall.
        intros kv Hin. apply Huv.
        apply list_elem_of_In, List.filter_In in Hin as [Hin _]. by apply list_elem_of_In.
Qed.

Lemma dict_set_NoDup {V} k (v : V) d : NoDup (map fst d) -> NoDup (map fst (dict_set k v d)).
Proof.
  intros Hnd. destruct (dict_get k d) as [v'|] eqn:E.
  - by erewrite dict_set_keys_present.
  - rewrite dict_set_absent, map_app by done. apply NoDup_app. split; [done|]. split.
    + intros x Hx Hx'. apply list_elem_of_singleton in Hx' as ->.
      by apply dict_get_None_elem_of in E.
    + apply NoDup_singleton.
Qed.

Lemma dict_set_Forall {V} (P : string * V -> Prop) k v d :
  Forall P d -> P (k, v) -> Forall P (dict_set k v d).
Proof.
  intros Hd Hv. induction d as [|[k0 v0] d IH]; simpl.
  - by constructor.
  - apply Forall_cons in Hd as [H0 Hd]. destruct (String.eqb k0 k) eqn:E.
    + apply String.eqb_eq in E as ->. by constructor.
    + constructor; [done | by apply IH].
Qed.

Lemma unique_keys_merge_item d kv :
  unique_keys (JDict d) = true -> unique_keys (snd kv) = true ->
  unique_keys (JDict (merge_item d kv)) = true.
Proof.
  intros Hd Hu. apply unique_keys_dict in Hd as [Hnd Hdv]. apply unique_keys_dict.
  unfold merge_item. split; [by apply dict_set_NoDup|].
  apply dict_set_Forall; [done|]. simpl.
  destruct (dict_get (fst kv) d) as [dv|] eqn:E; [|done].
  apply unique_keys_merge_tree; [|done].
  apply dict_get_Some_In in E. rewrite Forall_forall in Hdv. by apply (Hdv (fst kv, dv)).
Qed.

(** * [merge_configs] on the store *)

Lemma merged_into_refl h l D F :
  tree_at h (VDict l) (JDict D) F -> merged_into h l F h D F.
Proof. intros H. repeat split; auto. Qed.

Lemma merged_into_trans h l F h1 D1 F1 h2 D2 F2 :
  merged_into h l F h1 D1 F1 -> merged_into h1 l F1 h2 D2 F2 ->
  merged_into h l F h2 D2 F2.
Proof.
  intros (_ & Hlen1 & HF1 & Hsame1) (Ht & Hlen2 & HF2 & Hsame2).
  split; [done|]. split; [lia|]. split.
  - intros x Hx. destruct (HF2 x Hx) as [Hx1 | ?]; [|right; lia].
    destruct (HF1 x Hx1); [by left | by right].
  - intros x Hx Hnot. rewrite Hsame2; [by apply Hsame1 | lia |].
    intros Hx1. destruct (HF1 x Hx1); [done | lia].
Qed.

(** The assignment [default_config[key] = value]. *)
Lemma merge_assign h l D F k uv :
  tree_at h (VDict l) (JDict D) F -> unique_keys uv = true ->
  exists pv h1 F',
    alloc uv h = (pv, h1) /\
    merged_into h l F (store_set l k pv h1) (dict_set k uv D) F'.
Proof.
  intros Ht Hu.
  destruct (tree_at_dict_inv _ _ _ _ Ht) as (d & D' & F0 & HD & Hl & Hit & Hnot & ->).
  simplify_eq.
  destruct (alloc_tree uv h Hu) as (pv & ext & Fn & Ha & Hpv & HFn).
  pose proof (items_at_bound _ _ _ _ Hit) as Hb.
  pose proof (lookup_lt_Some _ _ _ Hl) as Hll.
  set (h2 := <[l := dict_set k pv d]> (h ++ ext)).
  assert (store_set l k pv (h ++ ext) = h2) as Hset.
  { unfold store_set. by rewrite (lookup_app_l h ext l Hll), Hl. }
  assert (forall x, x < length h -> x <> l -> h2 !! x = h !! x) as Hsame.
  { intros x Hx Hne. unfold h2. rewrite list_lookup_insert_ne by done.
    by apply lookup_app_l. }
  assert (h2 !! l = Some (dict_set k pv d)) as Hl2.
  { unfold h2. apply list_lookup_insert_eq. rewrite length_app. lia. }
  assert (tree_at h2 pv uv Fn) as Hpv2.
  { eapply tree_at_frame; [done|]. intros x Hx. unfold h2.
    apply list_lookup_insert_ne. specialize (HFn x Hx). lia. }
  assert (length h <= length h2) as Hlen.
  { unfold h2. rewrite length_insert, length_app. lia. }
  exists pv, (h ++ ext). rewrite Hset.
  destruct (dict_get k d) as [v|] eqn:Ek.
  - destruct (items_at_get _ _ _ _ _ _ Hit Ek)
      as (j & Fk & Frest & Hj & Hv & -> & Hdisj & Hupd).
    exists ({[l]} ∪ (Fn ∪ Frest)). split; [done|]. split; [|split; [done|split]].
    + apply (tree_dict _ _ (dict_set k pv d)); [done | |].
      * apply Hupd; [done | |].
        -- intros x Hx1 Hx2. specialize (HFn x Hx1). specialize (Hb x ltac:(set_solver)). lia.
        -- intros x Hx. apply Hsame; [apply Hb; set_solver | set_solver].
      * intros Hin. apply elem_of_union in Hin as [Hin | Hin]; [|set_solver].
        specialize (HFn l Hin). lia.
    + intros x Hx. destruct (decide (x ∈ Fn)) as [Hn | Hn]; [right; by apply HFn|].
      left. set_solver.
    + intros x Hx Hnin. apply Hsame; [done | set_solver].
  - pose proof (items_at_get_None _ _ _ _ _ Hit Ek) as EkD.
    exists ({[l]} ∪ (F0 ∪ Fn)). split; [done|]. split; [|split; [done|split]].
    + apply (tree_dict _ _ (dict_set k pv d)); [done | |].
      * rewrite !dict_set_absent by done. apply items_at_snoc; [|done|].
        -- eapply items_at_frame; [done|]. intros x Hx.
           apply Hsame; [by apply Hb | set_solver].
        -- intros x Hx1 Hx2. specialize (HFn x Hx1). specialize (Hb x Hx2). lia.
      * intros Hin. apply elem_of_union in Hin as [Hin | Hin]; [done|].
        specialize (HFn l Hin). lia.
    + intros x Hx. destruct (decide (x ∈ Fn)) as [Hn | Hn]; [right; by apply HFn|].
      left. set_solver.
    + intros x Hx Hnin. apply Hsame; [done | set_solver].
Qed.

(** The merge into the dictionary of a key that both sides have. *)
Lemma merge_nested h l D F d k l' (P : store -> Prop)
    (M : list (string * json) -> list (string * json)) :
  tree_at h (VDict l) (JDict D) F -> h !! l = Some d ->
  dict_get k d = Some (VDict l') ->
  (forall D' Fk, dict_get k D = Some (JDict D') -> tree_at h (VDict l') (JDict D') Fk ->
     exists h1 Fk1, P h1 /\ merged_into h l' Fk h1 (M D') Fk1) ->
  exists D' h1 F1,
    P h1 /\ dict_get k D = Some (JDict D') /\
    merged_into h l F h1 (dict_set k (JDict (M D')) D) F1.
Proof.
  intros Ht Hl Ek Hsub.
  destruct (tree_at_dict_inv _ _ _ _ Ht) as (d0 & D0 & F0 & HD & Hl0 & Hit & Hnot & ->).
  assert (d0 = d) as -> by congruence. clear Hl0. simplify_eq.
  destruct (items_at_get _ _ _ _ _ _ Hit Ek)
    as (j & Fk & Frest & Hj & Hv & -> & Hdisj & Hupd).
  destruct (tree_at_dict_inv _ _ _ _ Hv) as (d' & D' & Fk0 & -> & _).
  destruct (Hsub D' Fk Hj Hv) as (h1 & Fk1 & HP & Ht1 & Hlen & HF1 & Hsame).
  pose proof (items_at_bound _ _ _ _ Hit) as Hb.
  pose proof (lookup_lt_Some _ _ _ Hl) as Hll.
  exists D', h1, ({[l]} ∪ (Fk1 ∪ Frest)). split; [done|]. split; [done|].
  split; [|split; [done|split]].
  - apply (tree_dict _ _ d).
    + rewrite Hsame; [done | done | set_solver].
    + rewrite <- (dict_set_same k (VDict l') d Ek).
      apply Hupd; [done | |].
      * intros x Hx1 Hx2. destruct (HF1 x Hx1) as [? | ?]; [set_solver|].
        specialize (Hb x ltac:(set_solver)). lia.
      * intros x Hx. apply Hsame; [apply Hb; set_solver | set_solver].
    + intros Hin. apply elem_of_union in Hin as [Hin | Hin]; [|set_solver].
      destruct (HF1 l Hin) as [? | ?]; [set_solver | lia].
  - intros x Hx. apply elem_of_union in Hx as [Hx | Hx]; [left; set_solver|].
    apply elem_of_union in Hx as [Hx | Hx]; [|left; set_solver].
    destruct (HF1 x Hx); [left; set_solver | by right].
  - intros x Hx Hnin. apply Hsame; [done | set_solver].
Qed.

(** * The merge is the key-wise union *)

Lemma merge_items_nested l k U'' U h d l' :
  h !! l = Some d -> dict_get k d = Some (VDict l') ->
  merge_items l ((k, JDict U'') :: U) h =
    match merge_configs (JDict U'') h l' with
    | Some h1 => merge_items l U h1
    | None => None
    end.
Proof. intros Hl Ek. cbn [merge_items]. by rewrite Hl, Ek. Qed.

Lemma merge_items_assign l k uv U h d :
  h !! l = Some d ->
  (forall l', dict_get k d = Some (VDict l') -> is_dict uv = false) ->
  merge_items l ((k, uv) :: U) h =
    let '(v, h1) := alloc uv h in merge_items l U (store_set l k v h1).
Proof.
  intros Hl Hk. cbn [merge_items]. rewrite Hl.
  destruct (dict_get k d) as [[| | | | |l']|]; try done.
  specialize (Hk l' eq_refl). by destruct uv.
Qed.

Lemma unique_keys_get D k j :
  unique_keys (JDict D) = true -> dict_get k D = Some j -> unique_keys j = true.
Proof.
  intros [_ H]%unique_keys_dict Hk. apply dict_get_Some_In in Hk.
  rewrite Forall_forall in H. by apply (H (k, j)).
Qed.

Lemma merge_tree_seq D U :
  unique_keys (JDict D) = true -> unique_keys (JDict U) = true ->
  merge_tree (JDict D) (JDict U) = JDict (merge_seq D U).
Proof.
  intros [HD _]%unique_keys_dict [HU _]%unique_keys_dict.
  rewrite merge_tree_dict. by destruct (merge_seq_union U D HD HU) as [-> _].
Qed.

Lemma merge_items_tree U :
  Forall (fun kv => forall h l D F U',
            snd kv = JDict U' -> unique_keys (snd kv) = true ->
            unique_keys (JDict D) = true -> tree_at h (VDict l) (JDict D) F ->
            exists h' F', merge_configs (snd kv) h l = Some h' /\
              merged_into h l F h' (merge_seq D U') F') U ->
  Forall (fun kv => unique_keys (snd kv) = true) U ->
  forall h l D F,
    unique_keys (JDict D) = true -> tree_at h (VDict l) (JDict D) F ->
    exists h' F', merge_items l U h = Some h' /\ merged_into h l F h' (merge_seq D U) F'.
Proof.
  induction U as [|[k uv] U IH]; intros HIH HU h l D F HD Ht.
  - exists h, F. split; [done|]. by apply merged_into_refl.
  - apply Forall_cons in HIH as [Hsub HIH]. apply Forall_cons in HU as [Huv HU].
    cbn [snd] in Hsub, Huv.
    destruct (tree_at_dict_inv _ _ _ _ Ht) as (d & D0 & F0 & HD0 & Hl & Hit & Hnot & HF).
    symmetry in HD0. simplify_eq.
    assert (exists h1 F1,
      (forall r, merge_items l U h1 = r -> merge_items l ((k, uv) :: U) h = r) /\
      merged_into h l ({[l]} ∪ F0) h1 (merge_item D (k, uv)) F1)
      as (h1 & F1 & Hstep & Hm1).
    { destruct (dict_get k d) as [v|] eqn:Ek.
      - assert ((exists l' U'', v = VDict l' /\ uv = JDict U'') \/
                ~ (exists l' U'', v = VDict l' /\ uv = JDict U''))
          as [(l' & U'' & -> & ->) | Hno].
        { destruct v, uv; try (right; by intros (? & ? & ? & ?)). left. eauto. }
        + destruct (merge_nested h l D _ d k l'
                      (fun h1 => merge_configs (JDict U'') h l' = Some h1)
                      (fun D' => merge_seq D' U'') Ht Hl Ek)
            as (D' & h1 & F1 & Hmc & HkD & Hm1).
          { intros D' Fk HkD Hsubtree.
            apply (Hsub h l' D' Fk U''); try done. by eapply unique_keys_get. }
          exists h1, F1. split.
          * intros r Hr. erewrite merge_items_nested by done. by rewrite Hmc.
          * unfold merge_item. simpl. rewrite HkD.
            rewrite merge_tree_seq; [done | by eapply unique_keys_get | done].
        + destruct (merge_assign h l D _ k uv Ht Huv) as (pv & h1 & F1 & Ha & Hm1).
          exists (store_set l k pv h1), F1. split.
          * intros r Hr. erewrite merge_items_assign; [by rewrite Ha | done |].
            intros l' Hl'. simplify_eq. destruct uv; try done.
            destruct Hno. eauto.
          * destruct (items_at_get _ _ _ _ _ _ Hit Ek) as (j & Fk & _ & Hj & Hv & _).
            unfold merge_item. simpl. rewrite Hj.
            rewrite merge_tree_override; [done|].
            destruct (is_dict uv) eqn:Eu; [|by rewrite andb_false_r].
            rewrite andb_true_r. eapply tree_at_leaf_inv; [done|].
            intros l' ->. destruct uv; try done. destruct Hno. eauto.
      - destruct (merge_assign h l D _ k uv Ht Huv) as (pv & h1 & F1 & Ha & Hm1).
        exists (store_set l k pv h1), F1. split.
        + intros r Hr. erewrite merge_items_assign; [by rewrite Ha | done |].
          intros l' Hl'. congruence.
        + unfold merge_item. simpl.
          by rewrite (items_at_get_None _ _ _ _ _ Hit Ek). }
    destruct Hm1 as (Ht1 & Hrest1).
    destruct (IH HIH HU h1 l (merge_item D (k, uv)) F1) as (h' & F' & Hmi & Hm2);
      [by apply unique_keys_merge_item | done |].
    exists h', F'. split; [by apply Hstep|].
    eapply merged_into_trans; [by split | done].
Qed.

Lemma merge_configs_tree u : forall h l D F U,
  u = JDict U -> unique_keys u = true ->
  unique_keys (JDict D) = true -> tree_at h (VDict l) (JDict D) F ->
  exists h' F', merge_configs u h l = Some h' /\ merged_into h l F h' (merge_seq D U) F'.
Proof.
  induction u as [u Hleaf|items IH] using json_ind'; intros h l D F U HU Hu HD Ht.
  - by subst.
  - simplify_eq. rewrite merge_configs_dict.
    apply unique_keys_dict in Hu as [_ Hu]. by apply merge_items_tree.
Qed.

(** * The configuration claims *)

(** C7.  For a tree of defaults and a tree of overrides whose dictionaries
    have distinct keys: [merge_configs], run on the defaults built in any
    store, succeeds, and the dictionary reads afterwards as the key-wise
    union [merge_tree] of the two trees.  In that union a key of the
    override alone has the value of the override, a key of the defaults
    alone keeps its value, and a key of both has the merge of the two values,
    which is the override unless both are dictionaries; an empty override
    leaves the defaults as they are; an override of one field that the
    defaults have gives that field its new value, and whatever is not on the
    way to that field reads as in the defaults. *)
Theorem merge_configs_union (defaults override : list (string * json)) (h : store) :
  unique_keys (JDict defaults) = true -> unique_keys (JDict override) = true ->
  exists d h1 h2 merged,
    alloc (JDict defaults) h = (VDict d, h1) /\
    merge_configs (JDict override) h1 d = Some h2 /\
    reify (S (json_depth merged)) h2 (VDict d) = Some merged /\
    merged = merge_tree (JDict defaults) (JDict override) /\
    (forall k,
       json_get merged [k] =
         match dict_get k override with
         | None => dict_get k defaults
         | Some uv =>
             Some match dict_get k defaults with
                  | Some dv => if is_dict dv && is_dict uv then merge_tree dv uv else uv
                  | None => uv
                  end
         end) /\
    (override = [] -> merged = JDict defaults) /\
    (forall path value old q,
       JDict override = single_override path value ->
       is_dict value = false -> is_dict old = false ->
       json_get (JDict defaults) path = Some old ->
       json_get merged path = Some value /\
       (~ q `prefix_of` path -> json_get merged q = json_get (JDict defaults) q)).
Proof.
  intros HD HU.
  destruct (alloc_tree (JDict defaults) h HD) as (v & ext & F & Ha & Ht & _).
  assert (exists d, v = VDict d) as [d ->].
  { rewrite alloc_dict in Ha. destruct (alloc_items defaults [] h). simplify_eq. eauto. }
  destruct (merge_configs_tree (JDict override) (h ++ ext) d defaults F override
              eq_refl HU HD Ht) as (h2 & F' & Hm & Ht2 & _).
  rewrite <- merge_tree_seq in Ht2 by done.
  exists d, (h ++ ext), h2, (merge_tree (JDict defaults) (JDict override)).
  split; [done|]. split; [done|]. split; [by eapply tree_at_reify|]. split; [done|].
  split; [|split].
  - intros k. rewrite merge_tree_dict. cbn [json_get]. rewrite dict_get_merge.
    destruct (dict_get k override) as [uv|]; [|by destruct (dict_get k defaults)].
    destruct (dict_get k defaults) as [dv|]; [|done].
    destruct (is_dict dv && is_dict uv) eqn:E; [done|]. by rewrite merge_tree_override.
  - intros ->. apply merge_tree_empty.
  - intros path value old q Ho Hv Hold Hget. rewrite Ho.
    apply (merge_tree_single path (JDict defaults) value old q); try done.
    intros ->. simpl in Ho. by subst.
Qed.

Lemma merge_configs_union_witness :
  exists d h1 h2 merged,
    alloc (JDict sample_defaults) [] = (VDict d, h1) /\
    merge_configs (JDict sample_override) h1 d = Some h2 /\
    reify (S (json_depth merged)) h2 (VDict d) = Some merged /\
    merged = merge_tree (JDict sample_defaults) (JDict sample_override) /\
    (forall k,
       json_get merged [k] =
         match dict_get k sample_override with
         | None => dict_get k sample_defaults
         | Some uv =>
             Some match dict_get k sample_defaults with
                  | Some dv => if is_dict dv && is_dict uv then merge_tree dv uv else uv
                  | None => uv
                  end
         end) /\
    (sample_override = [] -> merged = JDict sample_defaults) /\
    (forall path value old q,
       JDict sample_override = single_override path value ->
       is_dict value = false -> is_dict old = false ->
       json_get (JDict sample_defaults) path = Some old ->
       json_get merged path = Some value /\
       (~ q `prefix_of` path -> json_get merged q = json_get (JDict sample_defaults) q)).
Proof.
  apply (merge_configs_union sample_defaults sample_override []).
  - vm_compute. reflexivity.
  - vm_compute. reflexivity.
Defined.

(** The merged sample, computed by the code and read back. *)
Example merge_configs_sample :
  let '(v, h1) := alloc (JDict sample_defaults) [] in
  match v with
  | VDict d =>
      match merge_configs (JDict sample_override) h1 d with
      | Some h2 =>
          reify 4 h2 v =
            Some (JDict
              [("styles", JDict [("h1", JDict [("font_name", JStr "Arial");
                                               ("font_size", JNum 20)]);
                                 ("normal", JDict [("font_size", JNum 11)])]);
               ("document", JDict [("orientation", JStr "portrait")]);
               ("author", JStr "me")])
      | None => False
      end
  | _ => False
  end.
Proof. vm_compute. reflexivity. Qed.

(** C8 at a failing input: after a load with an override of the font size of
    [h1], the built-in defaults hold the new size, and so does the
    configuration of a later load without an override. *)
Lemma load_config_changes_defaults :
  let '(_, h, _) := load_config sample_files DEFAULT_CONFIG (Some "config.json") module_store in
  let '(config, h', _) := load_config sample_files DEFAULT_CONFIG None h in
  get_path module_store (VDict DEFAULT_CONFIG) ["styles"; "h1"; "font_size"] = Some (VNum 18) /\
  get_path h (VDict DEFAULT_CONFIG) ["styles"; "h1"; "font_size"] = Some (VNum 99) /\
  get_path h' (VDict config) ["styles"; "h1"; "font_size"] = Some (VNum 99).
Proof. vm_compute. repeat split. Qed.

(** C9, as the code has it.  When nothing is found at the path, or what is
    there cannot be loaded, [load_config] returns a new dictionary with the
    items of the defaults and changes nothing else in the store; it prints
    the two lines of the warning in the second case and nothing in the
    first. *)
Theorem load_config_recovers files defaults path h :
  path <> "" ->
  files path = Absent \/ (exists e, files path = Unloadable e) ->
  load_config files defaults (Some path) h =
    (length h, h ++ [default [] (h !! defaults)],
     match files path with
     | Unloadable e => load_warning e
     | _ => []
     end).
Proof.
  intros Hne Hf. unfold load_config, dict_copy.
  destruct path as [|c path]; [done|].
  by destruct Hf as [-> | [e ->]].
Qed.

Lemma load_config_recovers_witness :
  load_config sample_files DEFAULT_CONFIG (Some "broken.json") module_store =
    (length module_store, module_store ++ [default [] (module_store !! DEFAULT_CONFIG)],
     load_warning "Expecting value: line 1 column 1 (char 0)").
Proof.
  apply (load_config_recovers sample_files DEFAULT_CONFIG "broken.json" module_store).
  - discriminate.
  - right. eexists. reflexivity.
Defined.

(** C9 as stated fails: a path at which nothing is found gives no warning. *)
Lemma load_config_missing_is_silent :
  ~ (forall files defaults path h,
       files path = Absent ->
       snd (load_config files defaults (Some path) h) <> []).
Proof.
  intros H.
  by apply (H sample_files DEFAULT_CONFIG "missing.json" module_store eq_refl).
Qed.

(** * Greedy quantifiers *)

Section GreedyMore.
Context {R : Type}.

(** A greedy repetition takes the whole run of the class when the
    continuation accepts what follows the run. *)
Lemma rep_greedy_all p a s : forall hi pos (k : pystr -> nat -> option R) x,
  Forall (fun c => p c = true) a ->
  match s with [] => True | c :: _ => p c = false end ->
  match hi with Some b => length a <= b | None => True end ->
  k s (pos + length a) = Some x ->
  rep_greedy p (a ++ s) hi pos k = Some x.
Proof.
  induction a as [|c a IH]; intros hi pos k x Ha Hs Hhi Hk.
  - simpl in *. rewrite Nat.add_0_r in Hk.
    destruct s as [|c s]; [done|]. simpl. by rewrite Hs, andb_false_r.
  - inversion Ha as [|? ? Hc Ha']; subst. cbn [app rep_greedy].
    assert (budget_left hi = true) as ->.
    { destruct hi as [[|b]|]; simpl in *; [lia | done | done]. }
    rewrite Hc. cbn [andb].
    erewrite IH; [done | done | done | |].
    + destruct hi as [b|]; simpl in *; [lia | done].
    + simpl in Hk. by replace (S pos + length a) with (pos + S (length a)) by lia.
Qed.

(** What a greedy repetition gave to its continuation: a number of
    characters of the class within the budget. *)
Lemma rep_greedy_inv_run p : forall s hi pos (k : pystr -> nat -> option R) x,
  rep_greedy p s hi pos k = Some x ->
  exists n, n <= length s /\
    match hi with Some b => n <= b | None => True end /\
    Forall (fun c => p c = true) (take n s) /\
    k (drop n s) (pos + n) = Some x.
Proof.
  induction s as [|c s IH]; intros hi pos k x H.
  - exists 0. simpl in *. rewrite Nat.add_0_r.
    repeat split; [lia | by destruct hi; [lia|] | done | done].
  - cbn [rep_greedy] in H.
    destruct (budget_left hi && p c) eqn:E.
    + apply andb_true_iff in E as [Eb Ec].
      destruct (rep_greedy p s (budget_pred hi) (S pos) k) as [y|] eqn:E'.
      * simplify_eq. apply IH in E' as (n & Hn & Hb & Hp & Hk).
        exists (S n). simpl. repeat split; [lia | | by constructor |].
        -- destruct hi as [[|b]|]; simpl in *; [done | lia | done].
        -- by replace (pos + S n) with (S pos + n) by lia.
      * exists 0. simpl. rewrite Nat.add_0_r.
        repeat split; [lia | by destruct hi; [lia|] | done | done].
    + exists 0. simpl. rewrite Nat.add_0_r.
      repeat split; [lia | by destruct hi; [lia|] | done | done].
Qed.
End GreedyMore.

(** * The lines of the block loop, kind by kind *)

Lemma lstrip_by_blank p ws s :
  Forall (fun c => p c = true) ws -> lstrip_by p (ws ++ s) = lstrip_by p s.
Proof. induction 1 as [|c ws Hc _ IH]; [done|]. simpl. by rewrite Hc. Qed.

Lemma lstrip_by_snoc p a c :
  p c = false -> lstrip_by p (a ++ [c]) = lstrip_by p a ++ [c].
Proof.
  intros Hc. induction a as [|b a IH]; simpl; [by rewrite Hc|].
  destruct (p b); [done|]. done.
Qed.

Lemma rstrip_by_head p c s : p c = false -> exists tl, rstrip_by p (c :: s) = c :: tl.
Proof.
  intros Hc. unfold rstrip_by. simpl. rewrite lstrip_by_snoc by done.
  rewrite rev_app_distr. simpl. eauto.
Qed.

Lemma strip_shape ws c s :
  blank ws -> is_space c = false -> exists tl, strip (ws ++ c :: s) = c :: tl.
Proof.
  intros Hws Hc. unfold strip, strip_by. rewrite lstrip_by_blank by done.
  simpl. rewrite Hc. by apply rstrip_by_head.
Qed.

Lemma strip_blank ws : blank ws -> strip ws = [].
Proof.
  intros Hws. unfold strip, strip_by.
  rewrite <- (app_nil_r ws), lstrip_by_blank by done. done.
Qed.

Lemma not_fence_shape ws c s :
  blank ws -> is_space c = false -> chr_eqb "`" c = false ->
  startswith (strip (ws ++ c :: s)) fence = false.
Proof.
  intros Hws Hc Hb. destruct (strip_shape ws c s Hws Hc) as [tl ->].
  unfold fence. cbn. by rewrite Hb.
Qed.

Lemma not_table_shape ws c s :
  blank ws -> is_space c = false -> chr_eqb "|" c = false ->
  is_table_line (ws ++ c :: s) = false.
Proof.
  intros Hws Hc Hb. unfold is_table_line.
  destruct (strip_shape ws c s Hws Hc) as [tl ->]. cbn. by rewrite Hb.
Qed.

Lemma hashes_S n : hashes (S n) = "#"%char :: hashes n.
Proof. done. Qed.

Lemma Forall_hashes n : Forall (fun c => chr_eqb "#" c = true) (hashes n).
Proof. induction n; by constructor. Qed.

Lemma length_hashes n : length (hashes n) = n.
Proof. apply length_replicate. Qed.

Lemma space_not_hash c : is_space c = true -> chr_eqb "#" c = false.
Proof. intros H. by apply space_row_start in H as (? & _). Qed.

(** The heading pattern on a run of one to six number signs, white space
    and a title. *)
Lemma match_header n ws title :
  1 <= n <= 6 -> ws <> [] -> blank ws -> starts_text title -> one_line title ->
  re_match header_re (hashes n ++ ws ++ title) =
    Some (MkMatch 0 (n + length ws + length title) [(2, title); (1, hashes n)]).
Proof.
  intros Hn Hne Hws Ht Hl.
  destruct n as [|n]; [lia|]. destruct ws as [|w ws]; [done|]. clear Hne.
  destruct title as [|c title]; [done|]. simpl in Ht.
  inversion Hws as [|? ? Hw Hws']; subst.
  inversion Hl as [|? ? Hc Hl']; subst.
  unfold re_match, match_at, header_re.
  cbn [rseq rmatch Nat.eqb]. rewrite hashes_S. cbn [app rep_exact].
  chr_compute. cbn iota.
  erewrite rep_greedy_all;
    [reflexivity | apply Forall_hashes | cbn; by apply space_not_hash
    | rewrite length_hashes; cbn; lia |].
  cbn [app rep_exact]. rewrite Hw.
  erewrite rep_greedy_all; [reflexivity | exact Hws' | exact Ht | done |].
  cbn [rmatch rep_exact]. rewrite Hc.
  rewrite <- (app_nil_r title) at 1.
  erewrite rep_greedy_all; [reflexivity | exact Hl' | done | done |].
  cbn [rmatch]. rewrite !length_hashes. f_equal. f_equal.
  - simpl. lia.
  - f_equal; f_equal.
    + apply take_ge. simpl. lia.
    + replace (1 + n - 0) with (S n) by lia. cbn [firstn].
      by rewrite take_app_length' by (symmetry; apply length_hashes).
Qed.

(** What the characters of each class are not. *)

Lemma space_other c : is_space c = true -> other_start c /\ one_of (py "*-+") c = false /\ is_digit c = false.
Proof.
  destruct c as [[] [] [] [] [] [] [] []]; intros H; vm_compute in H;
    try discriminate H; by vm_compute.
Qed.

Lemma digit_other c : is_digit c = true -> other_start c /\ one_of (py "*-+") c = false /\ is_space c = false.
Proof.
  destruct c as [[] [] [] [] [] [] [] []]; intros H; vm_compute in H;
    try discriminate H; by vm_compute.
Qed.

Lemma bullet_other c : one_of (py "*-+") c = true -> other_start c /\ is_space c = false.
Proof.
  destruct c as [[] [] [] [] [] [] [] []]; intros H; vm_compute in H;
    try discriminate H; by vm_compute.
Qed.

Lemma text_start_other c :
  text_start c = true ->
  other_start c /\ one_of (py "*-+") c = false /\ is_digit c = false /\ is_space c = false.
Proof.
  destruct c as [[] [] [] [] [] [] [] []]; intros H; vm_compute in H;
    try discriminate H; by vm_compute.
Qed.

Lemma header_none_first c s : chr_eqb "#" c = false -> re_match header_re (c :: s) = None.
Proof.
  intros H. unfold re_match, match_at, header_re. cbn [rseq rmatch rep_exact Nat.eqb].
  by rewrite H.
Qed.

Lemma header_none_nil : re_match header_re [] = None.
Proof. done. Qed.

Lemma image_none_first c s : chr_eqb "!" c = false -> re_match image_re (c :: s) = None.
Proof.
  intros H. unfold re_match, match_at, image_re. cbn [rseq rmatch]. by rewrite H.
Qed.

(** The list item pattern fails on white space followed by a character that
    is neither a bullet nor a digit, and on white space alone. *)
Lemma list_none_shape ws s :
  blank ws ->
  match s with
  | [] => True
  | c :: _ => is_space c = false /\ one_of (py "*-+") c = false /\ is_digit c = false
  end ->
  re_match list_re (ws ++ s) = None.
Proof.
  intros Hws Hs.
  unfold re_match, match_at, list_re. cbn [rseq rmatch rep_exact Nat.eqb].
  apply rep_greedy_none; [done | by destruct s as [|c s]; [|destruct Hs] |].
  intros i Hi.
  assert (drop i (ws ++ s) = [] \/
          exists c tl', drop i (ws ++ s) = c :: tl' /\
            one_of (py "*-+") c = false /\ is_digit c = false) as [-> | (c & tl' & -> & Hm & Hd)].
  { destruct (decide (i = length ws)) as [-> | Hne].
    - rewrite drop_app_length. destruct s as [|c s]; [by left|].
      right. destruct Hs as (_ & ? & ?). eauto.
    - right. destruct (lookup_lt_is_Some_2 ws i ltac:(lia)) as [c Hc].
      rewrite drop_app_le by lia. rewrite (drop_S ws c i Hc).
      eapply (Forall_lookup_1 _ ws i c) in Hws; [|done].
      apply space_other in Hws as (_ & ? & ?). eauto. }
  - done.
  - cbn [rmatch rep_exact]. by rewrite Hm, Hd.
Qed.

Lemma strip_nonempty ws c s : blank ws -> is_space c = false -> strip (ws ++ c :: s) <> [].
Proof. intros Hws Hc. by destruct (strip_shape ws c s Hws Hc) as [tl ->]. Qed.

(** The iteration on a line that is no fence, no heading, no list item, no
    table line and no image: a paragraph of its runs, or the [ValueError]
    of a run that the library refuses. *)
Lemma loop_body_paragraph cfg ws c s rest st doc :
  in_code_block st = false ->
  blank ws -> is_space c = false ->
  chr_eqb "`" c = false -> chr_eqb "|" c = false -> chr_eqb "!" c = false ->
  one_of (py "*-+") c = false -> is_digit c = false ->
  re_match header_re (ws ++ c :: s) = None ->
  loop_body cfg (ws ++ c :: s) rest st doc =
    obind (of_fuel (format_runs (ws ++ c :: s)))
      (fun formatted_runs =>
         if xml_runs formatted_runs
         then Ok (rest, st, doc ++ [Paragraph formatted_runs]) else ValueError).
Proof.
  intros Hst Hws Hc Hb Hbar Hbang Hm Hd Hh. unfold loop_body.
  rewrite not_fence_shape, Hst, Hh by done. cbn [negb].
  rewrite list_none_shape by done.
  rewrite not_table_shape by done.
  assert (re_match image_re (ws ++ c :: s) = None) as ->.
  { destruct ws as [|w ws]; simpl; apply image_none_first; [done|].
    inversion Hws; subst. by apply space_other in H1 as ([] & _). }
  destruct (strip (ws ++ c :: s)) eqn:E; [by apply strip_nonempty in E|].
  destruct (format_runs (ws ++ c :: s)) as [runs|]; [|done].
  cbn [of_fuel obind]. rewrite add_units_paragraph. by destruct (xml_runs runs).
Qed.

(** * Headings *)

Lemma drop_hashes k n s : k <= n -> drop k (hashes n ++ s) = hashes (n - k) ++ s.
Proof.
  intros Hk. rewrite drop_app_le by (rewrite length_hashes; lia).
  unfold hashes. by rewrite drop_replicate.
Qed.

(** With seven number signs or more the heading pattern fails: after at
    most six of them the next character is a number sign. *)
Lemma header_none_many n s : 7 <= n -> re_match header_re (hashes n ++ s) = None.
Proof.
  intros Hn. destruct (re_match header_re (hashes n ++ s)) as [m|] eqn:E; [|done].
  exfalso. destruct n as [|n]; [lia|].
  unfold re_match, match_at, header_re in E.
  cbn [rseq rmatch Nat.eqb] in E. rewrite hashes_S in E. cbn [app rep_exact] in E.
  revert E. chr_compute. cbn iota. intros E.
  apply rep_greedy_inv_run in E as (k & _ & Hk & _ & E). cbn in Hk.
  rewrite drop_hashes in E by lia.
  destruct (n - k) as [|j] eqn:Ej; [lia|]. by rewrite hashes_S in E.
Qed.

(** Number signs that are not followed by white space: the heading pattern
    fails. *)
Lemma header_none_no_space n s :
  match s with
  | [] => True
  | c :: _ => chr_eqb "#" c = false /\ is_space c = false
  end ->
  re_match header_re (hashes n ++ s) = None.
Proof.
  intros Hs. destruct (re_match header_re (hashes n ++ s)) as [m|] eqn:E; [|done].
  exfalso. destruct n as [|n].
  - destruct s as [|c s]; [done|]. destruct Hs as [Hc _].
    simpl in E. by rewrite header_none_first in E.
  - unfold re_match, match_at, header_re in E.
    cbn [rseq rmatch Nat.eqb] in E. rewrite hashes_S in E. cbn [app rep_exact] in E.
    revert E. chr_compute. cbn iota. intros E.
    apply rep_greedy_inv_run in E as (k & Hlen & _ & Hp & E).
    destruct (decide (k <= n)) as [Hk | Hk].
    + rewrite drop_hashes in E by lia.
      destruct (n - k) as [|j] eqn:Ej.
      * simpl in E. destruct s as [|c s]; [done|]. destruct Hs as [_ Hc].
        cbn [rmatch rep_exact] in E. by rewrite Hc in E.
      * by rewrite hashes_S in E.
    + destruct s as [|c s].
      * rewrite length_app, length_hashes in Hlen. simpl in Hlen. lia.
      * destruct Hs as [Hc _].
        eapply (Forall_lookup_1 _ _ n c) in Hp; [congruence|].
        rewrite lookup_take_lt by lia.
        rewrite lookup_app_r by (rewrite length_hashes; lia).
        rewrite length_hashes. by replace (n - n) with 0 by lia.
Qed.

Lemma hashes_paragraph cfg n s rest st doc :
  in_code_block st = false -> 1 <= n ->
  re_match header_re (hashes n ++ s) = None ->
  loop_body cfg (hashes n ++ s) rest st doc =
    obind (of_fuel (format_runs (hashes n ++ s)))
      (fun formatted_runs =>
         if xml_runs formatted_runs
         then Ok (rest, st, doc ++ [Paragraph formatted_runs]) else ValueError).
Proof.
  intros Hst Hn Hh. destruct n as [|n]; [lia|]. rewrite hashes_S in *.
  apply (loop_body_paragraph cfg [] "#" (hashes n ++ s)); try done. constructor.
Qed.

Lemma no_opener_hashes n : no_opener (hashes n).
Proof. induction n; by constructor. Qed.

Lemma format_runs_plain p : no_opener p -> format_runs p = Some (plain_run p).
Proof. intros Hp. unfold format_runs. by rewrite format_loop_plain. Qed.

Lemma loop_body_heading cfg n ws title rest st doc :
  in_code_block st = false ->
  1 <= n <= 6 -> ws <> [] -> blank ws -> starts_text title -> one_line title ->
  loop_body cfg (hashes n ++ ws ++ title) rest st doc =
    if xml_text (strip title)
    then Ok (rest, st, doc ++ [Heading n (strip title) (has_heading_style cfg n)])
    else ValueError.
Proof.
  intros Hst Hn Hne Hws Ht Hl. unfold loop_body.
  assert (startswith (strip (hashes n ++ ws ++ title)) fence = false) as ->.
  { destruct n as [|n]; [lia|]. rewrite hashes_S.
    apply (not_fence_shape [] "#" (hashes n ++ ws ++ title)); try done. constructor. }
  rewrite Hst. cbn [negb]. rewrite match_header by done.
  rewrite add_units_heading. unfold m_group. cbn. rewrite length_hashes.
  unfold xml_text, strip, strip_by, rstrip_by. by destruct (forallb _ _).
Qed.

(** X1.  Outside a code block, a line made of one to six number signs,
    white space and a title that starts with another character than white
    space is a heading: its level is the number of number signs, its text is
    the title without the white space at its end, and it is styled when the
    configuration has a style for the level.  That is so when the text of
    the heading holds no control character other than tab, line feed and
    carriage return; when it holds one, [doc.add_heading] raises
    [ValueError] and the iteration gives no heading. *)
Theorem heading_line_level cfg n ws title rest st doc :
  in_code_block st = false ->
  1 <= n <= 6 -> ws <> [] -> blank ws -> starts_text title -> one_line title ->
  loop_body cfg (hashes n ++ ws ++ title) rest st doc =
    if xml_text (strip title)
    then Ok (rest, st, doc ++ [Heading n (strip title) (has_heading_style cfg n)])
    else ValueError.
Proof. apply loop_body_heading. Qed.

Lemma heading_line_level_witness :
  loop_body default_render_config (py "###  Scope and limits ") [py "text"] initial_state [] =
    Ok ([py "text"], initial_state, [Heading 3 (py "Scope and limits") true]).
Proof.
  apply (heading_line_level default_render_config 3 (py "  ") (py "Scope and limits ")).
  - reflexivity.
  - lia.
  - discriminate.
  - repeat constructor.
  - reflexivity.
  - repeat constructor.
Defined.

(** X2.  Outside a code block, a line that starts with seven number signs
    or more is no heading: it is a paragraph whose runs are those of the
    whole line, number signs included; when the rest of the line holds none
    of the characters at which a span starts, that is one run of plain
    text.  When a run holds a control character other than tab, line feed
    and carriage return, [p.add_run] raises [ValueError] and the iteration
    gives no paragraph. *)
Theorem seven_hashes_is_paragraph cfg n s rest st doc :
  in_code_block st = false -> 7 <= n ->
  exists runs,
    format_runs (hashes n ++ s) = Some runs /\
    loop_body cfg (hashes n ++ s) rest st doc =
      (if xml_runs runs then Ok (rest, st, doc ++ [Paragraph runs]) else ValueError) /\
    (no_opener s -> runs = [(normal, hashes n ++ s)]).
Proof.
  intros Hst Hn.
  destruct (format_runs_total (hashes n ++ s)) as [runs Hruns].
  exists runs. split; [done|]. split.
  - rewrite hashes_paragraph; [by rewrite Hruns | done | lia | by apply header_none_many].
  - intros Hs. rewrite format_runs_plain in Hruns.
    + destruct n as [|n]; [lia|]. rewrite hashes_S in *.
      cbn [app plain_run] in Hruns. by simplify_eq.
    + apply Forall_app. split; [apply no_opener_hashes | done].
Qed.

Lemma seven_hashes_is_paragraph_witness :
  exists runs,
    format_runs (py "####### deep") = Some runs /\
    loop_body default_render_config (py "####### deep") [] initial_state [] =
      (if xml_runs runs then Ok ([], initial_state, [Paragraph runs]) else ValueError) /\
    (no_opener (py " deep") -> runs = [(normal, py "####### deep")]).
Proof.
  apply (seven_hashes_is_paragraph default_render_config 7 (py " deep")).
  - reflexivity.
  - lia.
Defined.

(** X3.  Outside a code block, number signs that are followed by a
    character that is neither a number sign nor white space, or by nothing,
    are no heading whatever their number: the line is a paragraph whose runs
    are those of the whole line.  When a run holds a control character other
    than tab, line feed and carriage return, [p.add_run] raises [ValueError]
    and the iteration gives no paragraph. *)
Theorem hashes_without_space_is_paragraph cfg n s rest st doc :
  in_code_block st = false -> 1 <= n ->
  match s with
  | [] => True
  | c :: _ => chr_eqb "#" c = false /\ is_space c = false
  end ->
  exists runs,
    format_runs (hashes n ++ s) = Some runs /\
    loop_body cfg (hashes n ++ s) rest st doc =
      if xml_runs runs then Ok (rest, st, doc ++ [Paragraph runs]) else ValueError.
Proof.
  intros Hst Hn Hs.
  destruct (format_runs_total (hashes n ++ s)) as [runs Hruns].
  exists runs. split; [done|].
  rewrite hashes_paragraph; [by rewrite Hruns | done | done | by apply header_none_no_space].
Qed.

Lemma hashes_without_space_is_paragraph_witness :
  exists runs,
    format_runs (py "#tag") = Some runs /\
    loop_body default_render_config (py "#tag") [] initial_state [] =
      if xml_runs runs then Ok ([], initial_state, [Paragraph runs]) else ValueError.
Proof.
  apply (hashes_without_space_is_paragraph default_render_config 1 (py "tag")).
  - reflexivity.
  - lia.
  - split; reflexivity.
Defined.

(** * List items *)

Lemma marker_text_cons m : marker_ok m -> exists c tl,
  marker_text m = c :: tl /\ other_start c /\ is_space c = false.
Proof.
  destruct m as [c | ds]; simpl.
  - intros H. apply bullet_other in H as [? ?]. eauto.
  - intros [Hne Hds]. destruct ds as [|d ds]; [done|].
    inversion Hds as [|? ? Hd _]; subst.
    apply digit_other in Hd as (? & _ & ?). simpl. eauto.
Qed.

(** The list item pattern on white space, a marker, white space and a
    content. *)
Lemma match_list ws m sp content :
  blank ws -> marker_ok m -> sp <> [] -> blank sp ->
  starts_text content -> one_line content ->
  re_match list_re (ws ++ marker_text m ++ sp ++ content) =
    Some (MkMatch 0 (length ws + length (marker_text m) + length sp + length content)
            [(3, content); (2, marker_text m); (1, ws)]).
Proof.
  intros Hws Hm Hne Hsp Ht Hl.
  destruct sp as [|w sp]; [done|]. clear Hne.
  destruct content as [|c content]; [done|]. simpl in Ht.
  inversion Hsp as [|? ? Hw Hsp']; subst.
  inversion Hl as [|? ? Hc Hl']; subst.
  unfold re_match, match_at, list_re.
  cbn [rseq rmatch rep_exact Nat.eqb].
  destruct (marker_text_cons m Hm) as (c0 & tl0 & E0 & _ & Hc0).
  erewrite rep_greedy_all;
    [reflexivity | exact Hws | by rewrite E0 | done |].
  destruct m as [b | ds]; cbn [marker_text marker_ok] in *.
  - cbn [app]. rewrite Hm, Hw.
    erewrite rep_greedy_all; [reflexivity | exact Hsp' | exact Ht | done |].
    cbn beta iota. rewrite Hc.
    rewrite <- (app_nil_r content) at 1.
    erewrite rep_greedy_all; [reflexivity | exact Hl' | done | done |].
    cbn beta iota. f_equal. f_equal; [simpl; lia|]. f_equal; [|f_equal]; f_equal.
    + apply take_ge. simpl. lia.
    + by replace (S (0 + length ws) - (0 + length ws)) with 1 by lia.
    + replace (0 + length ws - 0) with (length ws) by lia. by rewrite take_app_length.
  - destruct Hm as [Hne Hds]. destruct ds as [|d ds]; [done|].
    inversion Hds as [|? ? Hd Hds']; subst.
    pose proof (digit_other d Hd) as (_ & Hb & _).
    cbn [app]. rewrite Hb, Hd. rewrite <- app_assoc.
    erewrite rep_greedy_all; [reflexivity | exact Hds' | by cbn | done |].
    cbn [app py list_ascii_of_string]. chr_compute. cbn beta iota. rewrite Hw.
    erewrite rep_greedy_all; [reflexivity | exact Hsp' | exact Ht | done |].
    cbn beta iota. rewrite Hc.
    rewrite <- (app_nil_r content) at 1.
    erewrite rep_greedy_all; [reflexivity | exact Hl' | done | done |].
    cbn beta iota. f_equal.
    f_equal; [rewrite !length_cons, ?length_app; simpl; lia|].
    f_equal; [|f_equal]; f_equal.
    + apply take_ge. simpl. lia.
    + replace (S (S (0 + length ws) + length ds) - (0 + length ws))
        with (length (d :: ds ++ ["."%char]))
        by (rewrite length_cons, length_app; simpl; lia).
      change (d :: ds ++ "."%char :: w :: sp ++ c :: content)
        with ((d :: ds) ++ ["."%char] ++ w :: sp ++ c :: content).
      rewrite (app_assoc (d :: ds)). by rewrite take_app_length.
    + replace (0 + length ws - 0) with (length ws) by lia. by rewrite take_app_length.
Qed.

Lemma marker_list_type m :
  marker_ok m ->
  (if existsb (pystr_eqb (marker_text m)) [py "*"; py "-"; py "+"] then ul else ol)
    = marker_type m.
Proof.
  destruct m as [c | ds]; simpl.
  - destruct c as [[] [] [] [] [] [] [] []]; intros H; vm_compute in H;
      try discriminate H; by vm_compute.
  - intros [Hne _]. destruct ds as [|d [|d' ds]]; [done | |];
      unfold pystr_eqb; simpl; by rewrite !bool_decide_eq_false_2.
Qed.

(** X4.  Outside a code block, a line made of white space, a list marker,
    white space and a content that starts with another character than white
    space is a list item: a bullet item for the markers [*], [-] and [+], a
    numbered item for digits and a full stop; its level is half the number
    of white space characters before the marker, rounded down; its runs are
    those of the content.  When a run holds a control character other than
    tab, line feed and carriage return, [p.add_run] raises [ValueError] and
    the iteration gives no list item. *)
Theorem list_item_line cfg ws m sp content rest st doc :
  in_code_block st = false ->
  blank ws -> marker_ok m -> sp <> [] -> blank sp ->
  starts_text content -> one_line content ->
  exists runs,
    format_runs content = Some runs /\
    loop_body cfg (ws ++ marker_text m ++ sp ++ content) rest st doc =
      if xml_runs runs
      then Ok (rest, st, doc ++ [ListParagraph (marker_type m) (length ws / 2) runs])
      else ValueError.
Proof.
  intros Hst Hws Hm Hne Hsp Ht Hl.
  destruct (format_runs_total content) as [runs Hruns].
  exists runs. split; [done|]. unfold loop_body.
  destruct (marker_text_cons m Hm) as (c0 & tl0 & E0 & [Hh Hb _ _] & Hc0).
  assert (startswith (strip (ws ++ marker_text m ++ sp ++ content)) fence = false) as ->.
  { rewrite E0. by apply not_fence_shape. }
  rewrite Hst. cbn [negb].
  assert (re_match header_re (ws ++ marker_text m ++ sp ++ content) = None) as ->.
  { rewrite E0. destruct ws as [|w ws]; simpl; apply header_none_first; [done|].
    inversion Hws; subst. by apply space_not_hash. }
  rewrite match_list by done. unfold m_group. cbn [m_groups group_lookup Nat.eqb default from_option id].
  rewrite Hruns. cbn [of_fuel obind]. rewrite marker_list_type by done.
  rewrite add_units_list. by destruct (xml_runs runs).
Qed.

Lemma list_item_line_witness :
  exists runs,
    format_runs (py "second *level*") = Some runs /\
    loop_body default_render_config (py "     12.  second *level*") [] initial_state [] =
      if xml_runs runs then Ok ([], initial_state, [ListParagraph ol 2 runs])
      else ValueError.
Proof.
  apply (list_item_line default_render_config (py "     ") (Number (py "12")) (py "  ")
           (py "second *level*")).
  - reflexivity.
  - repeat constructor.
  - split; [discriminate | repeat constructor].
  - discriminate.
  - repeat constructor.
  - reflexivity.
  - repeat constructor.
Defined.

(** * Blank lines, images and paragraphs *)

(** X5.  Outside a code block, a line of white space only, the empty line
    included, adds one empty paragraph. *)
Theorem blank_line_is_empty_paragraph cfg line rest st doc :
  in_code_block st = false -> blank line ->
  loop_body cfg line rest st doc = Ok (rest, st, doc ++ [EmptyParagraph]).
Proof.
  intros Hst Hline. unfold loop_body, is_table_line.
  rewrite (strip_blank line Hline), Hst. cbn [startswith fence py list_ascii_of_string negb andb].
  assert (re_match header_re line = None) as ->.
  { destruct line as [|c line]; [done|]. apply header_none_first.
    inversion Hline; subst. by apply space_not_hash. }
  assert (re_match list_re line = None) as ->.
  { rewrite <- (app_nil_r line). by apply list_none_shape. }
  assert (re_match image_re line = None) as ->.
  { destruct line as [|c line]; [done|]. apply image_none_first.
    inversion Hline as [|? ? Hc _]; subst. by apply space_other in Hc as ([] & _). }
  done.
Qed.

Lemma blank_line_is_empty_paragraph_witness :
  loop_body default_render_config (py "   ") [py "next"] initial_state [] =
    Ok ([py "next"], initial_state, [EmptyParagraph]).
Proof.
  apply (blank_line_is_empty_paragraph default_render_config (py "   ")).
  - reflexivity.
  - repeat constructor.
Defined.

Lemma drop_Forall {A} (P : A -> Prop) a s i :
  Forall P a -> i < length a ->
  exists c tl, drop i (a ++ s) = c :: tl ++ s /\ P c.
Proof.
  intros Ha Hi. destruct (lookup_lt_is_Some_2 a i Hi) as [c Hc].
  exists c, (drop (S i) a). split.
  - rewrite drop_app_le by lia. by rewrite (drop_S a c i Hc).
  - by eapply Forall_lookup_1.
Qed.

Lemma without_dot x t : without x t -> Forall (fun c => dot c = true) t.
Proof. intros H. eapply Forall_impl; [exact H|]. by intros c [_ ?]. Qed.

(** The image pattern at the start of a line. *)
Lemma match_image alt path trailing :
  without "]" alt -> without ")" path ->
  re_match image_re (py "![" ++ alt ++ py "](" ++ path ++ py ")" ++ trailing) =
    Some (MkMatch 0 (length (py "![" ++ alt ++ py "](" ++ path ++ py ")"))
            [(2, path); (1, alt)]).
Proof.
  intros Ha Hp. unfold re_match, match_at, image_re.
  cbn [rseq py list_ascii_of_string rmatch rep_exact lazy_dots app];
    chr_compute; cbn iota.
  rewrite rep_lazy_skip; [| by eapply without_dot |]; cycle 1.
  { intros i Hi.
    match goal with
    | |- context [drop i (alt ++ ?s)] =>
        destruct (drop_Forall _ alt s i Ha Hi) as (c & tl & -> & Hc & _)
    end.
    by rewrite Hc. }
  erewrite rep_lazy_hit; cycle 1.
  { chr_compute. cbn iota.
    rewrite rep_lazy_skip; [| by eapply without_dot |]; cycle 1.
    { intros i Hi.
      match goal with
      | |- context [drop i (path ++ ?s)] =>
          destruct (drop_Forall _ path s i Hp Hi) as (c & tl & -> & Hc & _)
      end.
      by rewrite Hc. }
    erewrite rep_lazy_hit; [reflexivity|].
    chr_compute. cbn iota. reflexivity. }
  f_equal. f_equal.
  - cbn [length]. rewrite length_app. cbn [length]. rewrite length_app. cbn [length]. lia.
  - f_equal; [|f_equal]; f_equal.
    + replace (S (S (2 + length alt)) + length path - S (S (2 + length alt)))
        with (length path) by lia.
      by rewrite take_app_length.
    + replace (2 + length alt - 2) with (length alt) by lia.
      by rewrite take_app_length.
Qed.

(** X6.  Outside a code block, a line that starts with an image directive
    hands the alternative text and the path of the directive to
    [add_image_to_doc]; whatever follows the closing parenthesis on the line
    is left out of the document. *)
Theorem image_line_directive cfg alt path trailing rest st doc :
  in_code_block st = false -> without "]" alt -> without ")" path ->
  loop_body cfg (py "![" ++ alt ++ py "](" ++ path ++ py ")" ++ trailing) rest st doc =
    Ok (rest, st, doc ++ [ImageDirective alt path]).
Proof.
  intros Hst Ha Hp. unfold loop_body.
  rewrite match_image by done.
  remember (alt ++ py "](" ++ path ++ py ")" ++ trailing) as s eqn:Es. clear Es.
  cbn [py list_ascii_of_string app].
  pose proof (not_fence_shape [] "!" ("["%char :: s)) as H1.
  pose proof (list_none_shape [] ("!"%char :: "["%char :: s)) as H2.
  pose proof (not_table_shape [] "!" ("["%char :: s)) as H3.
  cbn [app] in H1, H2, H3.
  rewrite H1, Hst by (done || constructor).
  cbn [negb]. rewrite header_none_first by done.
  rewrite H2 by (done || constructor).
  rewrite H3 by (done || constructor).
  done.
Qed.

Lemma image_line_directive_witness :
  loop_body default_render_config (py "![Figure (a)](img/my_plot.png) see above") []
      initial_state [] =
    Ok ([], initial_state, [ImageDirective (py "Figure (a)") (py "img/my_plot.png")]).
Proof.
  apply (image_line_directive default_render_config (py "Figure (a)") (py "img/my_plot.png")
           (py " see above")).
  - reflexivity.
  - repeat constructor.
  - repeat constructor.
Defined.

(** X7.  Outside a code block, a line whose first character after optional
    white space starts no block construct, and which is made of well-formed
    spans and of text around them without any of the four characters at
    which a span starts, is one paragraph: its runs are the texts around the
    spans as plain runs and the spans as typed runs, in the order of the
    line.  When one of these runs holds a control character other than tab,
    line feed and carriage return, [p.add_run] raises [ValueError] and the
    iteration gives no paragraph. *)
Theorem paragraph_line cfg ws c s chunks tail rest st doc :
  in_code_block st = false ->
  blank ws -> text_start c = true ->
  ws ++ c :: s = line_source chunks tail ->
  Forall well_formed_chunk chunks -> no_opener tail ->
  loop_body cfg (ws ++ c :: s) rest st doc =
    if xml_runs (line_runs chunks tail)
    then Ok (rest, st, doc ++ [Paragraph (line_runs chunks tail)])
    else ValueError.
Proof.
  intros Hst Hws Hc E Hchunks Htail.
  apply text_start_other in Hc as ([Hh Hb Hbar Hbang] & Hm & Hd & Hsp).
  rewrite loop_body_paragraph; try done.
  - by rewrite E, format_runs_chunks.
  - destruct ws as [|w ws]; simpl; apply header_none_first; [done|].
    inversion Hws; subst. by apply space_not_hash.
Qed.

Lemma paragraph_line_witness :
  loop_body default_render_config (py "  Some **bold** and `code`.") [] initial_state [] =
    Ok ([], initial_state,
        [Paragraph [(normal, py "  Some "); (bold, py "bold"); (normal, py " and ");
                    (code, py "code"); (normal, py ".")]]).
Proof.
  apply (paragraph_line default_render_config (py "  ") "S" (py "ome **bold** and `code`.")
           [(py "  Some ", IBold "*" (py "bold")); (py " and ", ICode (py "code"))]
           (py ".")).
  - reflexivity.
  - repeat constructor.
  - reflexivity.
  - reflexivity.
  - repeat constructor; by left.
  - repeat constructor.
Defined.

(** * The block loop as a whole *)

Lemma collect_table_lines_app lines rest :
  ends_run rest ->
  collect_table_lines (lines ++ rest) =
    (fst (collect_table_lines lines), snd (collect_table_lines lines) ++ rest).
Proof.
  intros Hrest. induction lines as [|l lines IH]; simpl.
  - destruct rest as [|l rest]; [done|]. simpl in *. by rewrite Hrest.
  - destruct (is_table_line l); [|done]. rewrite IH.
    by destruct (collect_table_lines lines).
Qed.

(** One iteration does not look at the lines after a run of table lines. *)
Lemma loop_body_app cfg line lines rest st doc :
  ends_run rest ->
  loop_body cfg line (lines ++ rest) st doc =
    obind (loop_body cfg line lines st doc)
      (fun '(lines', st', doc') => Ok (lines' ++ rest, st', doc')).
Proof.
  intros Hrest. unfold loop_body.
  destruct (startswith (strip line) fence).
  { destruct (negb (in_code_block st)); [done|]. by destruct (add_units _ _). }
  destruct (in_code_block st); [done|].
  destruct (re_match header_re line); [by destruct (add_units _ _)|].
  destruct (re_match list_re line).
  { destruct (format_runs _); [|done]. cbn [of_fuel obind]. by destruct (add_units _ _). }
  destruct (is_table_line line) eqn:El.
  - rewrite app_comm_cons, collect_table_lines_app by done.
    destruct (collect_table_lines (line :: lines)) as [table_lines rest'].
    cbn [fst snd]. destruct (3 <=? length table_lines); [|done].
    rewrite build_table_spec. cbn [of_index obind]. by destruct (add_units _ _).
  - destruct (re_match image_re line); [done|].
    destruct (strip line); [done|]. destruct (format_runs _); [|done].
    cbn [of_fuel obind]. by destruct (add_units _ _).
Qed.

Lemma convert_from_app_fuel cfg n : forall lines rest st doc,
  length lines <= n -> ends_run rest ->
  convert_from cfg (lines ++ rest) st doc =
    obind (convert_from cfg lines st doc) (fun '(doc', st') => convert_from cfg rest st' doc').
Proof.
  induction n as [|n IH]; intros lines rest st doc Hn Hrest.
  - destruct lines; [|simpl in Hn; lia]. by rewrite convert_from_nil.
  - destruct lines as [|line lines]; [by rewrite convert_from_nil|].
    rewrite <- app_comm_cons, !convert_from_cons, loop_body_app by done.
    destruct (loop_body cfg line lines st doc) as [[[lines' st'] doc']| | |] eqn:E; try done.
    cbn [obind]. apply IH; [|done].
    apply loop_body_shrinks in E. simpl in Hn. lia.
Qed.

(** The loop only adds to the document: a call of the library, one
    iteration, and the loop. *)
Lemma add_units_frame doc units :
  add_units doc units = obind (add_units [] units) (fun added => Ok (doc ++ added)).
Proof. unfold add_units. by destruct (forallb _ _). Qed.

Lemma loop_body_frame cfg line rest st doc :
  loop_body cfg line rest st doc =
    obind (loop_body cfg line rest st [])
      (fun '(lines', st', added) => Ok (lines', st', doc ++ added)).
Proof.
  unfold loop_body.
  destruct (startswith (strip line) fence).
  { destruct (negb (in_code_block st)); cbn [obind]; [by rewrite app_nil_r|].
    rewrite add_units_frame. by destruct (add_units [] _). }
  destruct (in_code_block st); [cbn [obind]; by rewrite app_nil_r|].
  destruct (re_match header_re line).
  { rewrite add_units_frame. by destruct (add_units [] _). }
  destruct (re_match list_re line).
  { destruct (format_runs _); [|done]. cbn [of_fuel obind].
    rewrite add_units_frame. by destruct (add_units [] _). }
  destruct (is_table_line line).
  - destruct (collect_table_lines (line :: rest)) as [table_lines rest'].
    destruct (3 <=? length table_lines); [|cbn [obind]; by rewrite app_nil_r].
    rewrite build_table_spec. cbn [of_index obind].
    rewrite add_units_frame. by destruct (add_units [] _).
  - destruct (re_match image_re line); [done|].
    destruct (strip line); [done|]. destruct (format_runs _); [|done].
    cbn [of_fuel obind]. rewrite add_units_frame. by destruct (add_units [] _).
Qed.

Lemma convert_from_frame_fuel cfg n : forall lines st doc added,
  length lines <= n ->
  convert_from cfg lines st (doc ++ added) =
    obind (convert_from cfg lines st added) (fun '(doc', st') => Ok (doc ++ doc', st')).
Proof.
  induction n as [|n IH]; intros lines st doc added Hn.
  - destruct lines; [|simpl in Hn; lia]. by rewrite !convert_from_nil.
  - destruct lines as [|line lines]; [by rewrite !convert_from_nil|].
    rewrite !convert_from_cons.
    rewrite (loop_body_frame cfg line lines st (doc ++ added)).
    rewrite (loop_body_frame cfg line lines st added).
    destruct (loop_body cfg line lines st []) as [[[lines' st'] doc']| | |] eqn:E; try done.
    cbn [obind]. rewrite <- app_assoc. apply IH.
    apply loop_body_shrinks in E. simpl in Hn. lia.
Qed.

Lemma convert_from_frame cfg lines st doc :
  convert_from cfg lines st doc =
    obind (convert_from cfg lines st []) (fun '(added, st') => Ok (doc ++ added, st')).
Proof.
  rewrite <- (app_nil_r doc) at 1.
  by apply (convert_from_frame_fuel cfg (length lines)).
Qed.

(** X8.  The loop can be cut before any line that is no table line: the
    conversion of the lines before the cut followed by the conversion of the
    lines after it, from the state and the document that the first part
    leaves, is the conversion of all the lines.  (A run of table lines is
    read as a whole, so a cut inside a run is another conversion.) *)
Theorem convert_from_cut cfg lines rest st doc :
  ends_run rest ->
  convert_from cfg (lines ++ rest) st doc =
    obind (convert_from cfg lines st doc) (fun '(doc', st') => convert_from cfg rest st' doc').
Proof. intros Hrest. by apply (convert_from_app_fuel cfg (length lines)). Qed.

Lemma convert_from_cut_witness :
  convert_from default_render_config
      (map py ["# A"; "|x|"] ++ map py ["text"; "|y|"]) initial_state [] =
    obind (convert_from default_render_config (map py ["# A"; "|x|"]) initial_state [])
      (fun '(doc', st') =>
         convert_from default_render_config (map py ["text"; "|y|"]) st' doc').
Proof.
  apply (convert_from_cut default_render_config (map py ["# A"; "|x|"])
           (map py ["text"; "|y|"])).
  reflexivity.
Defined.

(** X9.  The loop never changes the units that are in the document already:
    the conversion of lines after a document is that document followed by
    the units which the same lines, read in the same state, add to an empty
    one.  The units of a file do not depend on the files converted before
    it. *)
Theorem convert_from_only_appends cfg lines st doc :
  convert_from cfg lines st doc =
    obind (convert_from cfg lines st []) (fun '(added, st') => Ok (doc ++ added, st')).
Proof.
  rewrite <- (app_nil_r doc) at 1.
  by apply (convert_from_frame_fuel cfg (length lines)).
Qed.

(** * Code blocks *)

Lemma fence_line_not_table line : is_fence_line line = true -> is_table_line line = false.
Proof.
  unfold is_fence_line, is_table_line. destruct (strip line) as [|c s]; [done|].
  unfold fence. cbn. intros H. apply andb_true_iff in H as [H _].
  apply chr_eqb_eq in H as <-. done.
Qed.

Lemma closed_fence cfg opening body closing rest st doc :
  in_code_block st = false ->
  is_fence_line opening = true -> is_fence_line closing = true ->
  Forall (fun l => is_fence_line l = false) body ->
  convert_from cfg (opening :: body ++ closing :: rest) st doc =
    if xml_text (strip (drop 3 (strip opening))) && xml_text (join [newline] body)
    then convert_from cfg rest
           (MkLoopState false (Some (strip (drop 3 (strip opening)))) body)
           (doc ++ language_label (Some (strip (drop 3 (strip opening))))
                ++ [CodeParagraph (join [newline] body); EmptyParagraph])
    else ValueError.
Proof.
  intros Hst Ho Hc Hbody.
  rewrite convert_from_cons. unfold loop_body at 1.
  unfold is_fence_line in Ho. rewrite Ho, Hst. cbn [negb obind].
  rewrite (convert_from_app_fuel cfg (length body)); [|done|]; cycle 1.
  { by apply fence_line_not_table. }
  rewrite open_fence_content_kept by done. cbn [obind code_language code_content app].
  rewrite convert_from_cons. unfold loop_body at 1.
  unfold is_fence_line in Hc. rewrite Hc.
  cbn [in_code_block negb code_language code_content]. rewrite add_units_code.
  by destruct (xml_text _ && xml_text _).
Qed.

(** X11.  Outside a code block, a fence line, lines without a fence and a
    second fence line add one code paragraph, after a label when the opening
    line names a language, and an empty paragraph; the units of the lines
    after the closing fence follow them, read outside a code block.  The
    text of the code paragraph is the lines between the fences, joined by
    line feeds: none of them is read as a heading, a list item, a table or
    inline markup.  Whatever the closing line holds after its backticks is
    ignored.  When the language or the code holds a control character other
    than tab, line feed and carriage return, [add_run] raises [ValueError]
    and there is no document. *)
Theorem closed_fence_is_code_paragraph cfg opening body closing rest st doc :
  in_code_block st = false ->
  is_fence_line opening = true -> is_fence_line closing = true ->
  Forall (fun l => is_fence_line l = false) body ->
  let code_language := strip (drop 3 (strip opening)) in
  let code_text := join [newline] body in
  convert_from cfg (opening :: body ++ closing :: rest) st doc =
    if xml_text code_language && xml_text code_text
    then do (added, st') <-
              convert_from cfg rest (MkLoopState false (Some code_language) body) [];
         Ok (doc ++ language_label (Some code_language)
                 ++ [CodeParagraph code_text; EmptyParagraph] ++ added, st')
    else ValueError.
Proof.
  intros Hst Ho Hc Hbody code_language code_text.
  rewrite closed_fence by done. fold code_language code_text.
  destruct (xml_text code_language && xml_text code_text); [|done].
  rewrite convert_from_frame.
  destruct (convert_from cfg rest _ []) as [[added st']| | |]; [|done..].
  cbn [obind]. by rewrite <- !app_assoc.
Qed.

Lemma closed_fence_is_code_paragraph_witness :
  convert_from default_render_config
      (py "```python" :: map py ["# no heading"; "| a | b |"; "x = *1*"]
         ++ py "```" :: [py "after"])
      initial_state [Heading 1 (py "Before") true] =
    Ok ([Heading 1 (py "Before") true;
         CodeLabel (py "python");
         CodeParagraph (py "# no heading" ++ [newline] ++ py "| a | b |"
                          ++ [newline] ++ py "x = *1*");
         EmptyParagraph;
         Paragraph [(normal, py "after")]],
        MkLoopState false (Some (py "python"))
          (map py ["# no heading"; "| a | b |"; "x = *1*"])).
Proof.
  etransitivity.
  - apply (closed_fence_is_code_paragraph default_render_config (py "```python")
             (map py ["# no heading"; "| a | b |"; "x = *1*"]) (py "```") [py "after"]).
    + reflexivity.
    + reflexivity.
    + reflexivity.
    + repeat constructor.
  - vm_compute. reflexivity.
Defined.

(** * Splitting into lines and joining them *)

Lemma split_on_app_sep sep a b :
  split_on sep (a ++ sep :: b) = split_on sep a ++ split_on sep b.
Proof.
  induction a as [|c a IH]; simpl.
  - by rewrite chr_eqb_refl.
  - rewrite IH. destruct (chr_eqb sep c); [done|].
    by destruct (split_on_cons sep a) as (f & fs & ->).
Qed.

Lemma split_on_none sep a :
  Forall (fun c => chr_eqb sep c = false) a -> split_on sep a = [a].
Proof. induction 1 as [|c a Hc _ IH]; simpl; [done|]. by rewrite Hc, IH. Qed.

Lemma join_cons sep p ps :
  ps <> [] -> join sep (p :: ps) = p ++ sep ++ join sep ps.
Proof. by destruct ps. Qed.

(** [sep.join(s.split(sep))] is [s]. *)
Lemma join_split_on sep s : join [sep] (split_on sep s) = s.
Proof.
  induction s as [|c s IH]; [done|]. cbn [split_on].
  destruct (split_on_cons sep s) as (f & fs & E). rewrite E in *.
  destruct (chr_eqb sep c) eqn:Ec.
  - apply chr_eqb_eq in Ec as ->. rewrite join_cons by done. by rewrite IH.
  - destruct fs as [|f' fs].
    + simpl in *. by rewrite IH.
    + rewrite join_cons by done. rewrite join_cons in IH by done.
      by rewrite <- IH.
Qed.

Lemma one_line_no_newline t :
  one_line t -> Forall (fun c => chr_eqb newline c = false) t.
Proof.
  intros H. eapply Forall_impl; [exact H|]. intros c Hc. unfold dot in Hc.
  rewrite chr_eqb_sym. by destruct (chr_eqb c newline).
Qed.

(** X12.  A Markdown text that is a fence line, a code text and a closing
    fence line, separated by line feeds, is converted into one code
    paragraph whose text is the code text, character for character: the
    split into lines and the join of the lines of the block undo each other.
    The code text is any text of which no line starts, after white space,
    with three backticks.  That is so when the language of the opening line
    and the code text hold no control character other than tab, line feed
    and carriage return; when one of them does, [add_run] raises
    [ValueError] and there is no document. *)
Theorem fenced_code_verbatim cfg opening code_text closing :
  is_fence_line opening = true -> one_line opening ->
  is_fence_line closing = true -> one_line closing ->
  Forall (fun l => is_fence_line l = false) (split_on newline code_text) ->
  convert_content cfg (opening ++ [newline] ++ code_text ++ [newline] ++ closing) =
    if xml_text (strip (drop 3 (strip opening))) && xml_text code_text
    then Ok (language_label (Some (strip (drop 3 (strip opening))))
               ++ [CodeParagraph code_text; EmptyParagraph],
             MkLoopState false (Some (strip (drop 3 (strip opening))))
               (split_on newline code_text))
    else ValueError.
Proof.
  intros Ho Hol Hc Hcl Hbody.
  unfold convert_content, convert_lines. cbn [app].
  rewrite split_on_app_sep, (split_on_none _ opening) by by apply one_line_no_newline.
  rewrite split_on_app_sep, (split_on_none _ closing) by by apply one_line_no_newline.
  cbn [app]. rewrite closed_fence by done.
  by rewrite convert_from_nil, join_split_on.
Qed.

Lemma fenced_code_verbatim_witness :
  convert_content default_render_config
      (py "```sh" ++ [newline]
         ++ (py "  ls  " ++ [newline] ++ [newline] ++ py "# **end**")
         ++ [newline] ++ py "```") =
    Ok ([CodeLabel (py "sh");
         CodeParagraph (py "  ls  " ++ [newline] ++ [newline] ++ py "# **end**");
         EmptyParagraph],
        MkLoopState false (Some (py "sh")) (map py ["  ls  "; ""; "# **end**"])).
Proof.
  apply (fenced_code_verbatim default_render_config (py "```sh")
           (py "  ls  " ++ [newline] ++ [newline] ++ py "# **end**") (py "```")).
  - reflexivity.
  - repeat constructor.
  - reflexivity.
  - repeat constructor.
  - repeat constructor.
Defined.

(** * What the runs are made of *)

(** The groups that a match captures are parts of the text it has gone
    through. *)
Lemma rmatch_groups r : forall R s pos g (k : pystr -> nat -> groups -> option R) x,
  rmatch r s pos g k = Some x ->
  exists n new,
    n <= length s /\ k (drop n s) (pos + n) (new ++ g) = Some x /\
    Forall (fun it => snd it `sublist_of` take n s) new.
Proof.
  induction r as [c|p|r1 IH1 r2 IH2|r1 IH1 r2 IH2|greedy lo hi p|n r1 IH1|n|r1 IH1| |];
    intros R s pos g k x H; simpl in H.
  - destruct s as [|c' s]; [done|]. destruct (chr_eqb c c'); [|done].
    exists 1, []. simpl. rewrite drop_0. replace (pos + 1) with (S pos) by lia.
    repeat split; [lia | done | done].
  - destruct s as [|c' s]; [done|]. destruct (p c'); [|done].
    exists 1, []. simpl. rewrite drop_0. replace (pos + 1) with (S pos) by lia.
    repeat split; [lia | done | done].
  - apply IH1 in H as (n1 & new1 & Hn1 & H & Hg1).
    apply IH2 in H as (n2 & new2 & Hn2 & H & Hg2).
    rewrite length_drop in Hn2. exists (n1 + n2), (new2 ++ new1).
    rewrite drop_drop in H. replace (pos + (n1 + n2)) with (pos + n1 + n2) by lia.
    rewrite <- app_assoc. repeat split; [lia | done |].
    rewrite <- take_take_drop. apply Forall_app. split.
    + eapply Forall_impl; [exact Hg2|]. intros it Hit. by apply sublist_inserts_l.
    + eapply Forall_impl; [exact Hg1|]. intros it Hit. by apply sublist_inserts_r.
  - destruct (rmatch r1 s pos g k) eqn:E.
    + simplify_eq. by apply IH1 in E.
    + by apply IH2 in H.
  - apply rep_exact_inv in H as [Hlo H].
    assert (exists n, n <= length (drop lo s) /\
              k (drop n (drop lo s)) (pos + lo + n) g = Some x) as (n & Hn & Hk).
    { destruct greedy; [by apply rep_greedy_inv in H | by apply rep_lazy_inv in H]. }
    rewrite length_drop in Hn. rewrite drop_drop in Hk.
    exists (lo + n), []. replace (pos + (lo + n)) with (pos + lo + n) by lia.
    repeat split; [lia | done | done].
  - apply IH1 in H as (n' & new & Hn' & H & Hg).
    exists n', ((n, take (pos + n' - pos) s) :: new).
    repeat split; [done | done |]. constructor; [|done].
    simpl. by replace (pos + n' - pos) with n' by lia.
  - destruct (group_lookup n g) as [t|]; [|done].
    destruct (strip_prefix t s) as [s'|] eqn:E; [|done].
    apply strip_prefix_Some in E as ->.
    exists (length t), []. rewrite drop_app_length, length_app.
    repeat split; [lia | done | done].
  - destruct (rmatch r1 s pos g _); [done|]. exists 0, [].
    rewrite Nat.add_0_r. repeat split; [lia | done | done].
  - destruct (pos =? 0); [|done]. exists 0, [].
    rewrite Nat.add_0_r. repeat split; [lia | done | done].
  - assert (k s pos g = Some x) as Hk.
    { destruct s as [|c [|c2 s]]; [done | | done]. by destruct (chr_eqb c newline). }
    exists 0, []. rewrite Nat.add_0_r. repeat split; [lia | done | done].
Qed.

Lemma group_lookup_sublist i (g : groups) (l : pystr) :
  Forall (fun it => snd it `sublist_of` l) g ->
  default [] (group_lookup i g) `sublist_of` l.
Proof.
  induction 1 as [|[j t] g Ht _ IH]; simpl; [apply sublist_nil_l|].
  by destruct (j =? i).
Qed.

Lemma m_group_sublist r s pos m i :
  match_at r s pos = Some m ->
  m_end m <= pos + length s /\
  m_group m i `sublist_of` take (m_end m - pos) s.
Proof.
  unfold match_at. intros H. apply rmatch_groups in H as (n & new & Hn & H & Hg).
  simplify_eq. unfold m_group. cbn [m_end m_groups]. split; [lia|].
  replace (pos + n - pos) with n by lia. rewrite app_nil_r.
  by apply group_lookup_sublist.
Qed.

Lemma run_of_match_sublist text r m t :
  pattern t = Some r -> re_search r text = Some m ->
  runs_text (run_of_match m t) `sublist_of` take (m_end m - m_start m) (drop (m_start m) text).
Proof.
  intros Hr H. unfold re_search in H.
  apply search_from_inv in H as (i & Hi & Hs & H). simpl in Hs. subst i.
  destruct t; cbn in Hr; simplify_eq; unfold runs_text; cbn [run_of_match map snd concat];
    rewrite app_nil_r; by eapply m_group_sublist.
Qed.

Lemma format_loop_sublist fuel : forall text acc runs,
  format_loop fuel text acc = Some runs ->
  exists added, runs = acc ++ added /\ runs_text added `sublist_of` text.
Proof.
  induction fuel as [|fuel IH]; intros text acc runs H.
  - destruct text; simpl in H; [|done]. simplify_eq. exists []. by rewrite app_nil_r.
  - destruct text as [|c text]; [simpl in H; simplify_eq; exists []; by rewrite app_nil_r|].
    cbn [format_loop] in H. remember (c :: text) as s eqn:Es. clear Es.
    destruct (first_match s) as [[m t]|] eqn:E.
    + pose proof (first_match_bounds _ _ _ E) as [Hlt Hle].
      apply first_match_spec in E as [(r & Hr & Hs) _].
      apply IH in H as (added & -> & Hadd).
      eexists. rewrite <- !app_assoc. split; [done|].
      rewrite !runs_text_app.
      assert (s = take (m_start m) s
                    ++ take (m_end m - m_start m) (drop (m_start m) s)
                    ++ drop (m_end m) s) as Hparts.
      { rewrite <- (take_drop (m_start m) s) at 1. f_equal.
        rewrite <- (take_drop (m_end m - m_start m) (drop (m_start m) s)) at 1. f_equal.
        rewrite drop_drop. f_equal. lia. }
      enough (runs_text (if 0 <? m_start m then [(normal, take (m_start m) s)] else [])
                ++ runs_text (run_of_match m t) ++ runs_text added
              `sublist_of` take (m_start m) s
                    ++ take (m_end m - m_start m) (drop (m_start m) s)
                    ++ drop (m_end m) s) as Hen by (by rewrite <- Hparts in Hen).
      apply sublist_app.
      { destruct (0 <? m_start m) eqn:E0; [unfold runs_text; simpl; by rewrite app_nil_r|].
        apply sublist_nil_l. }
      apply sublist_app; [by eapply run_of_match_sublist | done].
    + simplify_eq. exists [(normal, s)]. split; [done|].
      unfold runs_text. simpl. by rewrite app_nil_r.
Qed.

(** X13.  Whatever the line, the runs of the inline loop hold only
    characters of the line, in the order of the line: their texts put
    together are the line with some characters left out.  The loop adds no
    character, moves none and repeats none. *)
Theorem format_runs_subsequence text :
  exists runs, format_runs text = Some runs /\ runs_text runs `sublist_of` text.
Proof.
  destruct (format_runs_total text) as [runs H]. exists runs. split; [done|].
  apply format_loop_sublist in H as (added & -> & H). done.
Qed.

(** * Delimiters without a partner *)

Lemma opener_cases d :
  is_opener d = true -> d = "*"%char \/ d = "_"%char \/ d = "`"%char \/ d = "["%char.
Proof.
  destruct d as [[] [] [] [] [] [] [] []]; intros H; vm_compute in H;
    try discriminate H; auto.
Qed.

Lemma no_opener_chars c :
  is_opener c = false ->
  chr_eqb "*" c = false /\ chr_eqb "_" c = false /\
  chr_eqb "`" c = false /\ chr_eqb "[" c = false.
Proof.
  destruct c as [[] [] [] [] [] [] [] []]; intros H; vm_compute in H;
    try discriminate H; by vm_compute.
Qed.

Lemma no_partner_no_opener q : no_partner q -> no_opener q.
Proof. intros H. eapply Forall_impl; [exact H|]. by intros c [? _]. Qed.

(** After an opening character that is followed by text that closes no
    span, no pattern matches. *)
Lemma match_at_lone t r d q pos :
  pattern t = Some r -> is_opener d = true -> no_partner q ->
  match_at r (d :: q) pos = None.
Proof.
  intros Hr Hd Hq.
  assert (forall i, i <= length q ->
            drop i q = [] \/
            exists c tl, drop i q = c :: tl /\
              chr_eqb "*" c = false /\ chr_eqb "_" c = false /\
              chr_eqb "`" c = false /\ chr_eqb "[" c = false /\ chr_eqb "]" c = false)
    as Hdrop.
  { intros i Hi. destruct (decide (i = length q)) as [-> | Hne].
    - left. by rewrite drop_all.
    - right. destruct (lookup_lt_is_Some_2 q i ltac:(lia)) as [c Hc].
      rewrite (drop_S q c i Hc). eapply (Forall_lookup_1 _ q i c) in Hq; [|done].
      destruct Hq as [Ho Hb]. apply no_opener_chars in Ho as (? & ? & ? & ?).
      eexists _, _. repeat split; done. }
  pose proof (Hdrop 0 ltac:(lia)) as H0. rewrite drop_0 in H0.
  apply opener_cases in Hd as [-> | [-> | [-> | ->]]];
    destruct t; cbn in Hr; simplify_eq; try reflexivity; unfold match_at.
  - (* two asterisks *)
    cbn [bold_re rseq rlit py list_ascii_of_string rmatch]. chr_compute. cbn iota.
    destruct H0 as [-> | (c & tl & -> & Hc & _)]; [done|]. by rewrite Hc.
  - (* one asterisk *)
    cbn [italic_re rseq rmatch rep_exact lazy_dots one_of existsb py list_ascii_of_string].
    chr_compute. cbn [orb]. cbn iota. arith_norm. cbn [group_lookup Nat.eqb firstn].
    rewrite take_0.
    assert (strip_prefix ["*"%char] q = None) as ->.
    { destruct H0 as [-> | (c & tl & -> & Hc & _)]; [done|]. cbn. by rewrite Hc. }
    apply rep_lazy_none. intros i Hi.
    destruct (Hdrop i Hi) as [-> | (c & tl & -> & Hc & _)]; [done|]. cbn. by rewrite Hc.
  - (* two underscores *)
    cbn [bold_re rseq rlit py list_ascii_of_string rmatch]. chr_compute. cbn iota.
    destruct H0 as [-> | (c & tl & -> & _ & Hc & _)]; [done|]. by rewrite Hc.
  - (* one underscore *)
    cbn [italic_re rseq rmatch rep_exact lazy_dots one_of existsb py list_ascii_of_string].
    chr_compute. cbn [orb]. cbn iota. arith_norm. cbn [group_lookup Nat.eqb firstn].
    rewrite take_0.
    assert (strip_prefix ["_"%char] q = None) as ->.
    { destruct H0 as [-> | (c & tl & -> & _ & Hc & _)]; [done|]. cbn. by rewrite Hc. }
    apply rep_lazy_none. intros i Hi.
    destruct (Hdrop i Hi) as [-> | (c & tl & -> & _ & Hc & _)]; [done|]. cbn. by rewrite Hc.
  - (* a backtick *)
    cbn [code_re rseq rmatch rep_exact lazy_dots]. chr_compute. cbn iota.
    apply rep_lazy_none. intros i Hi.
    destruct (Hdrop i Hi) as [-> | (c & tl & -> & _ & _ & Hc & _)]; [done|]. by rewrite Hc.
  - (* a square bracket *)
    cbn [link_re rseq rmatch rep_exact lazy_dots]. chr_compute. cbn iota.
    apply rep_lazy_none. intros i Hi.
    destruct (Hdrop i Hi) as [-> | (c & tl & -> & _ & _ & _ & _ & Hc)]; [done|].
    by rewrite Hc.
Qed.

Lemma search_lone t r p d q :
  pattern t = Some r -> no_opener p -> is_opener d = true -> no_partner q ->
  re_search r (p ++ d :: q) = None.
Proof.
  intros Hr Hp Hd Hq. unfold re_search.
  rewrite (search_plain t) by done. cbn [search_from].
  rewrite (match_at_lone t) by done.
  rewrite <- (app_nil_r q), (search_plain t) by (done || by apply no_partner_no_opener).
  cbn [search_from]. by rewrite (match_at_nil t).
Qed.

(** X14.  An opening character of the inline markup that has no partner
    stays in the text: a line made of text without any of the four
    characters at which a span starts, one such character, and text that
    holds none of them and no closing square bracket, is one run of plain
    text that holds the whole line. *)
Theorem lone_opener_is_text p d q :
  no_opener p -> is_opener d = true -> no_partner q ->
  format_runs (p ++ d :: q) = Some [(normal, p ++ d :: q)].
Proof.
  intros Hp Hd Hq. unfold format_runs.
  assert (first_match (p ++ d :: q) = None) as E.
  { apply first_match_None. intros t r Hr. by apply (search_lone t). }
  destruct (p ++ d :: q) as [|c s] eqn:Es; [by destruct p|].
  cbn [length format_loop]. by rewrite E.
Qed.

Lemma lone_opener_is_text_witness :
  format_runs (py "2 * 3 (about)") = Some [(normal, py "2 * 3 (about)")].
Proof.
  apply (lone_opener_is_text (py "2 ") "*" (py " 3 (about)")).
  - repeat constructor.
  - reflexivity.
  - repeat constructor.
Defined.

(** * The texts of the cells *)

Lemma lstrip_by_idemp p s : lstrip_by p (lstrip_by p s) = lstrip_by p s.
Proof.
  destruct (lstrip_by p s) as [|c tl] eqn:E; [done|].
  apply lstrip_by_head in E. simpl. by rewrite E.
Qed.

Lemma strip_by_idemp p s : strip_by p (strip_by p s) = strip_by p s.
Proof.
  unfold strip_by.
  assert (rstrip_by p (rstrip_by p (lstrip_by p s)) = rstrip_by p (lstrip_by p s)) as Hr.
  { unfold rstrip_by. by rewrite rev_involutive, lstrip_by_idemp. }
  destruct (lstrip_by p s) as [|c u] eqn:E; [done|].
  apply lstrip_by_head in E.
  destruct (rstrip_by_head p c u E) as [tl Htl]. rewrite Htl in *.
  simpl. by rewrite E.
Qed.

Lemma elem_of_lstrip_by p s x : x ∈ lstrip_by p s -> x ∈ s.
Proof.
  intros H. destruct (lstrip_by_split p s) as (ws & Hs & _). rewrite Hs.
  apply elem_of_app. by right.
Qed.

Lemma elem_of_strip_by p s x : x ∈ strip_by p s -> x ∈ s.
Proof.
  unfold strip_by. intros H. apply (elem_of_lstrip_by p).
  destruct (rstrip_by_prefix p (lstrip_by p s)) as (ws & Hs). rewrite Hs.
  apply elem_of_app. by left.
Qed.

Lemma split_on_no_sep sep s : Forall (fun f => sep ∉ f) (split_on sep s).
Proof.
  induction s as [|c s IH]; simpl.
  - repeat constructor. by intros ?%elem_of_nil.
  - destruct (chr_eqb sep c) eqn:E.
    + constructor; [by intros ?%elem_of_nil | done].
    + destruct (split_on sep s) as [|f fs].
      * repeat constructor. intros [-> | H]%elem_of_cons.
        -- by rewrite chr_eqb_refl in E.
        -- by apply elem_of_nil in H.
      * inversion IH as [|? ? Hf Hfs]; subst. constructor; [|done].
        intros [-> | ?]%elem_of_cons; [|done].
        by rewrite chr_eqb_refl in E.
Qed.

Lemma row_cells_clean line : Forall clean_cell (row_cells line).
Proof.
  unfold row_cells. apply Forall_map.
  eapply Forall_impl; [apply split_on_no_sep|].
  intros f Hf. split; [apply strip_by_idemp|].
  intros H. by apply elem_of_strip_by in H.
Qed.

Lemma empty_cell_clean : clean_cell (cell_text empty_cell).
Proof. split; [done | by intros ?%elem_of_nil]. Qed.

(** X15.  In the table of any run of lines, the text of every cell is
    stripped (stripping it again changes nothing) and holds no vertical bar:
    a vertical bar cannot be written inside a cell. *)
Theorem table_cells_clean cfg table_lines :
  exists table,
    build_table cfg table_lines = Some table /\
    Forall (Forall (fun c => clean_cell (cell_text c))) table.
Proof.
  exists (table_of cfg table_lines). split; [apply build_table_spec|].
  unfold table_of. constructor.
  - unfold header_row_cells. apply Forall_map.
    eapply Forall_impl; [apply row_cells_clean|]. done.
  - apply Forall_map, Forall_forall. intros line _.
    unfold data_row_cells. apply Forall_app. split.
    + apply Forall_map. apply Forall_take.
      eapply Forall_impl; [apply row_cells_clean|]. done.
    + apply Forall_replicate. apply empty_cell_clean.
Qed.

(** * [load_config] with an override that loads *)

(** The copy of a dictionary of the store reads as the dictionary. *)
Lemma dict_copy_tree h l D F :
  tree_at h (VDict l) (JDict D) F ->
  exists F0,
    F = {[l]} ∪ F0 /\ l ∉ F0 /\ length h ∉ F0 /\ l < length h /\
    tree_at (snd (dict_copy l h)) (VDict (fst (dict_copy l h))) (JDict D) ({[length h]} ∪ F0).
Proof.
  intros Ht. pose proof (tree_at_bound _ _ _ _ Ht) as Hb.
  apply tree_at_dict_inv in Ht as (d & items & F0 & E & Hl & Hi & HlF & ->).
  simplify_eq. exists F0.
  assert (length h ∉ F0) as Hfresh.
  { intros Hin. assert (length h < length h); [|lia]. apply Hb. set_solver. }
  repeat split; [done | done | apply Hb; set_solver |].
  unfold dict_copy. cbn [fst snd]. rewrite Hl. cbn [default from_option id].
  apply (tree_dict _ _ d); [by apply list_lookup_middle | | done].
  eapply items_at_frame; [exact Hi|]. apply same_on_app.
  intros x Hx. apply Hb. set_solver.
Qed.

Lemma load_config_loads files defaults path user_config h :
  path <> "" -> files path = Loads user_config ->
  load_config files defaults (Some path) h =
    match merge_configs user_config (snd (dict_copy defaults h)) (fst (dict_copy defaults h)) with
    | Some h2 => (length h, h2, [])
    | None =>
        (length h, snd (dict_copy defaults h),
         load_warning ("'" +:+ type_name user_config +:+ "' object has no attribute 'items'"))
    end.
Proof.
  intros Hne Hf. unfold load_config, dict_copy. cbn [fst snd].
  destruct path as [|c path]; [done|]. by rewrite Hf.
Qed.

(** X16.  With defaults and an override whose dictionaries have distinct
    keys, a load of the override gives no warning and returns a new
    dictionary that reads as the key-wise union of the defaults and the
    override.  The dictionary of the defaults itself is as before, with the
    same keys and the same objects as values: what the shallow copy protects
    is the top level. *)
Theorem load_config_merges files path (defaults override : list (string * json)) (h : store) :
  path <> "" -> files path = Loads (JDict override) ->
  unique_keys (JDict defaults) = true -> unique_keys (JDict override) = true ->
  exists d h1 config h2,
    alloc (JDict defaults) h = (VDict d, h1) /\
    load_config files d (Some path) h1 = (config, h2, []) /\
    config <> d /\
    reify (S (json_depth (merge_tree (JDict defaults) (JDict override)))) h2 (VDict config)
      = Some (merge_tree (JDict defaults) (JDict override)) /\
    h2 !! d = h1 !! d.
Proof.
  intros Hne Hf HD HU.
  destruct (alloc_tree (JDict defaults) h HD) as (v & ext & F & Ha & Ht & _).
  assert (exists d, v = VDict d) as [d ->].
  { rewrite alloc_dict in Ha. destruct (alloc_items defaults [] h). simplify_eq. eauto. }
  destruct (dict_copy_tree _ _ _ _ Ht) as (F0 & -> & HdF & Hfresh & Hd & Hc).
  destruct (merge_configs_tree (JDict override) _ _ defaults _ override
              eq_refl HU HD Hc) as (h2 & F' & Hm & Ht2 & _ & _ & Hframe).
  rewrite <- merge_tree_seq in Ht2 by done.
  exists d, (h ++ ext), (length (h ++ ext)), h2.
  split; [done|]. split; [by rewrite (load_config_loads _ _ _ (JDict override)), Hm|].
  split; [lia|]. split; [by eapply tree_at_reify|].
  rewrite Hframe.
  - unfold dict_copy. cbn [snd]. by rewrite lookup_app_l.
  - unfold dict_copy. cbn [snd]. rewrite length_app. simpl. lia.
  - unfold dict_copy. cbn [fst]. set_solver by lia.
Qed.

Lemma load_config_merges_witness :
  exists d h1 config h2,
    alloc (JDict sample_defaults) [] = (VDict d, h1) /\
    load_config (fun _ => Loads (JDict sample_override)) d (Some "config.json") h1 =
      (config, h2, []) /\
    config <> d /\
    reify (S (json_depth (merge_tree (JDict sample_defaults) (JDict sample_override))))
        h2 (VDict config)
      = Some (merge_tree (JDict sample_defaults) (JDict sample_override)) /\
    h2 !! d = h1 !! d.
Proof.
  apply (load_config_merges (fun _ => Loads (JDict sample_override)) "config.json"
           sample_defaults sample_override []).
  - discriminate.
  - reflexivity.
  - reflexivity.
  - reflexivity.
Defined.

(** * Overrides that merge into no dictionary of the defaults *)

Lemma alloc_extends uv h :
  unique_keys uv = true -> exists v ext, alloc uv h = (v, h ++ ext).
Proof. intros H. destruct (alloc_tree uv h H) as (v & ext & _ & E & _). eauto. Qed.

(** When every item is assigned, the merge changes the dictionary at [l]
    and adds objects; the other objects are as before. *)
Lemma merge_items_flat l U : forall h d,
  NoDup (map fst U) -> Forall (fun kv => unique_keys (snd kv) = true) U ->
  h !! l = Some d ->
  (forall k uv l', (k, uv) ∈ U -> is_dict uv = true -> dict_get k d <> Some (VDict l')) ->
  exists h',
    merge_items l U h = Some h' /\ length h <= length h' /\
    forall x, x < length h -> x <> l -> h' !! x = h !! x.
Proof.
  induction U as [|[k uv] U IH]; intros h d Hnd Hu Hl Hflat.
  - exists h. by repeat split.
  - apply NoDup_cons in Hnd as [Hk Hnd]. apply Forall_cons in Hu as [Huv Hu].
    rewrite (merge_items_assign l k uv U h d Hl); cycle 1.
    { intros l' E. destruct (is_dict uv) eqn:Ed; [|done].
      exfalso. eapply Hflat; [apply elem_of_cons; by left | done | exact E]. }
    destruct (alloc_extends uv h Huv) as (v & ext & ->).
    assert (l < length h) as Hlt by (by eapply lookup_lt_Some).
    assert (store_set l k v (h ++ ext) = <[l := dict_set k v d]> (h ++ ext)) as ->.
    { unfold store_set. by rewrite lookup_app_l, Hl by done. }
    destruct (IH (<[l := dict_set k v d]> (h ++ ext)) (dict_set k v d)) as (h' & Hm & Hlen & Hsame);
      [done | done | | |].
    + apply list_lookup_insert_eq. rewrite length_app. lia.
    + intros k' uv' l' Hin Hd. rewrite dict_get_set_ne.
      * eapply Hflat; [apply elem_of_cons; by right | done].
      * intros ->. apply Hk. apply list_elem_of_fmap. by exists (k', uv').
    + exists h'. split; [done|]. rewrite length_insert, length_app in Hlen.
      split; [lia|]. intros x Hx Hne. rewrite Hsame.
      * rewrite list_lookup_insert_ne by done. by rewrite lookup_app_l.
      * rewrite length_insert, length_app. lia.
      * done.
Qed.

Lemma store_prefix (h h' : store) :
  length h <= length h' -> (forall x, x < length h -> h' !! x = h !! x) ->
  exists ext, h' = h ++ ext.
Proof.
  intros Hlen Hsame. exists (drop (length h) h'). apply list_eq. intros i.
  destruct (decide (i < length h)) as [Hi | Hi].
  - rewrite lookup_app_l by done. by apply Hsame.
  - rewrite lookup_app_r by lia. rewrite lookup_drop. f_equal. lia.
Qed.

(** X17.  With defaults and an override whose dictionaries have distinct
    keys, and no key that holds a dictionary on both sides, a load of the
    override changes no object that was in the store before it: the store
    afterwards is the store before followed by new objects, and the
    defaults read as before.  Overrides that replace whole top-level
    entries or add new keys do not reach the defaults of the module. *)
Theorem load_config_flat_keeps_defaults files path
    (defaults override : list (string * json)) (h : store) :
  path <> "" -> files path = Loads (JDict override) ->
  unique_keys (JDict defaults) = true -> unique_keys (JDict override) = true ->
  flat_override defaults override = true ->
  exists d h1 config h2,
    alloc (JDict defaults) h = (VDict d, h1) /\
    load_config files d (Some path) h1 = (config, h2, []) /\
    (exists ext, h2 = h1 ++ ext) /\
    reify (S (json_depth (JDict defaults))) h2 (VDict d) = Some (JDict defaults).
Proof.
  intros Hne Hf HD HU Hflat.
  destruct (alloc_tree (JDict defaults) h HD) as (v & ext & F & Ha & Ht & _).
  assert (exists d, v = VDict d) as [d ->].
  { rewrite alloc_dict in Ha. destruct (alloc_items defaults [] h). simplify_eq. eauto. }
  set (h1 := h ++ ext) in *.
  pose proof (tree_at_bound _ _ _ _ Ht) as Hb.
  destruct (tree_at_dict_inv _ _ _ _ Ht) as (dd & items & F0 & E & Hd & Hi & HdF & HF).
  symmetry in E. simplify_eq.
  apply unique_keys_dict in HU as [HUk HUv].
  destruct (merge_items_flat (length h1) override (h1 ++ [dd]) dd) as (h2 & Hm & Hlen & Hsame);
    [done | done | by apply list_lookup_middle | |].
  { intros k uv l' Hin Hduv Hget.
    destruct (items_at_get _ _ _ _ _ _ Hi Hget) as (j & Fk & _ & Hj & Htj & _).
    apply tree_at_dict_inv in Htj as (? & items' & ? & -> & _).
    unfold flat_override in Hflat. rewrite forallb_forall in Hflat.
    specialize (Hflat (k, uv)). cbn [fst snd] in Hflat.
    rewrite Hj, Hduv in Hflat. cbn in Hflat.
    assert (false = true); [|done]. apply Hflat. by apply list_elem_of_In. }
  assert (forall x, x < length h1 -> h2 !! x = h1 !! x) as Hold.
  { intros x Hx. rewrite Hsame; [by rewrite lookup_app_l | rewrite length_app; simpl; lia | lia]. }
  exists d, h1, (length h1), h2.
  split; [done|]. split.
  { rewrite (load_config_loads _ _ _ (JDict override)) by done.
    unfold dict_copy. cbn [fst snd]. rewrite Hd. cbn [default from_option id].
    by rewrite merge_configs_dict, Hm. }
  split.
  { apply store_prefix; [|done]. rewrite length_app in Hlen. lia. }
  eapply tree_at_reify; [|done].
  eapply tree_at_frame; [exact Ht|]. intros x Hx. apply Hold. by apply Hb.
Qed.

Lemma load_config_flat_keeps_defaults_witness :
  exists d h1 config h2,
    alloc (JDict sample_defaults) [] = (VDict d, h1) /\
    load_config (fun _ => Loads (JDict sample_flat_override)) d (Some "config.json") h1 =
      (config, h2, []) /\
    (exists ext, h2 = h1 ++ ext) /\
    reify (S (json_depth (JDict sample_defaults))) h2 (VDict d) = Some (JDict sample_defaults).
Proof.
  apply (load_config_flat_keeps_defaults (fun _ => Loads (JDict sample_flat_override))
           "config.json" sample_defaults sample_flat_override []).
  - discriminate.
  - reflexivity.
  - reflexivity.
  - reflexivity.
  - reflexivity.
Defined.

(** X18.  A configuration file whose content is no dictionary (a list, a
    string, a number, a truth value or [null]) is reported and ignored: the
    load prints the two lines of the warning, with the message of the
    [AttributeError] that names the type of the content ([int] for a number
    written without fraction and exponent, [float] for any other number),
    and returns a new dictionary that reads as the defaults; no object of
    the store is changed. *)
Theorem load_config_rejects_non_dict files path (defaults : list (string * json))
    user_config (h : store) :
  path <> "" -> files path = Loads user_config -> is_dict user_config = false ->
  unique_keys (JDict defaults) = true ->
  exists d h1 config copy,
    alloc (JDict defaults) h = (VDict d, h1) /\
    load_config files d (Some path) h1 =
      (config, h1 ++ [copy],
       ["Erreur lors du chargement de la configuration: '" +:+ type_name user_config
          +:+ "' object has no attribute 'items'";
        "Utilisation de la configuration par défaut."]) /\
    reify (S (json_depth (JDict defaults))) (h1 ++ [copy]) (VDict config)
      = Some (JDict defaults).
Proof.
  intros Hne Hf Hj HD.
  destruct (alloc_tree (JDict defaults) h HD) as (v & ext & F & Ha & Ht & _).
  assert (exists d, v = VDict d) as [d ->].
  { rewrite alloc_dict in Ha. destruct (alloc_items defaults [] h). simplify_eq. eauto. }
  destruct (dict_copy_tree _ _ _ _ Ht) as (F0 & -> & HdF & Hfresh & Hd & Hc).
  exists d, (h ++ ext), (length (h ++ ext)), (default [] ((h ++ ext) !! d)).
  split; [done|]. split.
  - rewrite (load_config_loads _ _ _ user_config) by done.
    by destruct user_config.
  - by eapply tree_at_reify.
Qed.

Lemma load_config_rejects_non_dict_witness :
  exists d h1 config copy,
    alloc (JDict sample_defaults) [] = (VDict d, h1) /\
    load_config (fun _ => Loads (JNum (Float 2))) d (Some "config.json") h1 =
      (config, h1 ++ [copy],
       ["Erreur lors du chargement de la configuration: 'float' object has no attribute 'items'";
        "Utilisation de la configuration par défaut."]) /\
    reify (S (json_depth (JDict sample_defaults))) (h1 ++ [copy]) (VDict config)
      = Some (JDict sample_defaults).
Proof.
  apply (load_config_rejects_non_dict (fun _ => Loads (JNum (Float 2))) "config.json"
           sample_defaults (JNum (Float 2)) []).
  - discriminate.
  - reflexivity.
  - reflexivity.
  - reflexivity.
Defined.

(** * The fill of a shaded cell *)

Lemma format_02x_byte z :
  in_byte z -> exists a b, format_02x z = [a; b] /\ parse_hex2 a b = Some z.
Proof.
  intros [H0 H1].
  assert (forallb (fun n =>
            match format_02x (Z.of_nat n) with
            | [a; b] => bool_decide (parse_hex2 a b = Some (Z.of_nat n))
            | _ => false
            end) (seq 0 256) = true) as Hall by (vm_compute; reflexivity).
  rewrite forallb_forall in Hall.
  specialize (Hall (Z.to_nat z)). rewrite Z2Nat.id in Hall by done.
  destruct (format_02x z) as [|a [|b [|c l]]] eqn:E;
    try (discriminate Hall; apply in_seq; lia).
  exists a, b. split; [done|]. eapply bool_decide_eq_true_1, Hall. apply in_seq. lia.
Qed.

(** X19.  For three colour components between 0 and 255, the fill that
    [shade_cell] writes is six lower-case hexadecimal digits which read back
    as the three components, two digits each: distinct colours get distinct
    fills. *)
Theorem shade_fill_round_trip r g b :
  in_byte r -> in_byte g -> in_byte b ->
  parse_fill (shade_fill r g b) = Some (r, g, b).
Proof.
  intros Hr Hg Hb.
  destruct (format_02x_byte r Hr) as (r1 & r2 & Er & Pr).
  destruct (format_02x_byte g Hg) as (g1 & g2 & Eg & Pg).
  destruct (format_02x_byte b Hb) as (b1 & b2 & Eb & Pb).
  unfold shade_fill. rewrite Er, Eg, Eb. cbn [app parse_fill].
  by rewrite Pr, Pg, Pb.
Qed.

Lemma shade_fill_round_trip_witness :
  parse_fill (shade_fill 240 7 255) = Some (240, 7, 255)%Z.
Proof.
  apply (shade_fill_round_trip 240 7 255); unfold in_byte; lia.
Defined.

Lemma hex_loop_length fuel : forall n acc, length acc <= length (hex_loop fuel n acc).
Proof.
  induction fuel as [|fuel IH]; intros n acc; cbn [hex_loop]; [lia|].
  destruct (n / 16 =? 0); [cbn [length]; lia|].
  etrans; [|apply IH]. cbn [length]. lia.
Qed.

Lemma hex_nonempty n : 1 <= length (hex n).
Proof.
  unfold hex. cbn [hex_loop]. destruct (n / 16 =? 0); [cbn [length]; lia|].
  etrans; [|apply hex_loop_length]. cbn [length]. lia.
Qed.

Lemma hex_loop_S fuel n acc :
  hex_loop (S fuel) n acc =
    if n / 16 =? 0 then hex_digit (n mod 16) :: acc
    else hex_loop fuel (n / 16) (hex_digit (n mod 16) :: acc).
Proof. done. Qed.

Lemma hex_long n : 256 <= n -> 3 <= length (hex n).
Proof.
  intros Hn. unfold hex.
  assert (n / 16 =? 0 = false) as E1.
  { apply Nat.eqb_neq. intros E. apply Nat.div_small_iff in E; lia. }
  assert (n / 16 / 16 =? 0 = false) as E2.
  { apply Nat.eqb_neq. intros E. apply Nat.div_small_iff in E; [|lia].
    pose proof (Nat.div_mod_eq n 16). pose proof (Nat.mod_upper_bound n 16). lia. }
  replace (S n) with (S (S (S (n - 2)))) by lia.
  rewrite hex_loop_S, E1, hex_loop_S, E2, hex_loop_S.
  destruct (n / 16 / 16 / 16 =? 0); [cbn [length]; lia|].
  etrans; [|apply hex_loop_length]. cbn [length]. lia.
Qed.

Lemma format_02x_length z : 2 <= length (format_02x z).
Proof.
  unfold format_02x. pose proof (hex_nonempty (Z.abs_nat z)).
  destruct (z <? 0)%Z; simpl; rewrite ?length_app, ?length_replicate; lia.
Qed.

(** What two characters of [format_02x] can be: the digits of a component
    between 0 and 255, or a minus sign and one digit. *)
Lemma format_02x_two z a b :
  format_02x z = [a; b] -> in_byte z \/ a = "-"%char.
Proof.
  unfold format_02x. intros E.
  destruct (z <? 0)%Z eqn:Ez; [right; by simplify_eq|]. left.
  apply Z.ltb_ge in Ez. split; [done|].
  destruct (decide (z <= 255)%Z) as [|Hbig]; [done|]. exfalso.
  pose proof (hex_long (Z.abs_nat z) ltac:(lia)) as Hlen.
  apply (f_equal (@length ascii)) in E. rewrite length_app in E. simpl in E. lia.
Qed.

Lemma parse_fill_length s c : parse_fill s = Some c -> length s = 6.
Proof. by destruct s as [|? [|? [|? [|? [|? [|? [|? ?]]]]]]]. Qed.

Lemma length_two (s : pystr) : length s = 2 -> exists a b, s = [a; b].
Proof. destruct s as [|a [|b [|? ?]]]; try done. eauto. Qed.

Lemma parse_hex2_minus b : parse_hex2 "-" b = None.
Proof. done. Qed.

(** X20.  When one of the three colour components is below 0 or above 255,
    the fill that [shade_cell] writes is no six-digit hexadecimal colour:
    it is longer than six characters or holds a minus sign.  The components
    are not checked. *)
Theorem shade_fill_out_of_range r g b :
  ~ (in_byte r /\ in_byte g /\ in_byte b) ->
  parse_fill (shade_fill r g b) = None.
Proof.
  intros Hout. destruct (parse_fill (shade_fill r g b)) as [c|] eqn:E; [|done].
  exfalso. unfold shade_fill in E.
  pose proof (format_02x_length r) as Hr.
  pose proof (format_02x_length g) as Hg.
  pose proof (format_02x_length b) as Hb.
  apply parse_fill_length in E as Hlen. rewrite !length_app in Hlen.
  destruct (length_two (format_02x r) ltac:(lia)) as (r1 & r2 & Er).
  destruct (length_two (format_02x g) ltac:(lia)) as (g1 & g2 & Eg).
  destruct (length_two (format_02x b) ltac:(lia)) as (b1 & b2 & Eb).
  rewrite Er, Eg, Eb in E. cbn [app parse_fill] in E.
  apply format_02x_two in Er, Eg, Eb.
  destruct Er as [? | ->]; [|by rewrite parse_hex2_minus in E].
  destruct Eg as [? | ->];
    [|rewrite parse_hex2_minus in E; by destruct (parse_hex2 r1 r2)].
  destruct Eb as [? | ->]; [tauto|].
  rewrite parse_hex2_minus in E. by destruct (parse_hex2 r1 r2), (parse_hex2 g1 g2).
Qed.

Lemma shade_fill_out_of_range_witness :
  parse_fill (shade_fill 256 0 0) = None.
Proof.
  apply (shade_fill_out_of_range 256 0 0). unfold in_byte. lia.
Defined.

(** * Styles *)

Lemma assign_twice {T} lib a style key (set : json -> T -> T) x y :
  (forall v z, set v (set v z) = set v z) ->
  assign lib a style key set x = Some y -> assign lib a style key set y = Some y.
Proof.
  unfold assign. intros Hset H.
  destruct (dict_get key style) as [v|]; [|done].
  destruct (accepts lib a v); [|done]. simplify_eq. by rewrite Hset.
Qed.

(** A second application of a style to a run changes nothing. *)
Lemma apply_style_twice lib style r r' :
  apply_style lib style r = Some r' -> apply_style lib style r' = Some r'.
Proof.
  unfold apply_style, assign. intros H.
  repeat (match type of H with
          | context [match ?x with _ => _ end] => destruct x eqn:?
          end; cbn in H |- *; try done).
  all: try by simplify_eq.

Qed.

Lemma mapM_twice {A} (f : A -> option A) l l' :
  (forall x y, f x = Some y -> f y = Some y) ->
  mapM f l = Some l' -> mapM f l' = Some l'.
Proof.
  intros Hf H. apply mapM_Some in H. apply mapM_Some.
  induction H as [|x y l l' Hxy _ IH]; constructor; [by eapply Hf | done].
Qed.

Lemma assign_par_runs lib a style key set (p p' : docx_par) :
  (forall v z, par_runs (set v z) = par_runs z) ->
  assign lib a style key set p = Some p' -> par_runs p' = par_runs p.
Proof.
  unfold assign. intros Hset H.
  destruct (dict_get key style) as [v|]; [|by simplify_eq].
  destruct (accepts lib a v); [|done]. simplify_eq. apply Hset.
Qed.

(** The runs of a styled paragraph are the styled runs. *)
Lemma apply_para_style_runs lib style p p' :
  apply_para_style lib style p = Some p' ->
  mapM (apply_style lib style) (par_runs p) = Some (par_runs p').
Proof.
  unfold apply_para_style. intros H.
  destruct (mapM (apply_style lib style) (par_runs p)) as [runs|]; [|done].
  cbn in H.
  destruct (assign lib SpaceBefore style "space_before" set_space_before (set_runs runs p))
    as [p1|] eqn:E1; [|done].
  cbn in H.
  destruct (assign lib SpaceAfter style "space_after" set_space_after p1)
    as [p2|] eqn:E2; [|done].
  cbn in H.
  destruct (assign lib LineSpacing style "line_spacing" set_line_spacing p2)
    as [p3|] eqn:E3; [|done].
  cbn in H.
  destruct (assign lib KeepWithNext style "keep_with_next" set_keep_with_next p3)
    as [p4|] eqn:E4; [|done].
  cbn in H.
  apply assign_par_runs in E1, E2, E3, E4; try done.
  assert (par_runs p' = par_runs p4) as ->.
  { destruct (dict_get "alignment" style) as [[| | |s| |]|]; simplify_eq; try done.
    by destruct (alignment_map s). }
  by rewrite E4, E3, E2, E1.
Qed.

Lemma set_runs_same p : set_runs (par_runs p) p = p.
Proof. by destruct p. Qed.

(** X21.  [apply_heading_style] does what [apply_para_style] does: for
    every style, every heading and every behaviour of the document library
    the two calls end alike, with the same paragraph or with an exception.
    The second pass of [apply_style] over the runs changes nothing. *)
Theorem apply_heading_style_is_para_style lib style heading :
  apply_heading_style lib style heading = apply_para_style lib style heading.
Proof.
  unfold apply_heading_style.
  destruct (apply_para_style lib style heading) as [p|] eqn:E; [|done].
  cbn. apply apply_para_style_runs in E.
  rewrite (mapM_twice _ _ _ (apply_style_twice lib style) E). cbn.
  by rewrite set_runs_same.
Qed.

(** X22.  Styling is idempotent: when [apply_para_style] has styled a
    paragraph, a second call with the same style ends without an exception
    and leaves the paragraph and its runs as they are. *)
Theorem apply_para_style_twice lib style p p' :
  apply_para_style lib style p = Some p' -> apply_para_style lib style p' = Some p'.
Proof.
  intros H. pose proof (apply_para_style_runs _ _ _ _ H) as Hruns.
  unfold apply_para_style in *.
  rewrite (mapM_twice _ _ _ (apply_style_twice lib style) Hruns).
  rewrite Hruns in H. cbn in H |- *. rewrite set_runs_same.
  unfold assign in *.
  repeat (match type of H with
          | context [match ?x with _ => _ end] => destruct x eqn:?
          end; cbn in H |- *; try done).
  all: unfold set_keep_with_next, set_line_spacing, set_space_after, set_space_before,
         set_alignment, set_runs in *.
  all: destruct p as [a1 a2 a3 a4 a5 a6], p' as [b1 b2 b3 b4 b5 b6]; cbn in *.
  all: by simplify_eq.
Qed.

Lemma apply_para_style_twice_witness :
  apply_para_style sample_lib sample_style
    (MkPar
       [MkRun (py "Scope") (Some (JStr "Arial")) (Some (JNum 18)) (Some (JBool true))
          (Some (JBool true)) (Some (JNum 0, JNum 51, JNum 102));
        MkRun (py " and limits") (Some (JStr "Arial")) (Some (JNum 18)) (Some (JBool true))
          None (Some (JNum 0, JNum 51, JNum 102))]
       (Some (JNum 24)) None None (Some (JBool true)) (Some AlignLeft)) =
  Some
    (MkPar
       [MkRun (py "Scope") (Some (JStr "Arial")) (Some (JNum 18)) (Some (JBool true))
          (Some (JBool true)) (Some (JNum 0, JNum 51, JNum 102));
        MkRun (py " and limits") (Some (JStr "Arial")) (Some (JNum 18)) (Some (JBool true))
          None (Some (JNum 0, JNum 51, JNum 102))]
       (Some (JNum 24)) None None (Some (JBool true)) (Some AlignLeft)).
Proof.
  apply (apply_para_style_twice sample_lib sample_style sample_heading).
  reflexivity.
Defined.

(** * Placeholders in headers and footers *)









(** * The chapter title *)

Lemma dot_not_newline c : dot c = true -> chr_eqb c newline = false.
Proof. unfold dot. by destruct (chr_eqb c newline). Qed.

Lemma newline_space : is_space newline = true.
Proof. done. Qed.

(** Inside a line no match is tried. *)
Lemma search_inside_line r a s : forall pos,
  one_line a ->
  search_line_start r (a ++ newline :: s) pos false =
    search_line_start r s (pos + length a + 1) true.
Proof.
  induction a as [|c a IH]; intros pos Ha.
  - cbn. f_equal. lia.
  - inversion Ha as [|? ? Hc Ha']; subst. cbn [app search_line_start].
    rewrite (dot_not_newline c Hc), IH by done. f_equal. simpl. lia.
Qed.

Lemma search_inside_last_line r a : forall pos,
  one_line a -> search_line_start r a pos false = None.
Proof.
  induction a as [|c a IH]; intros pos Ha; [done|].
  inversion Ha as [|? ? Hc Ha']; subst. cbn [search_line_start].
  by rewrite (dot_not_newline c Hc), IH.
Qed.

(** At the start of a line that does not begin with a number sign and white
    space, the pattern fails. *)
Lemma chapter_none l s pos :
  h1_start l = false -> (s = [] \/ exists s', s = newline :: s') ->
  match_at chapter_re (l ++ s) pos = None.
Proof.
  intros Hl Hs. unfold match_at, chapter_re. cbn [rseq rmatch].
  destruct l as [|c l]; cbn [app].
  - destruct Hs as [-> | [s' ->]]; done.
  - simpl in Hl. destruct (chr_eqb "#" c); [|done]. cbn [andb] in Hl.
    cbn [rep_exact]. destruct l as [|d l]; [done|]. cbn [app]. by rewrite Hl.
Qed.

Lemma search_skip_line l s pos :
  one_line l -> h1_start l = false ->
  search_line_start chapter_re (l ++ newline :: s) pos true =
    search_line_start chapter_re s (pos + length l + 1) true.
Proof.
  intros Hone Hl.
  destruct l as [|c l].
  - cbn. f_equal. lia.
  - pose proof (chapter_none (c :: l) (newline :: s) pos Hl ltac:(eauto)) as E.
    cbn [app] in *. cbn [search_line_start]. rewrite E.
    inversion Hone as [|? ? Hc Hone']; subst.
    rewrite (dot_not_newline c Hc), search_inside_line by done.
    f_equal. simpl. lia.
Qed.

Lemma search_skip_lines lines s : forall pos,
  Forall one_line lines -> Forall (fun l => h1_start l = false) lines ->
  search_line_start chapter_re (unlines lines ++ s) pos true =
    search_line_start chapter_re s (pos + length (unlines lines)) true.
Proof.
  unfold unlines.
  induction lines as [|l lines IH]; intros pos Hone Hl; cbn [map concat app].
  - f_equal. simpl. lia.
  - apply Forall_cons in Hone as [Hone1 Hone]. apply Forall_cons in Hl as [Hl1 Hl].
    rewrite <- !app_assoc. cbn [app]. rewrite search_skip_line, IH by done.
    f_equal. rewrite !length_app. simpl. lia.
Qed.

Lemma search_last_line l pos :
  one_line l -> h1_start l = false ->
  search_line_start chapter_re l pos true = None.
Proof.
  intros Hone Hl.
  pose proof (chapter_none l [] pos Hl ltac:(eauto)) as E. rewrite app_nil_r in E.
  destruct l as [|c l]; cbn [search_line_start]; rewrite E; [done|].
  inversion Hone as [|? ? Hc Hone']; subst.
  by rewrite (dot_not_newline c Hc), search_inside_last_line.
Qed.

Lemma search_joined_lines lines : forall pos,
  Forall one_line lines -> Forall (fun l => h1_start l = false) lines -> lines <> [] ->
  search_line_start chapter_re (join [newline] lines) pos true = None.
Proof.
  induction lines as [|l lines IH]; intros pos Hone Hl Hne; [done|].
  apply Forall_cons in Hone as [Hone1 Hone]. apply Forall_cons in Hl as [Hl1 Hl].
  destruct lines as [|l' lines].
  - by apply search_last_line.
  - rewrite join_cons by done. cbn [app]. rewrite search_skip_line by done.
    by apply IH.
Qed.

Lemma split_on_one_line s : Forall one_line (split_on newline s).
Proof.
  eapply Forall_impl; [apply (split_on_no_sep newline)|].
  intros f Hf. apply Forall_forall. intros c Hc. unfold dot.
  destruct (chr_eqb c newline) eqn:E; [|done].
  apply chr_eqb_eq in E as ->. done.
Qed.

(** X24.  When no line of the text starts with a number sign that is
    followed by white space or by the end of the line, the chapter title is
    the default ["Chapitre"]. *)
Theorem chapter_title_default md_content :
  Forall (fun l => h1_start l = false) (split_on newline md_content) ->
  extract_chapter_title md_content = py "Chapitre".
Proof.
  intros H. unfold extract_chapter_title.
  rewrite <- (join_split_on newline md_content) at 1.
  rewrite search_joined_lines; [done | apply split_on_one_line | done |].
  by destruct (split_on_cons newline md_content) as (f & fs & ->).
Qed.

Lemma chapter_title_default_witness :
  extract_chapter_title (py "## Part" ++ [newline] ++ py "#tag and text") = py "Chapitre".
Proof.
  apply (chapter_title_default (py "## Part" ++ [newline] ++ py "#tag and text")).
  repeat constructor.
Defined.

(** The pattern at a number sign, white space and a title that ends its
    line. *)
Lemma match_chapter ws title rest pos :
  ws <> [] -> blank ws -> starts_text title -> one_line title ->
  (rest = [] \/ exists rest', rest = newline :: rest') ->
  exists m,
    match_at chapter_re ("#"%char :: ws ++ title ++ rest) pos = Some m /\
    m_group m 1 = title.
Proof.
  intros Hne Hws Ht Hl Hrest.
  destruct ws as [|w ws]; [done|]. clear Hne.
  destruct title as [|c title]; [done|]. simpl in Ht.
  inversion Hws as [|? ? Hw Hws']; subst.
  inversion Hl as [|? ? Hc Hl']; subst.
  eexists. unfold match_at, chapter_re.
  cbn [rseq rmatch app rep_exact]. chr_compute. cbn iota. rewrite Hw.
  split.
  - erewrite rep_greedy_all; [reflexivity | exact Hws' | exact Ht | done |].
    cbn [app rep_exact]. rewrite Hc.
    erewrite rep_greedy_all; [reflexivity | exact Hl' | | done |].
    + destruct Hrest as [-> | [rest' ->]]; done.
    + unfold eol_multiline. cbn [rmatch].
      destruct Hrest as [-> | [rest' ->]]; cbn; chr_compute; reflexivity.
  - unfold m_group. cbn [m_groups group_lookup Nat.eqb default from_option id].
    replace (S (pos + length ws + length title) - (pos + length ws))
      with (S (length title)) by lia.
    cbn [firstn]. by rewrite take_app_length.
Qed.

Lemma extract_chapter_title_at lines ws title rest :
  Forall one_line lines -> Forall (fun l => h1_start l = false) lines ->
  ws <> [] -> blank ws -> starts_text title -> one_line title ->
  (rest = [] \/ exists rest', rest = newline :: rest') ->
  extract_chapter_title (unlines lines ++ "#"%char :: ws ++ title ++ rest) = strip title.
Proof.
  intros Hone Hl Hne Hws Ht Htl Hrest. unfold extract_chapter_title.
  rewrite search_skip_lines by done.
  destruct (match_chapter ws title rest (0 + length (unlines lines))
              Hne Hws Ht Htl Hrest) as (m & Hm & Hg).
  cbn [search_line_start]. by rewrite Hm, Hg.
Qed.

(** X25.  The chapter title of a text is taken at the first line that
    starts with a number sign and white space: when the lines before it do
    not start that way, the title is the text that follows this white space,
    up to the end of its line, stripped.  The white space is that of [\s+]
    and may run over line feeds: after a number sign and white space only,
    the title is taken from the next line that is not blank.  The lines are
    those of the text as it is, so a line of a code block counts as well. *)
Theorem chapter_title_first_h1 lines ws title rest :
  Forall one_line lines -> Forall (fun l => h1_start l = false) lines ->
  ws <> [] -> blank ws -> starts_text title -> one_line title ->
  (rest = [] \/ exists rest', rest = newline :: rest') ->
  extract_chapter_title (unlines lines ++ "#"%char :: ws ++ title ++ rest) = strip title.
Proof. apply extract_chapter_title_at. Qed.

Lemma chapter_title_first_h1_witness :
  extract_chapter_title
    (unlines (map py ["Intro"; "```sh"]) ++ "#"%char :: py " " ++ py "install it "
       ++ (newline :: py "```" ++ [newline] ++ py "# Real title")) =
  py "install it".
Proof.
  apply (chapter_title_first_h1 (map py ["Intro"; "```sh"]) (py " ") (py "install it ")
           (newline :: py "```" ++ [newline] ++ py "# Real title")).
  - repeat constructor.
  - repeat constructor.
  - discriminate.
  - repeat constructor.
  - reflexivity.
  - repeat constructor.
  - right. eauto.
Defined.

(** The white space after the number sign runs over the line feed: the
    title is the next line. *)
Example chapter_title_next_line :
  extract_chapter_title (py "# " ++ [newline] ++ py "abc" ++ [newline] ++ py "# Title")
    = py "abc".
Proof. vm_compute. reflexivity. Qed.

(** * Markup inside a bold span *)

Lemma unclosed_dot d t : unclosed d t = true -> Forall (fun c => dot c = true) t.
Proof.
  induction t as [|a t IH]; [done|]. cbn [unclosed]. intros H.
  apply andb_true_iff in H as [Ha H]. constructor; [done|].
  destruct t as [|b t]; [done|]. apply andb_true_iff in H as [_ H]. by apply IH.
Qed.

Lemma unclosed_no_close d t rest : forall i,
  unclosed d t = true -> i < length t ->
  strip_prefix [d; d] (drop i (t ++ d :: d :: rest)) = None.
Proof.
  induction t as [|a t IH]; intros i H Hi; [simpl in Hi; lia|].
  cbn [unclosed] in H. apply andb_true_iff in H as [_ H].
  destruct i as [|i].
  - cbn [drop app strip_prefix]. destruct (chr_eqb d a) eqn:Ea; [|done].
    destruct t as [|b t]; [done|]. cbn [app].
    apply andb_true_iff in H as [H _]. cbn in H. by destruct (chr_eqb d b).
  - cbn [drop app]. destruct t as [|b t]; [simpl in Hi; lia|].
    apply andb_true_iff in H as [_ H]. apply IH; [done | simpl in *; lia].
Qed.

Lemma match_bold_nested d t rest pos :
  is_delim d -> unclosed d t = true ->
  match_at bold_re ([d; d] ++ t ++ [d; d] ++ rest) pos =
    Some (MkMatch pos (pos + 4 + length t) [(3, [d; d]); (2, t); (1, [d; d])]).
Proof.
  intros Hd Ht. unfold match_at, bold_re.
  pose proof (unclosed_no_close d t rest) as Hno.
  destruct Hd as [-> | ->];
    cbn [rseq rlit py list_ascii_of_string rmatch rep_exact lazy_dots app];
    chr_compute; cbn iota; arith_norm;
    cbn [group_lookup Nat.eqb take];
    (rewrite rep_lazy_skip; [| by eapply unclosed_dot | intros i Hi; by rewrite Hno]);
    (erewrite rep_lazy_hit;
     [| cbn [app strip_prefix]; chr_compute; cbn iota; reflexivity]);
    arith_norm; rewrite ?take_0; cbn [length firstn app];
    rewrite ?take_app_length; do 2 f_equal; lia.
Qed.

(** Where a bold span starts, the other patterns do not match. *)
Lemma match_other_at_double d s t r pos :
  is_delim d -> pattern t = Some r -> t <> bold ->
  match_at r (d :: d :: s) pos = None.
Proof.
  intros Hd Hr Hne. unfold match_at.
  destruct Hd as [-> | ->]; destruct t; cbn in Hr; simplify_eq; try done;
    cbn [italic_re rseq rmatch one_of existsb py list_ascii_of_string];
    chr_compute; cbn [orb]; cbn iota; arith_norm;
    cbn [group_lookup Nat.eqb firstn strip_prefix]; chr_compute; reflexivity.
Qed.

Lemma search_from_cons r c s pos :
  search_from r (c :: s) pos =
    match match_at r (c :: s) pos with
    | Some m => Some m
    | None => search_from r s (S pos)
    end.
Proof. done. Qed.

Lemma first_match_bold_nested p d t rest :
  no_opener p -> is_delim d -> unclosed d t = true ->
  first_match (p ++ [d; d] ++ t ++ [d; d] ++ rest) =
    Some (MkMatch (length p) (length p + 4 + length t) [(3, [d; d]); (2, t); (1, [d; d])],
          bold).
Proof.
  intros Hp Hd Ht.
  apply (first_match_unique _ _ _ bold_re); [done | |].
  - unfold re_search. rewrite (search_plain bold) by done. rewrite Nat.add_0_l.
    apply search_from_hit. by apply (match_bold_nested d t rest (length p)).
  - intros t' r' m' Hr' Hne Hs. unfold re_search in Hs.
    rewrite (search_plain t') in Hs by done. rewrite Nat.add_0_l in Hs.
    cbn [app] in Hs. rewrite search_from_cons in Hs.
    rewrite (match_other_at_double d _ t' r') in Hs by done.
    apply search_from_bounds in Hs. cbn [m_start]. lia.
Qed.

(** X26.  Everything between two double delimiters is one bold run: a line
    made of text without a character at which a span starts, a pair of
    double asterisks or double underscores around a text that has no line
    feed, no two such delimiters in a row and none at its end, and again
    text without a character at which a span starts, gives the text before,
    one bold run and the text after.  Single delimiters, backticks and
    brackets inside the pair stay in the text of the bold run: spans do not
    nest. *)
Theorem bold_span_keeps_inner_markup p d t tail :
  no_opener p -> is_delim d -> unclosed d t = true -> no_opener tail ->
  format_runs (p ++ [d; d] ++ t ++ [d; d] ++ tail) =
    Some (plain_run p ++ [(bold, t)] ++ plain_run tail).
Proof.
  intros Hp Hd Ht Htail. unfold format_runs.
  pose proof (first_match_bold_nested p d t tail Hp Hd Ht) as Hf.
  destruct (p ++ [d; d] ++ t ++ [d; d] ++ tail) as [|c text] eqn:Et; [by destruct p|].
  cbn [length format_loop]. rewrite Hf, <- Et. cbn [m_start m_end run_of_match app].
  unfold m_group. cbn [m_groups group_lookup Nat.eqb default from_option id].
  assert (drop (length p + 4 + length t) (p ++ d :: d :: t ++ d :: d :: tail) = tail) as ->.
  { rewrite <- Nat.add_assoc, drop_app_add' by done.
    replace (4 + length t) with (S (S (length t + 2))) by lia. cbn [drop].
    by rewrite drop_app_add' by done. }
  rewrite format_loop_plain; [| done |].
  - f_equal. rewrite <- app_assoc. cbn [app]. f_equal.
    destruct p as [|a p]; [done|].
    cbn [plain_run]. replace (0 <? length (a :: p)) with true
      by (symmetry; apply Nat.ltb_lt; simpl; lia).
    by rewrite take_app_length.
  - apply (f_equal (@length ascii)) in Et. rewrite !length_app in Et. simpl in Et. lia.
Qed.

Lemma bold_span_keeps_inner_markup_witness :
  format_runs (py "a **bold *nested* and `code`** b") =
    Some [(normal, py "a "); (bold, py "bold *nested* and `code`"); (normal, py " b")].
Proof.
  apply (bold_span_keeps_inner_markup (py "a ") "*" (py "bold *nested* and `code`") (py " b")).
  - repeat constructor.
  - by left.
  - reflexivity.
  - repeat constructor.
Defined.

(** * Tables from HTML *)







(** * The chapter title and the first heading *)

Lemma split_on_join lines :
  Forall one_line lines -> lines <> [] ->
  split_on newline (join [newline] lines) = lines.
Proof.
  induction 1 as [|l lines Hl Hlines IH]; intros Hne; [done|].
  destruct lines as [|l' lines].
  - cbn [join]. by apply split_on_none, one_line_no_newline.
  - rewrite join_cons by done. cbn [app].
    rewrite split_on_app_sep, IH by done.
    by rewrite split_on_none by by apply one_line_no_newline.
Qed.

(** X28.  When the first line of a file is a heading of level one (one
    number sign, white space without a line feed, and a title), the chapter
    title that goes into the header of the section of the file is the text
    of the first unit that the block loop adds for the file: a heading of
    level one whose text is the title, stripped.  The units of the file come
    after what the document holds already; the heading of the table of
    contents and the heading with the name of the file, which the default
    configuration asks for, are added before the loop starts, so the heading
    of the chapter is not the first heading of the document.  When the title
    holds a control character other than tab, line feed and carriage return,
    [doc.add_heading] raises [ValueError] and there is no document. *)
Theorem chapter_title_is_first_unit cfg ws title rest_lines doc :
  ws <> [] -> blank ws -> one_line ws -> starts_text title -> one_line title ->
  Forall one_line rest_lines ->
  let md_content := join [newline] ((hashes 1 ++ ws ++ title) :: rest_lines) in
  extract_chapter_title md_content = strip title /\
  convert_from cfg (split_on newline md_content) initial_state doc =
    if xml_text (strip title)
    then do (added, st) <- convert_from cfg rest_lines initial_state [];
         Ok (doc ++ Heading 1 (strip title) (has_heading_style cfg 1) :: added, st)
    else ValueError.
Proof.
  intros Hne Hws Hwl Ht Htl Hrest md_content. unfold md_content. split.
  - assert (exists rest,
              join [newline] ((hashes 1 ++ ws ++ title) :: rest_lines)
                = unlines [] ++ "#"%char :: ws ++ title ++ rest /\
              (rest = [] \/ exists rest', rest = newline :: rest')) as (rest & -> & Hr).
    { destruct rest_lines as [|l ls].
      - exists []. split; [by rewrite !app_nil_r | by left].
      - exists (newline :: join [newline] (l :: ls)). split; [|right; eauto].
        rewrite join_cons by done. cbn. by rewrite <- !app_assoc. }
    by apply extract_chapter_title_at.
  - rewrite split_on_join; [| |done]; cycle 1.
    { constructor; [|done]. repeat (apply Forall_app; split); try done.
      by repeat constructor. }
    rewrite convert_from_cons, loop_body_heading by (done || lia).
    destruct (xml_text (strip title)); [|done]. cbn [obind].
    rewrite convert_from_frame.
    destruct (convert_from cfg rest_lines initial_state []) as [[added st]| | |]; [|done..].
    cbn [obind]. by rewrite <- app_assoc.
Qed.

Lemma chapter_title_is_first_unit_witness :
  extract_chapter_title
      (join [newline] ((hashes 1 ++ py " " ++ py "Scope ") :: map py ["text"; "# Other"]))
    = py "Scope" /\
  convert_from default_render_config
      (split_on newline
         (join [newline] ((hashes 1 ++ py " " ++ py "Scope ") :: map py ["text"; "# Other"])))
      initial_state
      [Heading 1 (py "Fichier: a.md") true] =
    Ok ([Heading 1 (py "Fichier: a.md") true;
         Heading 1 (py "Scope") true;
         Paragraph [(normal, py "text")]; Heading 1 (py "Other") true], initial_state).
Proof.
  pose proof (chapter_title_is_first_unit default_render_config (py " ") (py "Scope ")
                (map py ["text"; "# Other"])
                [Heading 1 (py "Fichier: a.md") true]) as H.
  destruct H as [H1 H2].
  - discriminate.
  - repeat constructor.
  - repeat constructor.
  - reflexivity.
  - repeat constructor.
  - repeat constructor.
  - split; [exact H1|]. etransitivity; [exact H2|]. vm_compute. reflexivity.
Defined.

(** * Lists from HTML *)





(** The paragraphs of a sample list. *)
Example add_list_to_doc_sample :
  add_list_to_doc sample_list None 0 =
    [MkListPar ul 0 (py "first"); MkListPar ol 1 (py "inner"); MkListPar ol 1 (py "deep");
     MkListPar ul 2 (py "x"); MkListPar ul 0 (py "second")].
Proof. reflexivity. Qed.

(** * Texts without control characters *)

Lemma xml_text_elem t : xml_text t = true <-> forall c, c ∈ t -> xml_char c = true.
Proof.
  unfold xml_text. rewrite forallb_forall. split; intros H c Hc; apply H.
  - by apply list_elem_of_In.
  - by apply list_elem_of_In.
Qed.

Lemma xml_text_incl l k :
  (forall c, c ∈ l -> c ∈ k) -> xml_text k = true -> xml_text l = true.
Proof. rewrite !xml_text_elem. intros Hlk Hk c Hc. by apply Hk, Hlk. Qed.

Lemma xml_text_sublist l k : l `sublist_of` k -> xml_text k = true -> xml_text l = true.
Proof. intros Hlk. apply xml_text_incl. intros c Hc. by eapply elem_of_sublist. Qed.

Lemma xml_text_strip_by p s : xml_text s = true -> xml_text (strip_by p s) = true.
Proof. apply xml_text_incl. intros c. apply elem_of_strip_by. Qed.

Lemma xml_text_strip s : xml_text s = true -> xml_text (strip s) = true.
Proof. apply xml_text_strip_by. Qed.

Lemma xml_text_drop n s : xml_text s = true -> xml_text (drop n s) = true.
Proof. apply xml_text_sublist, sublist_drop. Qed.

Lemma xml_text_forall (ts : list pystr) :
  forallb xml_text ts = true <-> Forall (fun t => xml_text t = true) ts.
Proof.
  rewrite forallb_forall, Forall_forall. split; intros H t Ht; apply H.
  - by apply list_elem_of_In.
  - by apply list_elem_of_In.
Qed.

Lemma xml_split_on sep s :
  xml_text s = true -> Forall (fun f => xml_text f = true) (split_on sep s).
Proof.
  induction s as [|c s IH]; intros H.
  - by repeat constructor.
  - simpl in H. apply andb_true_iff in H as [Hc Hs]. specialize (IH Hs).
    cbn [split_on]. destruct (chr_eqb sep c); [by constructor|].
    destruct (split_on sep s) as [|f fs]; [by repeat constructor; simpl; rewrite Hc|].
    inversion IH; subst. constructor; [|done]. simpl. by rewrite Hc.
Qed.

Lemma xml_join (parts : list pystr) :
  Forall (fun t => xml_text t = true) parts -> xml_text (join [newline] parts) = true.
Proof.
  induction 1 as [|p parts Hp Hparts IH]; [done|].
  destruct parts as [|q parts]; [done|].
  rewrite join_cons by done. rewrite !xml_text_app, Hp, IH. done.
Qed.

Lemma xml_runs_text runs : xml_runs runs = xml_text (runs_text runs).
Proof.
  unfold xml_runs, runs_text. induction runs as [|r runs IH]; [done|].
  cbn [forallb map concat]. by rewrite xml_text_app, IH.
Qed.

(** The runs of a text without control characters have none. *)
Lemma xml_format_runs text runs :
  format_runs text = Some runs -> xml_text text = true -> xml_runs runs = true.
Proof.
  intros H Ht. apply format_loop_sublist in H as (added & -> & H).
  rewrite xml_runs_text. by eapply xml_text_sublist.
Qed.

Lemma xml_m_group r line m i :
  re_match r line = Some m -> xml_text line = true -> xml_text (m_group m i) = true.
Proof.
  unfold re_match. intros H Hl. apply (m_group_sublist _ _ _ _ i) in H as [_ H].
  eapply xml_text_sublist; [exact H|]. eapply xml_text_sublist; [apply sublist_take | done].
Qed.

Lemma xml_row_cells line :
  xml_text line = true -> Forall (fun t => xml_text t = true) (row_cells line).
Proof.
  intros H. unfold row_cells. apply Forall_map.
  eapply Forall_impl; [apply xml_split_on; by apply xml_text_strip_by|].
  intros f Hf. by apply xml_text_strip.
Qed.

Lemma xml_grid_forall (table : grid) :
  xml_grid table = true <->
  Forall (Forall (fun c => xml_text (cell_text c) = true)) table.
Proof.
  unfold xml_grid. rewrite forallb_forall, Forall_forall. split.
  - intros H row Hrow. apply Forall_forall. intros c Hc.
    apply list_elem_of_In in Hrow. specialize (H row Hrow).
    rewrite forallb_forall in H. by apply H, list_elem_of_In.
  - intros H row Hrow. apply forallb_forall. intros c Hc.
    apply list_elem_of_In in Hrow, Hc. specialize (H row Hrow).
    rewrite Forall_forall in H. by apply H.
Qed.

(** The table of lines without control characters has none. *)
Lemma xml_table_of cfg table_lines :
  Forall (fun l => xml_text l = true) table_lines -> xml_grid (table_of cfg table_lines) = true.
Proof.
  intros H. apply xml_grid_forall. unfold table_of. constructor.
  - unfold header_row_cells. apply Forall_map. simpl.
    apply xml_row_cells. destruct table_lines as [|l ls]; [done|]. by inversion H.
  - apply Forall_map. apply Forall_drop. eapply Forall_impl; [exact H|].
    intros l Hl. unfold data_row_cells. apply Forall_app. split.
    + apply Forall_map. simpl. apply Forall_take. by apply xml_row_cells.
    + by apply Forall_replicate.
Qed.

Lemma collect_table_lines_Forall (P : pystr -> Prop) lines :
  Forall P lines ->
  Forall P (fst (collect_table_lines lines)) /\ Forall P (snd (collect_table_lines lines)).
Proof.
  induction 1 as [|l lines Hl Hlines [IH1 IH2]]; [done|]. simpl.
  destruct (is_table_line l).
  - destruct (collect_table_lines lines). simpl in *. split; [by constructor | done].
  - simpl. split; [done | by constructor].
Qed.

(** One iteration on lines without control characters: no call of the
    library raises, and what is left has no control character either. *)
Lemma loop_body_xml cfg line rest st doc :
  Forall (fun l => xml_text l = true) (line :: rest) ->
  Forall (fun l => xml_text l = true) (code_content st) ->
  xml_text (default [] (code_language st)) = true ->
  exists lines' st' doc',
    loop_body cfg line rest st doc = Ok (lines', st', doc') /\
    Forall (fun l => xml_text l = true) lines' /\
    Forall (fun l => xml_text l = true) (code_content st') /\
    xml_text (default [] (code_language st')) = true.
Proof.
  intros Hlines Hcode Hlang. apply Forall_cons in Hlines as [Hl Hrest].
  unfold loop_body.
  destruct (startswith (strip line) fence).
  { destruct (negb (in_code_block st)).
    - eexists _, _, _. split; [done|]. repeat split; [done | done |].
      cbn [code_language default from_option id].
      by apply xml_text_strip, xml_text_drop, xml_text_strip.
    - destruct (code_language st) as [lang|] eqn:Elang.
      + cbn [default from_option id] in Hlang.
        rewrite add_units_code, Hlang, xml_join by done.
        cbn [andb obind]. eexists _, _, _. split; [done|]. by repeat split.
      + unfold add_units. cbn [language_label app forallb xml_unit unit_texts].
        rewrite xml_join by done. cbn [andb obind].
        eexists _, _, _. split; [done|]. by repeat split. }
  destruct (in_code_block st).
  { eexists _, _, _. split; [done|]. repeat split; [done | | done].
    cbn [code_content]. apply Forall_app. split; [done | by constructor]. }
  destruct (re_match header_re line) as [m|] eqn:Eh.
  { rewrite add_units_heading.
    rewrite (xml_text_strip _ (xml_m_group _ _ _ 2 Eh Hl)).
    cbn [obind]. eexists _, _, _. split; [done|]. by repeat split. }
  destruct (re_match list_re line) as [m|] eqn:El.
  { destruct (format_runs_total (m_group m 3)) as [runs Hruns]. rewrite Hruns.
    cbn [of_fuel obind]. rewrite add_units_list.
    rewrite (xml_format_runs _ _ Hruns (xml_m_group _ _ _ 3 El Hl)).
    cbn [obind]. eexists _, _, _. split; [done|]. by repeat split. }
  destruct (is_table_line line).
  { pose proof (collect_table_lines_Forall _ (line :: rest)
                  (Forall_cons_2 _ _ _ Hl Hrest)) as [H1 H2].
    destruct (collect_table_lines (line :: rest)) as [table_lines rest'].
    cbn [fst snd] in H1, H2. destruct (3 <=? length table_lines).
    - rewrite build_table_spec. cbn [of_index obind].
      rewrite add_units_table, xml_table_of by done. cbn [obind].
      eexists _, _, _. split; [done|]. by repeat split.
    - eexists _, _, _. split; [done|]. by repeat split. }
  destruct (re_match image_re line).
  { eexists _, _, _. split; [done|]. by repeat split. }
  destruct (strip line).
  { eexists _, _, _. split; [done|]. by repeat split. }
  destruct (format_runs_total line) as [runs Hruns]. rewrite Hruns.
  cbn [of_fuel obind]. rewrite add_units_paragraph, (xml_format_runs _ _ Hruns Hl).
  cbn [obind]. eexists _, _, _. split; [done|]. by repeat split.
Qed.

Lemma convert_from_xml cfg n : forall lines st doc,
  length lines <= n ->
  Forall (fun l => xml_text l = true) lines ->
  Forall (fun l => xml_text l = true) (code_content st) ->
  xml_text (default [] (code_language st)) = true ->
  exists doc' st', convert_from cfg lines st doc = Ok (doc', st').
Proof.
  induction n as [|n IH]; intros lines st doc Hn Hlines Hcode Hlang.
  - destruct lines; [rewrite convert_from_nil; eauto | simpl in Hn; lia].
  - destruct lines as [|line rest]; [rewrite convert_from_nil; eauto|].
    rewrite convert_from_cons.
    destruct (loop_body_xml cfg line rest st doc Hlines Hcode Hlang)
      as (lines' & st' & doc' & E & H1 & H2 & H3).
    rewrite E. cbn [obind]. apply IH; try done.
    apply loop_body_shrinks in E. simpl in Hn. lia.
Qed.

(** X10.  The conversion of a Markdown text always ends: the loop ends
    within as many iterations as the text has lines, the loops on the inline
    markup end, and no cell of a table is addressed out of the grid, so the
    conversion gives a document or raises the [ValueError] of a text that
    the library refuses, and nothing else.  A text without control
    characters other than tab, line feed and carriage return gives a
    document.  (The insertion of an image and the styles are not part of
    this loop.) *)
Theorem convert_content_ends cfg md_content :
  ((exists doc st, convert_content cfg md_content = Ok (doc, st))
   \/ convert_content cfg md_content = ValueError) /\
  (xml_text md_content = true ->
   exists doc st, convert_content cfg md_content = Ok (doc, st)).
Proof.
  split; [apply convert_lines_total|]. intros H.
  apply (convert_from_xml cfg (length (split_on newline md_content))); try done.
  by apply xml_split_on.
Qed.

Lemma convert_content_ends_witness :
  exists doc st,
    convert_content default_render_config
      (py "# T" ++ [newline] ++ py "|a|" ++ [newline] ++ py "- *b*") = Ok (doc, st).
Proof.
  apply (convert_content_ends default_render_config
           (py "# T" ++ [newline] ++ py "|a|" ++ [newline] ++ py "- *b*")).
  reflexivity.
Defined.

(** * The cells of a table line, in the words of the specification *)










(** The table of that run: four columns, the cells of the header under the
    wrong columns of the data. *)
Example padded_run_table :
  convert_lines default_render_config padded_run =
    Ok ([Table
           [[MkCell [] true (Some (py "Times New Roman")) None (Some (240, 240, 240)%Z);
             MkCell (py "A") true (Some (py "Times New Roman")) None (Some (240, 240, 240)%Z);
             MkCell (py "B") true (Some (py "Times New Roman")) None (Some (240, 240, 240)%Z);
             MkCell [] true (Some (py "Times New Roman")) None (Some (240, 240, 240)%Z)];
            [MkCell (py "1") false (Some (py "Times New Roman")) (Some (10 # 1)) None;
             MkCell (py "2") false (Some (py "Times New Roman")) (Some (10 # 1)) None;
             empty_cell; empty_cell]];
         EmptyParagraph], initial_state) /\
  split_trimmed (py " |A|B| ") = [py "A"; py "B"] /\
  row_cells (py " |A|B| ") = [[]; py "A"; py "B"; []].
Proof. vm_compute. repeat split. Qed.

(** Where the cells of the code are not the fields of the split, by design:
    every cell is stripped, and a line of bars only has one empty cell. *)
Example cells_by_design :
  row_cells (py "| A |") = [py "A"] /\ split_trimmed (py "| A |") = [py " A "] /\
  row_cells (py "|||") = [[]] /\ split_trimmed (py "|||") = [].
Proof. vm_compute. repeat split. Qed.
